(** * multiAE: the sparsity gate, the loss assembly and the optimiser
      partitioning of the multi-view variational autoencoders.

    The development embeds the methods of

    - [src/models/vae.py]        (class [VAE], one latent per view),
    - [src/models/joint_vae.py]  (class [VAE], one fused latent),
    - [multiae/models/dvcca.py]  (class [DVCCA], shared + private latents)

    The values of the sparsity gate are IEEE-754 binary32 numbers, as
    [torch.float32] has them, with rounding, infinities and [nan].  The
    other tensors (latents, means, log-variances, losses) hold real
    numbers: what is proved about them is how they are indexed, shaped,
    moved and combined. *)

From Stdlib Require Import Reals Lra Lia ZArith.
From Stdlib Require Floats.SpecFloat.
From stdpp Require Import base option list strings gmap.

#[local] Open Scope R_scope.

(** ** Python exceptions and results *)

Inductive exn : Type :=
| AssertionError
| NotImplementedError
| AttributeError
| IndexError
| TypeError
| RuntimeError
| SystemExit.

Inductive result (A : Type) : Type :=
| Ok (a : A)
| Raise (e : exn).
Arguments Ok {A} a.
Arguments Raise {A} e.

#[global] Instance result_ret : MRet result := @Ok.
#[global] Instance result_bind : MBind result :=
  fun A B (k : A -> result B) (r : result A) =>
    match r with
    | Ok a => k a
    | Raise e => Raise e
    end.

(** [l[i]] on a Python list, for a non-negative index. *)
Definition getitem {A} (l : list A) (i : nat) : result A :=
  match l !! i with
  | Some a => Ok a
  | None => Raise IndexError
  end.

(** ** Tensors

    A rank-2 tensor of shape [[batch, width]] is the list of its rows. *)

Abbreviation tensor := (list (list R)).

Definition Rsum (l : list R) : R := foldr Rplus 0 l.

(** [t.sum(1)]: the sum of every row. *)
Definition sum1 (t : tensor) : list R := map Rsum t.

(** [v.mean(0)] of a rank-1 tensor. *)
Definition mean0 (v : list R) : R := Rsum v / INR (length v).

(** [t.sum(1, keepdims=True).mean(0)] and [torch.mean(t.sum(dim=1))]: the
    batch average of the row sums, a tensor with one element. *)
Definition sum1_mean0 (t : tensor) : R := mean0 (sum1 t).

(** Elementwise map, [torch.exp(t)], [t < c] and the like. *)
Definition tmap {A B} (f : A -> B) (t : list (list A)) : list (list B) :=
  map (map f) t.

Definition Rltb (a b : R) : bool := if Rlt_dec a b then true else false.

(** ** [torch.float32] scalars

    An entry of a float32 tensor is an IEEE-754 binary32 number: 24 bits
    of precision, the infinities at exponent 128.  Sums and quotients
    round to nearest, ties to even. *)

Abbreviation float32 := SpecFloat.spec_float.

Definition f32_add : float32 -> float32 -> float32 :=
  SpecFloat.SFadd 24 128.

Definition f32_div : float32 -> float32 -> float32 :=
  SpecFloat.SFdiv 24 128.

(** The number 1, which the Python integer [1] becomes next to a float32
    tensor. *)
Definition f32_one : float32 := SpecFloat.S754_finite false 8388608 (-23).

(** Not negative: [nan], a zero, or a number or infinity whose sign bit is
    off. *)
Definition f32_nonneg (x : float32) : bool :=
  match x with
  | SpecFloat.S754_nan | SpecFloat.S754_zero _ => true
  | SpecFloat.S754_infinity s | SpecFloat.S754_finite s _ _ => negb s
  end.

(** The sign bit is off, or the number is [nan]. *)
Definition f32_sign_off (x : float32) : bool :=
  match x with
  | SpecFloat.S754_nan => true
  | SpecFloat.S754_zero s | SpecFloat.S754_infinity s
  | SpecFloat.S754_finite s _ _ => negb s
  end.

(** The two operations of torch the gate calls besides [+] and [/]:
    [torch.exp] on a float32 entry, given by the real number the entry
    holds, and [entry < c], the comparison of a float32 entry with a Python
    number [c].  They are library code.  Of [torch.exp] it is recorded that
    its result is never negative; of the comparison, that nothing
    non-negative is below a [c <= 0] and that [nan] is below nothing. *)
Class torch : Type := {
  torch_exp : R -> float32;
  lt_scalar : float32 -> R -> bool;
  torch_exp_nonneg : forall x, f32_nonneg (torch_exp x) = true;
  lt_scalar_nonpos :
    forall x c, f32_nonneg x = true -> c <= 0 -> lt_scalar x c = false;
  lt_scalar_nan : forall c, lt_scalar SpecFloat.S754_nan c = false
}.


(** [for i in range(n): s = body(i, s)] over the indices [idx]. *)
Fixpoint for_range {S} (idx : list nat) (body : nat -> S -> result S) (s : S)
  : result S :=
  match idx with
  | [] => Ok s
  | i :: rest => s' ← body i s; for_range rest body s'
  end.

Definition range (n : nat) : list nat := seq 0 n.

(** Broadcasting along one axis: equal sizes pair up, a size of one is
    repeated, anything else is a shape error. *)
Definition bzip {A B C} (f : A -> B -> result C) (a : list A) (b : list B)
  : result (list C) :=
  if Nat.eqb (length a) (length b) then mapM (fun p => f p.1 p.2) (zip a b)
  else match a, b with
       | [x], _ => mapM (f x) b
       | _, [y] => mapM (fun x => f x y) a
       | _, _ => Raise RuntimeError
       end.

(** A binary elementwise operation on two rank-2 tensors. *)
Definition tensor_op (f : R -> R -> R) (a b : tensor) : result tensor :=
  bzip (bzip (fun x y => Ok (f x y))) a b.

(** ** The random source

    [noise k] is the [k]-th number the generator hands out; a reader at
    position [pos] takes the next numbers in order. *)

Definition draw (noise : nat -> R) (pos n : nat) : list R :=
  map noise (seq pos n).

(** [torch.FloatTensor(1, n).normal_(0, 0.01)], the only row of it. *)
Definition FloatTensor_normal_ (noise : nat -> R) (pos n : nat) : list R :=
  draw noise pos n.

(** [torch.randn_like(t)]: one draw per entry, row after row. *)
Fixpoint randn_like (noise : nat -> R) (pos : nat) (t : tensor) : tensor :=
  match t with
  | [] => []
  | row :: rest =>
      draw noise pos (length row)
      :: randn_like noise (pos + length row) rest
  end.

(** ** The heap of mutable objects

    A latent code handed to [apply_threshold] is a tensor, or a Python list
    of tensors; both are mutable and reached through references. *)

Abbreviation loc := positive.

Inductive obj : Type :=
| OTensor (t : tensor)
| OList (items : list loc).

Abbreviation heap := (gmap loc obj).

(** [z[:, ~keep] = 0] on a rank-2 tensor [t].  [keep] is the squeezed mask:
    a mask with a single entry has been squeezed to rank 0, and a rank-0
    boolean index selects everything or nothing; a rank-1 mask must be as
    long as the rows of [t] are wide. *)
Definition mask_row (keep : list bool) (row : list R) : list R :=
  zip_with (fun (k : bool) v => if k then v else 0) keep row.

Definition setitem_zero (keep : list bool) (t : tensor) : result tensor :=
  match keep with
  | [k] => Ok (if negb k then tmap (fun _ => 0) t else t)
  | _ =>
      if forallb (fun row => Nat.eqb (length row) (length keep)) t
      then Ok (map (mask_row keep) t)
      else Raise IndexError
  end.

(** ** Collaborators whose code is outside the core *)

(** [layers.Encoder] and [layers.Decoder] are opaque network modules; an
    instance is described by the arguments it was built with. *)
Module layers.
Record Encoder : Type := mkEncoder {
  input_dim : nat;
  hidden_layer_dims : list nat;
  variational : bool;
  non_linear : bool;
  sparse : bool;
  log_alpha : option (list R)
}.

Record Decoder : Type := mkDecoder {
  dec_input_dim : nat;
  dec_hidden_layer_dims : list nat;
  dec_variational : bool;
  dec_non_linear : bool
}.
End layers.

(** [utils.kl_utils]: the two closed-form KL terms, each already reduced to
    one number per call.  The helpers are described on the arguments they
    accept; what is proved of the losses is what a returned mapping holds
    and what a call that returns has read. *)
Class kl_utils : Type := {
  compute_kl : tensor -> tensor -> R;
  compute_kl_sparse : tensor -> tensor -> R
}.

(** [utils.calc_utils]: the two fusion objects. *)
Inductive join : Type :=
| ProductOfExperts
| MeanRepresentation.

(** A distribution object as the decoders return it: it has a location and
    answers [log_prob], described on the values it accepts. *)
Record Distribution : Type := mkDistribution {
  loc_ : tensor;
  log_prob : tensor -> tensor
}.

(** The parameters of one network module, named by the module they belong
    to: [Enc i] stands for [list(self.encoders[i].parameters())]. *)
Inductive params : Type :=
| Enc (i : nat)
| Dec (i : nat).

#[global] Instance params_eq_dec : EqDecision params.
Proof. solve_decision. Defined.

(** [torch.optim.Adam(groups, lr=lr)]. *)
Record Adam : Type := mkAdam {
  param_groups : list params;
  lr : R
}.

(** ** [src/models]: the two VAE classes

    Both classes are called [VAE] and set the same attributes; the joint one
    has [join_type] and [join_z] in addition ([None] stands for an attribute
    that was never set). *)
Module models.

Record VAE : Type := mkVAE {
  model_type : string;
  input_dims : list nat;
  z_dim : nat;
  non_linear : bool;
  beta : R;
  learning_rate : R;
  SNP_model : bool;
  joint_representation : bool;
  join_type : option string;
  join_z : option join;
  threshold : R;
  sparse : bool;
  (** shape [[1, z_dim]], held as its only row *)
  log_alpha : option (list R);
  n_views : nat;
  encoders : list layers.Encoder;
  decoders : list layers.Decoder;
  optimizers : list Adam
}.

(** One entry of [**kwargs]; [kw_other] is a name none of the methods
    below reads.  The constructors below are the bodies of [__init__]:
    binding the arguments is Python's, and a keyword with the name of a
    declared parameter never arrives in [**kwargs] ([in_kwargs] below
    tells which do). *)
Inductive kwarg : Type :=
| kw_model_type (v : string)
| kw_input_dims (v : list nat)
| kw_z_dim (v : nat)
| kw_non_linear (v : bool)
| kw_beta (v : R)
| kw_learning_rate (v : R)
| kw_SNP_model (v : bool)
| kw_joint_representation (v : bool)
| kw_join_type (v : string)
| kw_join_z (v : join)
| kw_threshold (v : R)
| kw_sparse (v : bool)
| kw_log_alpha (v : option (list R))
| kw_n_views (v : nat)
| kw_other (name : string).

Definition set_attr (self : VAE) (kw : kwarg) : VAE :=
  let '(mkVAE mt ids zd nl b l snp jr jt jz th sp la nv es ds os) := self in
  match kw with
  | kw_model_type v => mkVAE v ids zd nl b l snp jr jt jz th sp la nv es ds os
  | kw_input_dims v => mkVAE mt v zd nl b l snp jr jt jz th sp la nv es ds os
  | kw_z_dim v => mkVAE mt ids v nl b l snp jr jt jz th sp la nv es ds os
  | kw_non_linear v => mkVAE mt ids zd v b l snp jr jt jz th sp la nv es ds os
  | kw_beta v => mkVAE mt ids zd nl v l snp jr jt jz th sp la nv es ds os
  | kw_learning_rate v =>
      mkVAE mt ids zd nl b v snp jr jt jz th sp la nv es ds os
  | kw_SNP_model v => mkVAE mt ids zd nl b l v jr jt jz th sp la nv es ds os
  | kw_joint_representation v =>
      mkVAE mt ids zd nl b l snp v jt jz th sp la nv es ds os
  | kw_join_type v =>
      mkVAE mt ids zd nl b l snp jr (Some v) jz th sp la nv es ds os
  | kw_join_z v =>
      mkVAE mt ids zd nl b l snp jr jt (Some v) th sp la nv es ds os
  | kw_threshold v => mkVAE mt ids zd nl b l snp jr jt jz v sp la nv es ds os
  | kw_sparse v => mkVAE mt ids zd nl b l snp jr jt jz th v la nv es ds os
  | kw_log_alpha v => mkVAE mt ids zd nl b l snp jr jt jz th sp v nv es ds os
  | kw_n_views v => mkVAE mt ids zd nl b l snp jr jt jz th sp la v es ds os
  | kw_other _ => self
  end.

(** [self.__dict__.update(kwargs)] *)
Definition update (self : VAE) (kwargs : list kwarg) : VAE :=
  foldl set_attr self kwargs.

(** The two [ModuleList]s and the optimisers, built the same way by both
    constructors from the attributes as they stand after [update]:
    [hidden] is the local [hidden_layer_dims] with [z_dim] appended. *)
Definition build_encoders (self : VAE) (hidden : list nat)
  : list layers.Encoder :=
  map (fun input_dim =>
         layers.mkEncoder input_dim hidden true (non_linear self)
                          (sparse self) (log_alpha self))
      (input_dims self).

Definition build_decoders (self : VAE) (hidden : list nat)
  : list layers.Decoder :=
  map (fun input_dim =>
         layers.mkDecoder input_dim hidden true (non_linear self))
      (input_dims self).

Definition build_optimizers (self : VAE) : result (list Adam) :=
  mapM (fun i =>
          _ ← getitem (encoders self) i;
          _ ← getitem (decoders self) i;
          Ok (mkAdam [Enc i; Dec i] (learning_rate self)))
       (range (n_views self)).

Definition set_modules (self : VAE) (es : list layers.Encoder)
           (ds : list layers.Decoder) : VAE :=
  let '(mkVAE mt ids zd nl b l snp jr jt jz th sp la nv _ _ os) := self in
  mkVAE mt ids zd nl b l snp jr jt jz th sp la nv es ds os.

Definition set_optimizers (self : VAE) (os : list Adam) : VAE :=
  let '(mkVAE mt ids zd nl b l snp jr jt jz th sp la nv es ds _) := self in
  mkVAE mt ids zd nl b l snp jr jt jz th sp la nv es ds os.

(** *** [dropout] and [apply_threshold]

    The two methods have the same body in [vae.py] and [joint_vae.py].
    [log_alpha] is held as the real numbers its float32 entries stand for;
    what [dropout] returns is a float32 tensor of shape [[1, z_dim]], held
    as its only row. *)
Section with_torch.
Context `{torch}.

Definition dropout (self : VAE) : result (list float32) :=
  if sparse self then
    match log_alpha self with
    | Some la =>
        let alpha := map torch_exp la in
        Ok (map (fun a => f32_div a (f32_add a f32_one)) alpha)
    | None => Raise AttributeError
    end
  else Raise NotImplementedError.

(** [_[:, ~keep] = 0] on the object stored at [l]; a Python list does not
    take a tuple index. *)
Definition zero_columns (keep : list bool) (l : loc) (h : heap)
  : result unit * heap :=
  match h !! l with
  | Some (OTensor t) =>
      match setitem_zero keep t with
      | Ok t' => (Ok (), <[l := OTensor t']> h)
      | Raise e => (Raise e, h)
      end
  | _ => (Raise TypeError, h)
  end.

(** [for _ in z: _[:, ~keep] = 0] *)
Fixpoint zero_each (keep : list bool) (items : list loc) (h : heap)
  : result unit * heap :=
  match items with
  | [] => (Ok (), h)
  | l :: rest =>
      match zero_columns keep l h with
      | (Ok _, h') => zero_each keep rest h'
      | (Raise e, h') => (Raise e, h')
      end
  end.

(** [apply_threshold(z)]: [z] is the reference the caller passes, the
    result is the reference handed back together with the heap as the
    call leaves it.  A per-view model iterates over [z]: over the tensors of
    a list, or over the rows of a tensor, which are rank-1 views of it and
    take the column index only when the mask has been squeezed to rank 0. *)
Definition apply_threshold (self : VAE) (z : loc) (h : heap)
  : result loc * heap :=
  if Rle_dec (threshold self) 1 then
    match dropout self with
    | Raise e => (Raise e, h)
    | Ok dropout =>
        let keep := map (fun d => lt_scalar d (threshold self)) dropout in
        if joint_representation self then
          match zero_columns keep z h with
          | (Ok _, h') => (Ok z, h')
          | (Raise e, h') => (Raise e, h')
          end
        else
          match h !! z with
          | Some (OList items) =>
              match zero_each keep items h with
              | (Ok _, h') => (Ok z, h')
              | (Raise e, h') => (Raise e, h')
              end
          | Some (OTensor []) => (Ok z, h)
          | Some (OTensor (row :: t)) =>
              match keep with
              | [k] =>
                  (Ok z,
                   <[z := OTensor (if negb k
                                   then tmap (fun _ => 0) (row :: t)
                                   else row :: t)]> h)
              | _ => (Raise IndexError, h)
              end
          | None => (Raise TypeError, h)
          end
    end
  else (Raise AssertionError, h).
End with_torch.

Definition sample_from_normal (self : VAE) (normal : Distribution)
  : tensor :=
  loc_ normal.

(** *** [vae.py]: one latent per view *)
Module vae.

Definition __init__ (noise : nat -> R)
           (input_dims : list nat) (z_dim : nat)
           (hidden_layer_dims : list nat) (non_linear : bool)
           (learning_rate beta threshold : R) (SNP_model : bool)
           (kwargs : list kwarg) : result VAE :=
  let hidden_layer_dims := hidden_layer_dims ++ [z_dim] in
  let sparse := if Req_dec_T threshold 0 then false else true in
  let self :=
    {| model_type := if sparse then "sparse_VAE" else "VAE";
       input_dims := input_dims;
       z_dim := z_dim;
       non_linear := non_linear;
       beta := beta;
       learning_rate := learning_rate;
       SNP_model := SNP_model;
       joint_representation := false;
       join_type := None;
       join_z := None;
       threshold := threshold;
       sparse := sparse;
       log_alpha :=
         if sparse then Some (FloatTensor_normal_ noise 0 z_dim)
         else None;
       n_views := length input_dims;
       encoders := [];
       decoders := [];
       optimizers := [] |} in
  let self := update self kwargs in
  let self :=
    set_modules self (build_encoders self hidden_layer_dims)
                (build_decoders self hidden_layer_dims) in
  os ← build_optimizers self;
  Ok (set_optimizers self os).

Record fwd_rtn : Type := mk_fwd_rtn {
  x_recon : list (list Distribution);
  mu : list tensor;
  logvar : list tensor
}.

Section with_kl_utils.
Context `{kl_utils}.

Definition calc_kl (self : VAE) (mu logvar : list tensor) : result R :=
  kl ← for_range (range (n_views self))
         (fun i kl =>
            m ← getitem mu i;
            lv ← getitem logvar i;
            if sparse self
            then Ok (kl + compute_kl_sparse m lv)
            else Ok (kl + compute_kl m lv))
         0;
  Ok (beta self * kl).

Definition calc_ll (self : VAE) (x : list tensor)
           (x_recon : list (list Distribution)) : result R :=
  for_range (range (n_views self))
    (fun i ll =>
       for_range (range (n_views self))
         (fun j ll =>
            row ← getitem x_recon i;
            d ← getitem row j;
            xi ← getitem x i;
            Ok (ll + sum1_mean0 (log_prob d xi)))
         ll)
    0.

Definition loss_function (self : VAE) (x : list tensor)
           (fwd : fwd_rtn) : result (gmap string R) :=
  let x_recon := x_recon fwd in
  let mu := mu fwd in
  let logvar := logvar fwd in
  kl ← calc_kl self mu logvar;
  recon ← calc_ll self x x_recon;
  let total := kl - recon in
  Ok {[ "total" := total; "kl" := kl; "ll" := recon ]}.
End with_kl_utils.
End vae.

(** *** [joint_vae.py]: one fused latent *)
Module joint_vae.

(** The constructor also reports what it printed.  [n_views] is set
    only after the keyword overrides, so an override of it is lost. *)
Definition __init__ (noise : nat -> R)
           (input_dims : list nat) (z_dim : nat)
           (hidden_layer_dims : list nat) (non_linear : bool)
           (learning_rate beta threshold : R) (SNP_model : bool)
           (join_type : string)
           (kwargs : list kwarg) : list string * result VAE :=
  let hidden_layer_dims := hidden_layer_dims ++ [z_dim] in
  let join_z :=
    if String.eqb join_type "PoE" then Some ProductOfExperts
    else if String.eqb join_type "Mean" then Some MeanRepresentation
    else None in
  match join_z with
  | None => (["Incorrect join method"], Raise SystemExit)
  | Some jz =>
      let sparse := if Req_dec_T threshold 0 then false else true in
      let self :=
        {| model_type := if sparse then "joint_sparse_VAE" else "joint_VAE";
           input_dims := input_dims;
           z_dim := z_dim;
           non_linear := non_linear;
           beta := beta;
           learning_rate := learning_rate;
           SNP_model := SNP_model;
           joint_representation := true;
           join_type := Some join_type;
           join_z := Some jz;
           threshold := threshold;
           sparse := sparse;
           log_alpha :=
             if sparse then Some (FloatTensor_normal_ noise 0 z_dim)
             else None;
           n_views := 0;
           encoders := [];
           decoders := [];
           optimizers := [] |} in
      let self := update self kwargs in
      let self := set_attr self (kw_n_views (length input_dims)) in
      let self :=
        set_modules self (build_encoders self hidden_layer_dims)
                    (build_decoders self hidden_layer_dims) in
      ([], os ← build_optimizers self; Ok (set_optimizers self os))
  end.

Definition reparameterise (noise : nat -> R) (pos : nat) (self : VAE)
           (mu logvar : tensor) : result tensor :=
  let std := tmap (fun v => exp (0.5 * v)) logvar in
  let eps := randn_like noise pos mu in
  es ← tensor_op Rmult eps std;
  tensor_op Rplus mu es.

Record fwd_rtn : Type := mk_fwd_rtn {
  x_recon : list Distribution;
  mu : tensor;
  logvar : tensor
}.

Section with_kl_utils.
Context `{kl_utils}.

Definition calc_kl (self : VAE) (mu logvar : tensor) : R :=
  let kl := 0 in
  let kl :=
    if sparse self then kl + compute_kl_sparse mu logvar
    else kl + compute_kl mu logvar in
  beta self * kl.

Definition calc_ll (self : VAE) (x : list tensor)
           (x_recon : list Distribution) : result R :=
  for_range (range (n_views self))
    (fun i ll =>
       d ← getitem x_recon i;
       xi ← getitem x i;
       Ok (ll + mean0 (sum1 (log_prob d xi))))
    0.

Definition loss_function (self : VAE) (x : list tensor)
           (fwd : fwd_rtn) : result (gmap string R) :=
  let x_recon := x_recon fwd in
  let mu := mu fwd in
  let logvar := logvar fwd in
  let kl := calc_kl self mu logvar in
  recon ← calc_ll self x x_recon;
  let total := kl - recon in
  Ok {[ "total" := total; "kl" := kl; "ll" := recon ]}.
End with_kl_utils.
End joint_vae.
End models.

(** ** [multiae/models/dvcca.py]: shared and private latents *)
Module dvcca.

(** What [hydra.utils.instantiate(self.cfg.encoder, ...)] was called
    with. *)
Record Encoder : Type := mkEncoder {
  enc_input_dim : nat;
  enc_z_dim : nat;
  enc_sparse : bool;
  enc_log_alpha : option (list R)
}.

(** The posterior objects built by [encode] and the likelihood objects
    built by the decoders, by the methods the loss calls on them, described
    on the arguments they accept. *)
Record Posterior (Prior : Type) : Type := mkPosterior {
  kl_divergence : Prior -> tensor;
  sparse_kl_divergence : tensor
}.
Arguments kl_divergence {Prior} _ _.
Arguments sparse_kl_divergence {Prior} _.

Record Likelihood : Type := mkLikelihood {
  log_likelihood : tensor -> tensor
}.

Section with_prior.
Context {Prior : Type}.

(** The attributes [BaseModelVAE] sets and the methods below read or
    write. *)
Record DVCCA : Type := mkDVCCA {
  input_dim : list nat;
  z_dim : nat;
  n_views : nat;
  private : bool;
  sparse : bool;
  threshold : R;
  beta : R;
  learning_rate : R;
  prior : Prior;
  (** shape [[1, z_dim]], held as its only row *)
  log_alpha : option (list R);
  encoders : list Encoder;
  private_encoders : list Encoder
}.

(** [_setencoders]; [noise] is read from position 0.  An [IndexError]
    on an empty [input_dim] ends the call. *)
Definition _setencoders (noise : nat -> R) (self : DVCCA)
  : result DVCCA :=
  let enabled :=
    sparse self && (if Req_dec_T (threshold self) 0 then false else true)
  in
  let sparse1 := if enabled then sparse self else false in
  let log_alpha1 :=
    if enabled then Some (FloatTensor_normal_ noise 0 (z_dim self))
    else None in
  let pos1 := if enabled then z_dim self else O in
  d0 ← getitem (input_dim self) 0;
  let encoders1 := [mkEncoder d0 (z_dim self) sparse1 log_alpha1] in
  if private self then
    let private_encoders1 :=
      map (fun d => mkEncoder d (z_dim self) sparse1 log_alpha1)
          (input_dim self) in
    let z_dim2 := (z_dim self + z_dim self)%nat in
    let log_alpha2 :=
      if sparse1
         && (if Req_dec_T (threshold self) 0 then false else true)
      then Some (FloatTensor_normal_ noise pos1 z_dim2)
      else log_alpha1 in
    Ok {| input_dim := input_dim self;
          z_dim := z_dim2;
          n_views := n_views self;
          private := private self;
          sparse := sparse1;
          threshold := threshold self;
          beta := beta self;
          learning_rate := learning_rate self;
          prior := prior self;
          log_alpha := log_alpha2;
          encoders := encoders1;
          private_encoders := private_encoders1 |}
  else
    Ok {| input_dim := input_dim self;
          z_dim := z_dim self;
          n_views := n_views self;
          private := private self;
          sparse := sparse1;
          threshold := threshold self;
          beta := beta self;
          learning_rate := learning_rate self;
          prior := prior self;
          log_alpha := log_alpha1;
          encoders := encoders1;
          private_encoders := private_encoders self |}.

Definition calc_kl (self : DVCCA) (qz_x : list (Posterior Prior))
  : result R :=
  let n := if private self then n_views self else 1%nat in
  kl ← for_range (range n)
         (fun i kl =>
            q ← getitem qz_x i;
            if sparse self
            then Ok (kl + sum1_mean0 (sparse_kl_divergence q))
            else Ok (kl + sum1_mean0 (kl_divergence q (prior self))))
         0;
  Ok (beta self * kl).

Definition calc_ll (self : DVCCA) (x : list tensor)
           (px_zs : list (list Likelihood)) : result R :=
  for_range (range (n_views self))
    (fun i ll =>
       row ← getitem px_zs i;
       p ← getitem row 0;
       xi ← getitem x i;
       Ok (ll + sum1_mean0 (log_likelihood p xi)))
    0.

Record fwd_rtn : Type := mk_fwd_rtn {
  px_zs : list (list Likelihood);
  qz_x : list (Posterior Prior)
}.

Definition loss_function (self : DVCCA) (x : list tensor)
           (fwd : fwd_rtn) : result (gmap string R) :=
  let px_zs := px_zs fwd in
  let qz_x := qz_x fwd in
  kl ← calc_kl self qz_x;
  ll ← calc_ll self x px_zs;
  let total := kl - ll in
  Ok {[ "loss" := total; "kl" := kl; "ll" := ll ]}.
End with_prior.
Arguments DVCCA : clear implicits.
Arguments fwd_rtn : clear implicits.
End dvcca.

(** ** The forward passes

    The network modules are opaque.  [encoder_forward i e x] is what
    [self.encoders[i](x)] returns for the module [e] found at position [i];
    [decoder_forward] likewise; [join_forward j mu logvar] is what the
    fusion object [j] returns on the stacked means and log-variances.  Any
    of them may raise. *)
Class networks : Type := {
  encoder_forward :
    nat -> layers.Encoder -> tensor -> result (tensor * tensor);
  decoder_forward : nat -> layers.Decoder -> tensor -> result Distribution;
  join_forward : join -> list tensor -> list tensor -> result (tensor * tensor)
}.

(** The lengths of the rows, which tell the shape of a tensor that has
    rows. *)
Definition shape (t : tensor) : list nat := map length t.

(** [torch.stack(ts)]: a rank-3 tensor, held as the list of its slices;
    the list must not be empty and the shapes must agree. *)
Definition stack (ts : list tensor) : result (list tensor) :=
  match ts with
  | [] => Raise RuntimeError
  | t :: rest =>
      if forallb (fun t' => bool_decide (shape t' = shape t)) rest
      then Ok ts
      else Raise RuntimeError
  end.

(** [torch.cat((a, b), 1)]: the rows of [a] extended by the rows of [b];
    the numbers of rows must agree. *)
Definition cat1 (a b : tensor) : result tensor :=
  if Nat.eqb (length a) (length b) then Ok (zip_with app a b)
  else Raise RuntimeError.

(** *** [vae.py]: [encode], [reparameterise], [decode], [forward] *)
Module vae_forward.
Section with_networks.
Context `{networks}.

Definition encode (self : models.VAE) (x : list tensor)
  : result (list tensor * list tensor) :=
  for_range (range (models.n_views self))
    (fun i '(mu, logvar) =>
       e ← getitem (models.encoders self) i;
       xi ← getitem x i;
       '(mu_, logvar_) ← encoder_forward i e xi;
       Ok (mu ++ [mu_], logvar ++ [logvar_]))
    ([], []).

(** The loop state carries the list built so far and the position of the
    random source. *)
Definition reparameterise (noise : nat -> R) (pos : nat) (self : models.VAE)
           (mu logvar : list tensor) : result (list tensor) :=
  zp ← for_range (range (length mu))
         (fun i '(z, pos) =>
            lv ← getitem logvar i;
            let std := tmap (fun v => exp (0.5 * v)) lv in
            m ← getitem mu i;
            let eps := randn_like noise pos m in
            es ← tensor_op Rmult eps std;
            zi ← tensor_op Rplus m es;
            Ok (z ++ [zi], (pos + length (concat m))%nat))
         ([], pos);
  Ok zp.1.

Definition decode (self : models.VAE) (z : list tensor)
  : result (list (list Distribution)) :=
  for_range (range (models.n_views self))
    (fun i x_recon =>
       temp_recon ← mapM (fun j =>
                            d ← getitem (models.decoders self) i;
                            zj ← getitem z j;
                            decoder_forward i d zj)
                         (range (models.n_views self));
       Ok (x_recon ++ [temp_recon]))
    [].

(** [self.zero_grad()] clears gradients, which the embedding does not
    hold. *)
Definition forward (noise : nat -> R) (pos : nat) (self : models.VAE)
           (x : list tensor) : result models.vae.fwd_rtn :=
  '(mu, logvar) ← encode self x;
  z ← reparameterise noise pos self mu logvar;
  x_recon ← decode self z;
  Ok (models.vae.mk_fwd_rtn x_recon mu logvar).
End with_networks.
End vae_forward.

(** *** [joint_vae.py]: [encode], [decode], [forward] *)
Module joint_forward.
Section with_networks.
Context `{networks}.

Definition encode (self : models.VAE) (x : list tensor)
  : result (tensor * tensor) :=
  '(mu, logvar) ← for_range (range (models.n_views self))
                    (fun i '(mu, logvar) =>
                       e ← getitem (models.encoders self) i;
                       xi ← getitem x i;
                       '(mu_, logvar_) ← encoder_forward i e xi;
                       Ok (mu ++ [mu_], logvar ++ [logvar_]))
                    ([], []);
  mu ← stack mu;
  logvar ← stack logvar;
  match models.join_z self with
  | Some j => join_forward j mu logvar
  | None => Raise AttributeError
  end.

Definition decode (self : models.VAE) (z : tensor)
  : result (list Distribution) :=
  for_range (range (models.n_views self))
    (fun i x_recon =>
       d ← getitem (models.decoders self) i;
       mu_out ← decoder_forward i d z;
       Ok (x_recon ++ [mu_out]))
    [].

Definition forward (noise : nat -> R) (pos : nat) (self : models.VAE)
           (x : list tensor) : result models.joint_vae.fwd_rtn :=
  '(mu, logvar) ← encode self x;
  z ← models.joint_vae.reparameterise noise pos self mu logvar;
  x_recon ← decode self z;
  Ok (models.joint_vae.mk_fwd_rtn x_recon mu logvar).
End with_networks.

End joint_forward.

(** *** [dvcca.py]: [configure_optimizers], [encode], [decode], [forward] *)
Module dvcca_forward.

(** Whose parameters an optimiser of DVCCA holds. *)
Inductive params : Type :=
| Encoders (i : nat)
| PrivateEncoders (i : nat)
| Decoders (i : nat).

Record Adam : Type := mkAdam {
  param_groups : list params;
  lr : R
}.

(** The opaque parts: the forward passes of the three module lists, the
    posterior class [cfg.encoder.enc_dist] called with [loc] and [scale],
    and [_sample], which may read the random source at a position and
    leaves it at another. *)
Class networks (Prior : Type) : Type := {
  encoder_forward : nat -> dvcca.Encoder -> tensor -> result (tensor * tensor);
  private_encoder_forward :
    nat -> dvcca.Encoder -> tensor -> result (tensor * tensor);
  decoder_forward : nat -> tensor -> result dvcca.Likelihood;
  enc_dist : tensor -> tensor -> dvcca.Posterior Prior;
  _sample : dvcca.Posterior Prior -> bool -> nat -> tensor * nat
}.

Section with_networks.
Context {Prior : Type} `{networks Prior}.

(** The model with the attributes of [BaseModelVAE] the methods below read
    in addition: the length of [self.decoders] and [self._training]. *)
Record Model : Type := mkModel {
  attrs : dvcca.DVCCA Prior;
  n_decoders : nat;
  _training : bool
}.

(** [self.decoders[i]] *)
Definition decoders_getitem (self : Model) (i : nat) : result unit :=
  if Nat.ltb i (n_decoders self) then Ok () else Raise IndexError.

Definition configure_optimizers (self : Model) : result (list Adam) :=
  let a := attrs self in
  if dvcca.private a then
    _ ← getitem (dvcca.encoders a) 0;
    priv ← mapM (fun i =>
                   _ ← getitem (dvcca.private_encoders a) i;
                   Ok (mkAdam [PrivateEncoders i] (dvcca.learning_rate a)))
                (range (dvcca.n_views a));
    dec ← mapM (fun i =>
                  _ ← decoders_getitem self i;
                  Ok (mkAdam [Decoders i] (dvcca.learning_rate a)))
               (range (dvcca.n_views a));
    Ok ([mkAdam [Encoders 0] (dvcca.learning_rate a)] ++ priv ++ dec)
  else
    _ ← getitem (dvcca.encoders a) 0;
    dec ← mapM (fun i =>
                  _ ← decoders_getitem self i;
                  Ok (mkAdam [Decoders i] (dvcca.learning_rate a)))
               (range (dvcca.n_views a));
    Ok ([mkAdam [Encoders 0] (dvcca.learning_rate a)] ++ dec).

(** [logvar.exp().pow(0.5)] *)
Definition scale_of (logvar : tensor) : tensor :=
  tmap (fun v => sqrt (exp v)) logvar.

Definition encode (self : Model) (x : list tensor)
  : result (list (dvcca.Posterior Prior)) :=
  let a := attrs self in
  e0 ← getitem (dvcca.encoders a) 0;
  x0 ← getitem x 0;
  '(mu, logvar) ← encoder_forward 0 e0 x0;
  if dvcca.private a then
    for_range (range (dvcca.n_views a))
      (fun i qz_xs =>
         e ← getitem (dvcca.private_encoders a) i;
         xi ← getitem x i;
         '(mu_p, logvar_p) ← private_encoder_forward i e xi;
         mu_ ← cat1 mu mu_p;
         logvar_ ← cat1 logvar logvar_p;
         let qz_x := enc_dist mu_ (scale_of logvar_) in
         Ok (qz_xs ++ [qz_x]))
      []
  else
    let qz_x := enc_dist mu (scale_of logvar) in
    Ok [qz_x].

(** The loop state carries the list built so far and the position of the
    random source. *)
Definition decode (pos : nat) (self : Model)
           (qz_x : list (dvcca.Posterior Prior))
  : result (list (list dvcca.Likelihood)) :=
  let a := attrs self in
  pp ← for_range (range (dvcca.n_views a))
         (fun i '(px_zs, pos) =>
            _ ← decoders_getitem self i;
            q ← getitem qz_x (if dvcca.private a then i else O);
            let '(z, pos') := _sample q (_training self) pos in
            x_out ← decoder_forward i z;
            Ok (px_zs ++ [[x_out]], pos'))
         ([], pos);
  Ok pp.1.

Definition forward (pos : nat) (self : Model) (x : list tensor)
  : result (dvcca.fwd_rtn Prior) :=
  qz_x ← encode self x;
  px_zs ← decode pos self qz_x;
  Ok (dvcca.mk_fwd_rtn px_zs qz_x).
End with_networks.
Arguments Model : clear implicits.
End dvcca_forward.

(** ** Definitions used to state the properties *)

(** Entry [(i, j)] of a tensor. *)
Definition entry (t : tensor) (i j : nat) : option R :=
  row ← t !! i; row !! j.

(** [t] has [n] columns.  A batch without samples is the empty list of
    rows, whatever its width: it stands here for the one of width [n]. *)
Definition width (n : nat) (t : tensor) : Prop :=
  Forall (fun row => length row = n) t.

(** Two tensors of one shape. *)
Definition same_shape (a b : tensor) : Prop :=
  Forall2 (fun r1 r2 : list R => length r1 = length r2) a b.

(** [a < b] on two float32 numbers; with [nan] on either side it is
    false. *)
Definition f32_lt : float32 -> float32 -> bool := SpecFloat.SFltb.

(** [a <= b] on two float32 numbers. *)
Definition f32_le : float32 -> float32 -> bool := SpecFloat.SFleb.

(** A float32 number strictly between 0 and 1. *)
Definition in_open_unit (p : float32) : bool :=
  f32_lt (SpecFloat.S754_zero false) p && f32_lt p f32_one.

(** The gate of one latent dimension as [dropout] computes it,
    [alpha / (alpha + 1)] with [alpha = torch.exp(log_alpha)]. *)
Definition gate `{torch} (la : R) : float32 :=
  f32_div (torch_exp la) (f32_add (torch_exp la) f32_one).

(** [keep = (self.dropout() < self.threshold).squeeze()] for the gate
    [la]. *)
Definition keep_mask `{torch} (thr : R) (la : list R) : list bool :=
  map (fun d => lt_scalar d thr) (map gate la).

(** [t'] is [t] with the latent dimensions zeroed whose dropout rate the
    comparison does not find below [thr]; the decision is taken per column,
    from [la] alone. *)
Definition thresholded `{torch} (thr : R) (la : list R) (t t' : tensor)
  : Prop :=
  same_shape t t' /\
  forall i j v a,
    entry t i j = Some v -> la !! j = Some a ->
    entry t' i j = Some (if lt_scalar (gate a) thr then v else 0).

(** The dropout rate as the specification writes it, over the real
    numbers. *)
Definition dropout_rate (la : R) : R := exp la / (exp la + 1).

(** The value of a finite float32 [(-1)^s * m * 2^e]. *)
Definition F2R (s : bool) (m : positive) (e : Z) : R :=
  (if s then -1 else 1) * IZR (Zpos m)
  * match e with
    | Z0 => 1
    | Zpos p => IZR (Z.pow_pos 2 p)
    | Zneg p => / IZR (Z.pow_pos 2 p)
    end.

(** The library functions used to run the gate on concrete models.

    [example_lt_scalar] compares the value of the entry with the number
    [c] itself, which is the float32 comparison for every [c] that float32
    represents, such as the thresholds 1, 1/2 and -1 of the examples.

    [example_exp] is [torch.exp] where the examples call it: it overflows
    to [inf] from 89 on and underflows to 0 up to -104, it is 1 at 0, and
    at 17 it is 24154952, the float32 nearest to e^17 = 24154952.75...
    The examples do not call it elsewhere, and it answers [nan] there. *)
Definition example_lt_scalar (x : float32) (c : R) : bool :=
  match x with
  | SpecFloat.S754_nan => false
  | SpecFloat.S754_infinity s => s
  | SpecFloat.S754_zero _ => Rltb 0 c
  | SpecFloat.S754_finite s m e => Rltb (F2R s m e) c
  end.

Definition example_exp (x : R) : float32 :=
  if Rle_dec 89 x then SpecFloat.S754_infinity false
  else if Rle_dec x (-104) then SpecFloat.S754_zero false
  else if Req_dec_T x 0 then f32_one
  else if Req_dec_T x 17 then SpecFloat.S754_finite false 12077476 1
  else SpecFloat.S754_nan.

#[global] Instance example_torch : torch.
Proof.
  refine {| torch_exp := example_exp; lt_scalar := example_lt_scalar |}.
  - intros x. unfold example_exp.
    destruct (Rle_dec 89 x); [done|]. destruct (Rle_dec x (-104)); [done|].
    destruct (Req_dec_T x 0); [done|]. destruct (Req_dec_T x 17); done.
  - intros [s|s| |s m e] c Hx Hc; cbn in *.
    + unfold Rltb. destruct (Rlt_dec 0 c); [lra|done].
    + destruct s; done.
    + done.
    + destruct s; [done|]. unfold Rltb, F2R.
      destruct (Rlt_dec _ c) as [Hlt|]; [exfalso|done].
      assert (0 < IZR (Z.pos m)) as Hm by (apply IZR_lt; lia).
      assert (forall p, 0 < IZR (Z.pow_pos 2 p)) as Hp.
      { intros p. apply IZR_lt.
        change (Z.pow_pos 2 p) with (2 ^ Z.pos p)%Z.
        apply Z.pow_pos_nonneg; lia. }
      assert (0 < match e with
                  | Z0 => 1
                  | Zpos p => IZR (Z.pow_pos 2 p)
                  | Zneg p => / IZR (Z.pow_pos 2 p)
                  end) as He.
      { destruct e as [|p|p]; [lra|apply Hp|apply Rinv_0_lt_compat, Hp]. }
      pose proof (Rmult_lt_0_compat _ _ Hm He) as Hpos. lra.
  - done.
Defined.

(** The model once optimisation steps have moved its gate to [la]:
    [log_alpha] is one parameter object, which the model and every encoder
    hold. *)
Definition with_log_alpha (la : list R) (self : models.VAE) : models.VAE :=
  let self := models.set_attr self (models.kw_log_alpha (Some la)) in
  models.set_modules self
    (map (fun e =>
            layers.mkEncoder (layers.input_dim e)
              (layers.hidden_layer_dims e) (layers.variational e)
              (layers.non_linear e) (layers.sparse e) (Some la))
         (models.encoders self))
    (models.decoders self).

(** The name under which a keyword argument is passed. *)
Definition kwarg_name (kw : models.kwarg) : string :=
  match kw with
  | models.kw_model_type _ => "model_type"
  | models.kw_input_dims _ => "input_dims"
  | models.kw_z_dim _ => "z_dim"
  | models.kw_non_linear _ => "non_linear"
  | models.kw_beta _ => "beta"
  | models.kw_learning_rate _ => "learning_rate"
  | models.kw_SNP_model _ => "SNP_model"
  | models.kw_joint_representation _ => "joint_representation"
  | models.kw_join_type _ => "join_type"
  | models.kw_join_z _ => "join_z"
  | models.kw_threshold _ => "threshold"
  | models.kw_sparse _ => "sparse"
  | models.kw_log_alpha _ => "log_alpha"
  | models.kw_n_views _ => "n_views"
  | models.kw_other name => name
  end.

(** The parameters the two [__init__] declare; the joint class has
    [join_type] in addition.  Python binds a keyword of such a name to the
    parameter, so it never arrives in [**kwargs]. *)
Definition declared_parameters (joint : bool) : list string :=
  ["self"; "input_dims"; "z_dim"; "hidden_layer_dims"; "non_linear";
   "learning_rate"; "beta"; "threshold"; "SNP_model"]
  ++ (if joint then ["join_type"] else []).

(** The keyword arguments that can arrive in [**kwargs]. *)
Definition in_kwargs (joint : bool) (kwargs : list models.kwarg) : Prop :=
  Forall (fun kw => kwarg_name kw ∉ declared_parameters joint) kwargs.

(** The model with another [beta]. *)
Definition with_beta (b : R) (self : models.VAE) : models.VAE :=
  models.set_attr self (models.kw_beta b).

Definition dvcca_with_beta {Prior : Type} (b : R) (self : dvcca.DVCCA Prior)
  : dvcca.DVCCA Prior :=
  {| dvcca.input_dim := dvcca.input_dim self;
     dvcca.z_dim := dvcca.z_dim self;
     dvcca.n_views := dvcca.n_views self;
     dvcca.private := dvcca.private self;
     dvcca.sparse := dvcca.sparse self;
     dvcca.threshold := dvcca.threshold self;
     dvcca.beta := b;
     dvcca.learning_rate := dvcca.learning_rate self;
     dvcca.prior := dvcca.prior self;
     dvcca.log_alpha := dvcca.log_alpha self;
     dvcca.encoders := dvcca.encoders self;
     dvcca.private_encoders := dvcca.private_encoders self |}.

(** A batch fits a model when every index the loss reads exists. *)
Definition fits_vae (self : models.VAE) (x : list tensor)
           (fwd : models.vae.fwd_rtn) : Prop :=
  (models.n_views self <= length x)%nat /\
  (models.n_views self <= length (models.vae.mu fwd))%nat /\
  (models.n_views self <= length (models.vae.logvar fwd))%nat /\
  forall i, (i < models.n_views self)%nat ->
    exists row, models.vae.x_recon fwd !! i = Some row /\
                (models.n_views self <= length row)%nat.

Definition fits_joint (self : models.VAE) (x : list tensor)
           (fwd : models.joint_vae.fwd_rtn) : Prop :=
  (models.n_views self <= length x)%nat /\
  (models.n_views self <= length (models.joint_vae.x_recon fwd))%nat.

Definition fits_dvcca {Prior : Type} (self : dvcca.DVCCA Prior)
           (x : list tensor) (fwd : dvcca.fwd_rtn Prior) : Prop :=
  (dvcca.n_views self <= length x)%nat /\
  ((if dvcca.private self then dvcca.n_views self else 1)
   <= length (dvcca.qz_x fwd))%nat /\
  forall i, (i < dvcca.n_views self)%nat ->
    exists row p, dvcca.px_zs fwd !! i = Some (p :: row).

(** Modelled from the spec: [compute_kl] of [utils/kl_utils.py] is not among
    the sources; this is the closed-form KL of a diagonal Gaussian against
    the standard normal, summed over the latent dimensions and averaged
    over the batch. *)
Definition gaussian_kl (mu logvar : tensor) : R :=
  mean0 (zip_with
           (fun m lv =>
              -0.5 * Rsum (zip_with (fun a b => 1 + b - a * a - exp b) m lv))
           mu logvar).

(** The helpers used to run the losses on concrete batches.  The examples
    run models built with [threshold = 0], which never call the sparse
    term; the spec gives no formula for it and it answers [0] here. *)
Definition example_kl_utils : kl_utils :=
  {| compute_kl := gaussian_kl; compute_kl_sparse := fun _ _ => 0 |}.

(** [Normal(loc, 1).log_prob(x)], entry by entry, for a value [x] of the
    shape of [loc]. *)
Definition unit_normal (loc : tensor) : Distribution :=
  {| loc_ := loc;
     log_prob := fun x =>
       zip_with (zip_with (fun m v => - ((v - m) * (v - m)) / 2
                                      - ln (sqrt (2 * PI))))
                loc x |}.

(** The same density as a likelihood object of DVCCA, and a posterior
    object whose KL against the prior is one fixed tensor. *)
Definition unit_likelihood (loc : tensor) : dvcca.Likelihood :=
  {| dvcca.log_likelihood := log_prob (unit_normal loc) |}.

Definition posterior_with_kl (kl : tensor) : dvcca.Posterior unit :=
  {| dvcca.kl_divergence := fun _ => kl;
     dvcca.sparse_kl_divergence := kl |}.

(** A DVCCA model of two views without private encoders, not sparse. *)
Definition example_dvcca : dvcca.DVCCA unit :=
  {| dvcca.input_dim := [10; 15]%nat;
     dvcca.z_dim := 2;
     dvcca.n_views := 2;
     dvcca.private := false;
     dvcca.sparse := false;
     dvcca.threshold := 0;
     dvcca.beta := 1;
     dvcca.learning_rate := 0.001;
     dvcca.prior := tt;
     dvcca.log_alpha := None;
     dvcca.encoders := [dvcca.mkEncoder 10 2 false None];
     dvcca.private_encoders := [] |}.

(** The sum of a non-empty list of tensors, with broadcasting. *)
Definition tensor_sum (ts : list tensor) : result tensor :=
  match ts with
  | [] => Raise RuntimeError
  | t :: rest =>
      foldl (fun acc t' => a ← acc; tensor_op Rplus a t') (Ok t) rest
  end.

(** Modelled from the spec: the fusion objects of [utils/calc_utils.py] are
    not among the sources.  Mean fusion is the elementwise mean of [mu]
    across the view axis, and the same for [logvar].  In the product of
    experts each view contributes the precision [1 / var]; the fused
    precision is their sum plus 1 for the unit-variance prior expert, the
    fused mean is the precision-weighted sum of the means divided by the
    fused precision, and the fused log-variance is minus the logarithm of
    the fused precision. *)
Definition MeanRepresentation_forward (mu logvar : list tensor)
  : result (tensor * tensor) :=
  m ← tensor_sum mu;
  lv ← tensor_sum logvar;
  Ok (tmap (fun v => v / INR (length mu)) m,
      tmap (fun v => v / INR (length logvar)) lv).

Definition ProductOfExperts_forward (mu logvar : list tensor)
  : result (tensor * tensor) :=
  let T := map (tmap (fun lv => / exp lv)) logvar in
  sumT ← tensor_sum T;
  let precision := tmap (fun t => t + 1) sumT in
  weighted ← mapM (fun mt : tensor * tensor => tensor_op Rmult mt.1 mt.2)
                  (zip mu T);
  sumW ← tensor_sum weighted;
  pd_mu ← tensor_op Rdiv sumW precision;
  Ok (pd_mu, tmap (fun p => - ln p) precision).

(** Networks to run the forward passes on concrete batches: every encoder
    returns its input as the mean with log-variance 0, every decoder the
    unit-variance normal around the latent. *)
Definition example_networks : networks :=
  {| encoder_forward := fun _ _ x => Ok (x, tmap (fun _ => 0) x);
     decoder_forward := fun _ _ z => Ok (unit_normal z);
     join_forward := fun j mu logvar =>
       match j with
       | MeanRepresentation => MeanRepresentation_forward mu logvar
       | ProductOfExperts => ProductOfExperts_forward mu logvar
       end |}.

(** For DVCCA, networks whose encoders have all weights 0: they return
    mean 0 and log-variance 0 whatever the input; the posterior reports
    the closed-form KL of a normal against the standard normal, entry by
    entry, and [_sample] returns the mean of such a posterior, a tensor of
    zeros, without reading the random source. *)
Definition example_dvcca_networks : dvcca_forward.networks unit :=
  {| dvcca_forward.encoder_forward := fun _ e x =>
       Ok (map (fun _ => repeat 0 (dvcca.enc_z_dim e)) x,
           map (fun _ => repeat 0 (dvcca.enc_z_dim e)) x);
     dvcca_forward.private_encoder_forward := fun _ e x =>
       Ok (map (fun _ => repeat 0 (dvcca.enc_z_dim e)) x,
           map (fun _ => repeat 0 (dvcca.enc_z_dim e)) x);
     dvcca_forward.decoder_forward := fun _ z => Ok (unit_likelihood z);
     dvcca_forward.enc_dist := fun loc scale =>
       posterior_with_kl
         (zip_with (zip_with (fun m s => - ln s + (s * s + m * m) / 2 - 1 / 2))
                   loc scale);
     dvcca_forward._sample := fun q _ pos =>
       (tmap (fun _ => 0) (dvcca.kl_divergence q tt), pos) |}.

(** A sparse DVCCA model of two views with private encoders, as
    [_setencoders] finds it. *)
Definition example_dvcca_private : dvcca.DVCCA unit :=
  {| dvcca.input_dim := [10; 15]%nat;
     dvcca.z_dim := 2;
     dvcca.n_views := 2;
     dvcca.private := true;
     dvcca.sparse := true;
     dvcca.threshold := 0.2;
     dvcca.beta := 1;
     dvcca.learning_rate := 0.001;
     dvcca.prior := tt;
     dvcca.log_alpha := None;
     dvcca.encoders := [];
     dvcca.private_encoders := [] |}.

(** The models the constructors return for [hidden_layer_dims=[]],
    [non_linear=False], [learning_rate=0.002], [SNP_model=False] and no
    keyword overrides, when every draw of the random source is [0]; [sp]
    tells whether the threshold differs from 0. *)
Definition example_joint (ids : list nat) (zd : nat) (b thr : R) (sp : bool)
  : models.VAE :=
  let la := if sp then Some (FloatTensor_normal_ (fun _ => 0) 0 zd)
            else None in
  {| models.model_type := if sp then "joint_sparse_VAE" else "joint_VAE";
     models.input_dims := ids;
     models.z_dim := zd;
     models.non_linear := false;
     models.beta := b;
     models.learning_rate := 0.002;
     models.SNP_model := false;
     models.joint_representation := true;
     models.join_type := Some "Mean";
     models.join_z := Some MeanRepresentation;
     models.threshold := thr;
     models.sparse := sp;
     models.log_alpha := la;
     models.n_views := length ids;
     models.encoders :=
       map (fun d => layers.mkEncoder d [zd] true false sp la) ids;
     models.decoders := map (fun d => layers.mkDecoder d [zd] true false) ids;
     models.optimizers :=
       map (fun i => mkAdam [Enc i; Dec i] 0.002) (range (length ids)) |}.

Definition example_vae (ids : list nat) (zd : nat) (b thr : R) (sp : bool)
  : models.VAE :=
  let la := if sp then Some (FloatTensor_normal_ (fun _ => 0) 0 zd)
            else None in
  {| models.model_type := if sp then "sparse_VAE" else "VAE";
     models.input_dims := ids;
     models.z_dim := zd;
     models.non_linear := false;
     models.beta := b;
     models.learning_rate := 0.002;
     models.SNP_model := false;
     models.joint_representation := false;
     models.join_type := None;
     models.join_z := None;
     models.threshold := thr;
     models.sparse := sp;
     models.log_alpha := la;
     models.n_views := length ids;
     models.encoders :=
       map (fun d => layers.mkEncoder d [zd] true false sp la) ids;
     models.decoders := map (fun d => layers.mkDecoder d [zd] true false) ids;
     models.optimizers :=
       map (fun i => mkAdam [Enc i; Dec i] 0.002) (range (length ids)) |}.

(** A joint sparse model of three latent dimensions with threshold 1
    whose gate stands at [log_alpha = [0, 17, 100]]. *)
Definition example_saturated : models.VAE :=
  with_log_alpha [0; 17; 100] (example_joint [10; 15]%nat 3 1 1 true).

(** ** Basic facts *)

Lemma Rltb_true a b : Rltb a b = true <-> a < b.
Proof. unfold Rltb. destruct (Rlt_dec a b); split; auto; discriminate. Qed.

Lemma Rltb_false a b : Rltb a b = false <-> b <= a.
Proof.
  unfold Rltb. destruct (Rlt_dec a b); split; auto; try discriminate; lra.
Qed.

Lemma dropout_rate_bounds la : 0 < dropout_rate la < 1.
Proof.
  unfold dropout_rate. pose proof (exp_pos la) as Hp.
  split.
  - apply Rdiv_lt_0_compat; lra.
  - apply (Rmult_lt_reg_r (exp la + 1)); [lra|].
    unfold Rdiv. rewrite Rmult_assoc, Rinv_l by lra. lra.
Qed.

(** ** Signs in float32 arithmetic *)

(** Rounding keeps the sign it is given. *)
Lemma binary_round_aux_sign s m e l :
  match SpecFloat.binary_round_aux 24 128 s m e l with
  | SpecFloat.S754_zero s' | SpecFloat.S754_infinity s'
  | SpecFloat.S754_finite s' _ _ => s' = s
  | SpecFloat.S754_nan => True
  end.
Proof.
  unfold SpecFloat.binary_round_aux.
  destruct (SpecFloat.shr_fexp 24 128 m e l) as [mrs' e'].
  destruct (SpecFloat.shr_fexp 24 128 _ e' _) as [mrs'' e''].
  destruct (SpecFloat.shr_m mrs''); [done| |done].
  destruct (Z.leb _ _); done.
Qed.

Lemma binary_round_aux_sign_off m e l :
  f32_sign_off (SpecFloat.binary_round_aux 24 128 false m e l) = true.
Proof.
  pose proof (binary_round_aux_sign false m e l) as Hs.
  destruct (SpecFloat.binary_round_aux 24 128 false m e l);
    cbn; try done; subst; done.
Qed.

Lemma f32_sign_off_nonneg x : f32_sign_off x = true -> f32_nonneg x = true.
Proof. destruct x; done. Qed.

(** Adding 1 to a number that is not negative gives a number whose sign
    bit is off, or [nan]. *)
Lemma f32_add_one_sign_off a :
  f32_nonneg a = true -> f32_sign_off (f32_add a f32_one) = true.
Proof.
  destruct a as [s|s| |s m e]; cbn; try done.
  destruct s; [done|]. intros _.
  unfold SpecFloat.binary_normalize, SpecFloat.cond_Zopp.
  set (ma := (SpecFloat.shl_align m e (Z.min e (-23))).1).
  set (mb := (SpecFloat.shl_align 8388608 (-23) (Z.min e (-23))).1).
  change (Z.pos ma + Z.pos mb)%Z with (Z.pos (ma + mb)).
  generalize (ma + mb)%positive. clear ma mb. intros mm.
  unfold SpecFloat.binary_round.
  destruct (SpecFloat.shl_align mm _ _) as [mz ez].
  apply binary_round_aux_sign_off.
Qed.

(** A number that is not negative, divided by one whose sign bit is off,
    is not negative. *)
Lemma f32_div_nonneg a b :
  f32_nonneg a = true -> f32_sign_off b = true ->
  f32_nonneg (f32_div a b) = true.
Proof.
  destruct a as [sa|sa| |sa ma ea], b as [sb|sb| |sb mb eb]; cbn;
    try done; try (destruct sa, sb; done).
  destruct sa, sb; try done. intros _ _. cbn [xorb].
  destruct (SpecFloat.SFdiv_core_binary 24 128 (Z.pos ma) ea (Z.pos mb) eb)
    as [[mz ez] lz].
  apply f32_sign_off_nonneg, binary_round_aux_sign_off.
Qed.

Lemma gate_nonneg `{torch} la : f32_nonneg (gate la) = true.
Proof.
  unfold gate. apply f32_div_nonneg; [apply torch_exp_nonneg|].
  apply f32_add_one_sign_off, torch_exp_nonneg.
Qed.

Lemma lookup_map {A B} (f : A -> B) (l : list A) (i : nat) :
  map f l !! i = f <$> (l !! i).
Proof. exact (list_lookup_fmap f l i). Qed.

Lemma map_gate `{torch} la :
  map (fun a => f32_div a (f32_add a f32_one)) (map torch_exp la)
  = map gate la.
Proof. rewrite map_map. reflexivity. Qed.

Lemma getitem_Ok {A} (l : list A) i a :
  getitem l i = Ok a <-> l !! i = Some a.
Proof.
  unfold getitem. destruct (l !! i); split; intros E; congruence.
Qed.

Lemma getitem_lt {A} (l : list A) i :
  (i < length l)%nat -> exists a, getitem l i = Ok a /\ l !! i = Some a.
Proof.
  intros Hi. destruct (lookup_lt_is_Some_2 l i Hi) as [a Ha].
  exists a. split; [apply getitem_Ok|]; done.
Qed.

(** ** [dropout] *)

Lemma dropout_sparse `{torch} self la :
  models.sparse self = true -> models.log_alpha self = Some la ->
  models.dropout self = Ok (map gate la).
Proof.
  intros Hs Hla. unfold models.dropout. rewrite Hs, Hla, map_gate. done.
Qed.

Lemma dropout_not_sparse `{torch} self :
  models.sparse self = false ->
  models.dropout self = Raise NotImplementedError.
Proof. intros Hs. unfold models.dropout. rewrite Hs. done. Qed.

Lemma dropout_Ok_inv `{torch} self d :
  models.dropout self = Ok d ->
  exists la, models.sparse self = true /\ models.log_alpha self = Some la
             /\ d = map gate la.
Proof.
  unfold models.dropout. destruct (models.sparse self); [|discriminate].
  destruct (models.log_alpha self) as [la|]; [|discriminate].
  rewrite map_gate. intros [= <-]. eauto.
Qed.

(** ** The result monad *)

Lemma bind_Ok_inv {A B} (r : result A) (k : A -> result B) b :
  (r ≫= k) = Ok b -> exists a, r = Ok a /\ k a = Ok b.
Proof. destruct r as [a|e]; [eauto|discriminate]. Qed.

Lemma mapM_Ok {A B} (f : A -> result B) (g : A -> B) (l : list A) :
  (forall a, a ∈ l -> f a = Ok (g a)) -> mapM f l = Ok (map g l).
Proof.
  induction l as [|a l IH]; intros Hf; [done|].
  cbn. rewrite (Hf a) by left. cbn.
  rewrite IH by (intros; apply Hf; right; done). done.
Qed.

Lemma mapM_Ok_inv {A B} (f : A -> result B) (g : A -> B) (l : list A) l' :
  (forall a b, f a = Ok b -> b = g a) -> mapM f l = Ok l' -> l' = map g l.
Proof.
  intros Hf. revert l'. induction l as [|a l IH]; intros l'; cbn.
  - intros [= <-]. done.
  - intros E. apply bind_Ok_inv in E as (b & Eb & E).
    apply bind_Ok_inv in E as (bs & Ebs & E).
    injection E as <-. rewrite (Hf _ _ Eb), (IH _ Ebs). done.
Qed.

Lemma elem_of_range i n : i ∈ range n <-> (i < n)%nat.
Proof. unfold range. rewrite elem_of_seq. lia. Qed.

Lemma FloatTensor_normal__length noise pos n :
  length (FloatTensor_normal_ noise pos n) = n.
Proof.
  unfold FloatTensor_normal_, draw. rewrite length_map, length_seq. done.
Qed.

(** ** The constructors *)

Lemma build_optimizers_inv self os :
  models.build_optimizers self = Ok os ->
  os = map (fun i => mkAdam [Enc i; Dec i] (models.learning_rate self))
           (range (models.n_views self)).
Proof.
  apply mapM_Ok_inv. intros i o E.
  apply bind_Ok_inv in E as (? & _ & E).
  apply bind_Ok_inv in E as (? & _ & E).
  congruence.
Qed.

Lemma build_optimizers_Ok self :
  (models.n_views self <= length (models.encoders self))%nat ->
  (models.n_views self <= length (models.decoders self))%nat ->
  models.build_optimizers self
  = Ok (map (fun i => mkAdam [Enc i; Dec i] (models.learning_rate self))
            (range (models.n_views self))).
Proof.
  intros He Hd. apply mapM_Ok. intros i Hi%elem_of_range.
  destruct (getitem_lt (models.encoders self) i) as (? & -> & _); [lia|].
  destruct (getitem_lt (models.decoders self) i) as (? & -> & _); [lia|].
  done.
Qed.

Lemma set_optimizers_attrs self os :
  models.optimizers (models.set_optimizers self os) = os /\
  models.n_views (models.set_optimizers self os) = models.n_views self /\
  models.learning_rate (models.set_optimizers self os)
  = models.learning_rate self /\
  models.sparse (models.set_optimizers self os) = models.sparse self /\
  models.threshold (models.set_optimizers self os) = models.threshold self /\
  models.log_alpha (models.set_optimizers self os) = models.log_alpha self /\
  models.beta (models.set_optimizers self os) = models.beta self /\
  models.joint_representation (models.set_optimizers self os)
  = models.joint_representation self.
Proof. destruct self. cbn. repeat split. Qed.

Lemma vae_init_optimizers noise ids zd hid nl lr b thr snp kwargs self :
  models.vae.__init__ noise ids zd hid nl lr b thr snp kwargs = Ok self ->
  models.optimizers self
  = map (fun i => mkAdam [Enc i; Dec i] (models.learning_rate self))
        (range (models.n_views self)).
Proof.
  unfold models.vae.__init__. intros E.
  apply bind_Ok_inv in E as (os & Eos & E). injection E as <-.
  apply build_optimizers_inv in Eos.
  match goal with
  | |- context [models.set_optimizers ?s os] =>
      destruct (set_optimizers_attrs s os) as (-> & -> & -> & _)
  end.
  exact Eos.
Qed.

Lemma joint_init_optimizers noise ids zd hid nl lr b thr snp jt kwargs self :
  (models.joint_vae.__init__ noise ids zd hid nl lr b thr snp jt kwargs).2
  = Ok self ->
  models.optimizers self
  = map (fun i => mkAdam [Enc i; Dec i] (models.learning_rate self))
        (range (models.n_views self)).
Proof.
  unfold models.joint_vae.__init__.
  destruct (if String.eqb jt "PoE" then _ else _) as [jz|]; [|discriminate].
  cbn [snd]. intros E.
  apply bind_Ok_inv in E as (os & Eos & E). injection E as <-.
  apply build_optimizers_inv in Eos.
  match goal with
  | |- context [models.set_optimizers ?s os] =>
      destruct (set_optimizers_attrs s os) as (-> & -> & -> & _)
  end.
  exact Eos.
Qed.

(** Without keyword overrides the constructors go through. *)
Lemma vae_init_Ok noise ids zd hid nl lr b thr snp :
  exists self,
    models.vae.__init__ noise ids zd hid nl lr b thr snp [] = Ok self /\
    models.n_views self = length ids /\
    models.learning_rate self = lr /\
    models.beta self = b /\
    models.threshold self = thr /\
    models.joint_representation self = false /\
    models.sparse self = (if Req_dec_T thr 0 then false else true) /\
    models.log_alpha self
    = (if Req_dec_T thr 0 then None
       else Some (FloatTensor_normal_ noise 0 zd)).
Proof.
  unfold models.vae.__init__. cbn [models.update foldl].
  match goal with
  | |- context [models.build_optimizers ?s] =>
      rewrite (build_optimizers_Ok s)
  end.
  - eexists. split; [reflexivity|].
    cbn. destruct (Req_dec_T thr 0); repeat split.
  - cbn. rewrite length_map. done.
  - cbn. rewrite length_map. done.
Qed.

Lemma joint_init_Ok noise ids zd hid nl lr b thr snp jt :
  jt = "PoE" \/ jt = "Mean" ->
  exists self,
    models.joint_vae.__init__ noise ids zd hid nl lr b thr snp jt []
    = ([], Ok self) /\
    models.n_views self = length ids /\
    models.learning_rate self = lr /\
    models.beta self = b /\
    models.threshold self = thr /\
    models.joint_representation self = true /\
    models.sparse self = (if Req_dec_T thr 0 then false else true) /\
    models.log_alpha self
    = (if Req_dec_T thr 0 then None
       else Some (FloatTensor_normal_ noise 0 zd)).
Proof.
  intros Hjt. unfold models.joint_vae.__init__.
  assert (exists jz, (if String.eqb jt "PoE" then Some ProductOfExperts
                      else if String.eqb jt "Mean"
                           then Some MeanRepresentation else None)
                     = Some jz) as [jz ->].
  { destruct Hjt as [-> | ->]; cbn; eauto. }
  cbn [models.update foldl].
  match goal with
  | |- context [models.build_optimizers ?s] =>
      rewrite (build_optimizers_Ok s)
  end.
  - eexists. split; [reflexivity|].
    cbn. destruct (Req_dec_T thr 0); repeat split.
  - cbn. rewrite length_map. done.
  - cbn. rewrite length_map. done.
Qed.

(** C8, as the code has it.  The joint model does not build parameter
    groups spanning all views: both constructors build one Adam optimiser
    per view, the [i]-th covering the parameters of encoder [i] and decoder
    [i] and nothing else; without keyword overrides both constructors
    succeed and build one optimiser for each entry of [input_dims]. *)
Theorem optimizers_one_per_view :
  (forall noise ids zd hid nl lr b thr snp kwargs self,
     models.vae.__init__ noise ids zd hid nl lr b thr snp kwargs = Ok self ->
     models.optimizers self
     = map (fun i => mkAdam [Enc i; Dec i] (models.learning_rate self))
           (range (models.n_views self))) /\
  (forall noise ids zd hid nl lr b thr snp jt kwargs self,
     (models.joint_vae.__init__ noise ids zd hid nl lr b thr snp jt kwargs).2
     = Ok self ->
     models.optimizers self
     = map (fun i => mkAdam [Enc i; Dec i] (models.learning_rate self))
           (range (models.n_views self))) /\
  (forall noise ids zd hid nl lr b thr snp,
     exists self,
       models.vae.__init__ noise ids zd hid nl lr b thr snp [] = Ok self /\
       models.optimizers self
       = map (fun i => mkAdam [Enc i; Dec i] lr) (range (length ids))) /\
  (forall noise ids zd hid nl lr b thr snp jt,
     jt = "PoE" \/ jt = "Mean" ->
     exists self,
       (models.joint_vae.__init__ noise ids zd hid nl lr b thr snp jt []).2
       = Ok self /\
       models.optimizers self
       = map (fun i => mkAdam [Enc i; Dec i] lr) (range (length ids))).
Proof.
  split; [|split; [|split]].
  - intros *. apply vae_init_optimizers.
  - intros *. apply joint_init_optimizers.
  - intros noise ids zd hid nl lr b thr snp.
    destruct (vae_init_Ok noise ids zd hid nl lr b thr snp)
      as (self & E & Hn & Hlr & _).
    exists self. split; [done|].
    rewrite (vae_init_optimizers _ _ _ _ _ _ _ _ _ _ _ E), Hn, Hlr. done.
  - intros noise ids zd hid nl lr b thr snp jt Hjt.
    destruct (joint_init_Ok noise ids zd hid nl lr b thr snp jt Hjt)
      as (self & E & Hn & Hlr & _).
    exists self. rewrite E. split; [done|].
    rewrite (joint_init_optimizers noise ids zd hid nl lr b thr snp jt []
               self), Hn, Hlr; [done|].
    rewrite E. done.
Qed.

Lemma optimizers_one_per_view_witness :
  exists self,
    (models.joint_vae.__init__ (fun _ => 0) [10; 15]%nat 3 [] false
       0.002 1 0 false "PoE" []).2 = Ok self /\
    models.optimizers self
    = map (fun i => mkAdam [Enc i; Dec i] 0.002) (range 2).
Proof.
  apply (proj2 (proj2 (proj2 optimizers_one_per_view))
           (fun _ => 0) [10; 15]%nat 3%nat [] false 0.002 1 0 false "PoE").
  left. reflexivity.
Defined.

(** C8, as the claim has it: a joint model of two views would have an
    optimiser whose parameters span both views.  It has none: its
    optimisers are those of the per-view model built from the same
    arguments. *)
Lemma joint_optimizers_do_not_span_views :
  match (models.joint_vae.__init__ (fun _ => 0) [10; 15]%nat 3 [] false
           0.002 1 0 false "PoE" []).2 with
  | Ok self =>
      models.n_views self = 2%nat /\
      models.optimizers self
      = [mkAdam [Enc 0; Dec 0] 0.002; mkAdam [Enc 1; Dec 1] 0.002] /\
      Ok (models.optimizers self)
      = (self' ← models.vae.__init__ (fun _ => 0) [10; 15]%nat 3 [] false
                   0.002 1 0 false [];
         Ok (models.optimizers self')) /\
      ~ exists o, o ∈ models.optimizers self /\
                  forall i, (i < models.n_views self)%nat ->
                            Enc i ∈ param_groups o /\ Dec i ∈ param_groups o
  | Raise _ => False
  end.
Proof.
  cbn. split; [done|]. split; [done|]. split; [done|].
  intros (o & Ho & Hall).
  apply elem_of_cons in Ho as [-> | Ho].
  - destruct (Hall 1%nat) as [H1 _]; [lia|]. cbn in H1.
    repeat (apply elem_of_cons in H1 as [H1 | H1]; [discriminate|]).
    apply elem_of_nil in H1. done.
  - apply elem_of_cons in Ho as [-> | Ho]; [|by apply elem_of_nil in Ho].
    destruct (Hall 0%nat) as [H0 _]; [lia|]. cbn in H0.
    repeat (apply elem_of_cons in H0 as [H0 | H0]; [discriminate|]).
    apply elem_of_nil in H0. done.
Qed.

(** ** The fusion strategy *)

(** C4.  Whatever the other arguments and keyword overrides are, a
    [join_type] other than ['PoE'] and ['Mean'] makes the joint constructor
    print "Incorrect join method" and leave through [exit()]: no model is
    returned and no strategy is chosen in its place. *)
Theorem joint_init_rejects_unknown_join_type
        noise ids zd hid nl lr b thr snp (jt : string) kwargs :
  jt <> "PoE" -> jt <> "Mean" ->
  models.joint_vae.__init__ noise ids zd hid nl lr b thr snp jt kwargs
  = (["Incorrect join method"], Raise SystemExit).
Proof.
  intros HP HM. unfold models.joint_vae.__init__.
  destruct (String.eqb_spec jt "PoE") as [E|_]; [done|].
  destruct (String.eqb_spec jt "Mean") as [E|_]; [done|].
  reflexivity.
Qed.

Lemma joint_init_rejects_unknown_join_type_witness :
  models.joint_vae.__init__ (fun _ => 0) [10; 15]%nat 3 [] false
    0.002 1 0 false "Sum" []
  = (["Incorrect join method"], Raise SystemExit).
Proof.
  apply joint_init_rejects_unknown_join_type; discriminate.
Defined.

(** The two accepted names select the two strategies. *)
Lemma joint_init_join_z noise ids zd hid nl lr b thr snp jt self :
  models.joint_vae.__init__ noise ids zd hid nl lr b thr snp jt []
  = ([], Ok self) ->
  (jt = "PoE" /\ models.join_z self = Some ProductOfExperts) \/
  (jt = "Mean" /\ models.join_z self = Some MeanRepresentation).
Proof.
  unfold models.joint_vae.__init__.
  destruct (String.eqb_spec jt "PoE") as [->|_].
  - cbn. intros E. injection E as E.
    apply bind_Ok_inv in E as (os & _ & E). injection E as <-.
    left. split; [done|]. cbn. done.
  - destruct (String.eqb_spec jt "Mean") as [->|_]; [|discriminate].
    cbn. intros E. injection E as E.
    apply bind_Ok_inv in E as (os & _ & E). injection E as <-.
    right. split; [done|]. cbn. done.
Qed.

Lemma init_sparsity noise ids zd hid nl lr b thr snp jt self :
  models.vae.__init__ noise ids zd hid nl lr b thr snp [] = Ok self \/
  models.joint_vae.__init__ noise ids zd hid nl lr b thr snp jt []
  = ([], Ok self) ->
  models.threshold self = thr /\
  models.sparse self = (if Req_dec_T thr 0 then false else true) /\
  models.log_alpha self
  = (if Req_dec_T thr 0 then None
     else Some (FloatTensor_normal_ noise 0 zd)).
Proof.
  intros [E|E].
  - destruct (vae_init_Ok noise ids zd hid nl lr b thr snp)
      as (self' & E' & _ & _ & _ & Hthr & _ & Hs & Hla).
    rewrite E in E'. injection E' as <-. done.
  - assert (jt = "PoE" \/ jt = "Mean") as Hjt.
    { destruct (joint_init_join_z _ _ _ _ _ _ _ _ _ _ _ E) as [[? _]|[? _]];
        auto. }
    destruct (joint_init_Ok noise ids zd hid nl lr b thr snp jt Hjt)
      as (self' & E' & _ & _ & _ & Hthr & _ & Hs & Hla).
    rewrite E in E'. injection E' as <-. done.
Qed.

(** ** [dropout] on constructed models *)

(** The example library functions at the arguments the examples use. *)
Lemma example_exp_0 : example_exp 0 = f32_one.
Proof.
  unfold example_exp.
  destruct (Rle_dec 89 0); [lra|]. destruct (Rle_dec 0 (-104)); [lra|].
  destruct (Req_dec_T 0 0); [done|lra].
Qed.

Lemma example_exp_17 :
  example_exp 17 = SpecFloat.S754_finite false 12077476 1.
Proof.
  unfold example_exp.
  destruct (Rle_dec 89 17); [lra|]. destruct (Rle_dec 17 (-104)); [lra|].
  destruct (Req_dec_T 17 0); [lra|]. destruct (Req_dec_T 17 17); [done|lra].
Qed.

Lemma example_exp_overflow x :
  89 <= x -> example_exp x = SpecFloat.S754_infinity false.
Proof. intros Hx. unfold example_exp. destruct (Rle_dec 89 x); done. Qed.

Lemma example_exp_underflow x :
  x <= -104 -> example_exp x = SpecFloat.S754_zero false.
Proof.
  intros Hx. unfold example_exp.
  destruct (Rle_dec 89 x); [lra|]. destruct (Rle_dec x (-104)); done.
Qed.

Lemma example_gate_0 :
  gate (H := example_torch) 0 = SpecFloat.S754_finite false 8388608 (-24).
Proof.
  unfold gate. cbn [torch_exp example_torch]. rewrite example_exp_0.
  reflexivity.
Qed.

Lemma example_gate_17 : gate (H := example_torch) 17 = f32_one.
Proof.
  unfold gate. cbn [torch_exp example_torch]. rewrite example_exp_17.
  reflexivity.
Qed.

Lemma example_gate_overflow x :
  89 <= x -> gate (H := example_torch) x = SpecFloat.S754_nan.
Proof.
  intros Hx. unfold gate. cbn [torch_exp example_torch].
  rewrite example_exp_overflow by done. reflexivity.
Qed.

Lemma example_gate_underflow x :
  x <= -104 -> gate (H := example_torch) x = SpecFloat.S754_zero false.
Proof.
  intros Hx. unfold gate. cbn [torch_exp example_torch].
  rewrite example_exp_underflow by done. reflexivity.
Qed.

Lemma F2R_half : F2R false 8388608 (-24) = 1 / 2.
Proof.
  unfold F2R. change (Z.pow_pos 2 24) with 16777216%Z. lra.
Qed.

Lemma F2R_one : F2R false 8388608 (-23) = 1.
Proof.
  unfold F2R. change (Z.pow_pos 2 23) with 8388608%Z. lra.
Qed.

Lemma example_keep_mask_half :
  keep_mask (H := example_torch) (1 / 2) [0; 0] = [false; false].
Proof.
  unfold keep_mask. cbn [map]. rewrite example_gate_0.
  cbn [lt_scalar example_torch example_lt_scalar]. rewrite F2R_half.
  rewrite (proj2 (Rltb_false _ _)) by lra. done.
Qed.

(** C6, as the code has it.  [dropout()] on a model whose sparsity is off
    raises [NotImplementedError] and so returns no value; on a sparse model
    it returns the float32 quotient
    [torch.exp(log_alpha) / (torch.exp(log_alpha) + 1)], one value per
    latent dimension, none of them negative.  A model built without
    keyword overrides is of the first kind when its threshold is 0 and of
    the second kind, with a gate of [z_dim] columns, otherwise. *)
Theorem dropout_spec `{torch} (self : models.VAE) :
  (models.sparse self = false ->
   models.dropout self = Raise NotImplementedError) /\
  (forall la,
     models.sparse self = true -> models.log_alpha self = Some la ->
     exists d,
       models.dropout self = Ok d /\
       d = map (fun a => f32_div (torch_exp a) (f32_add (torch_exp a) f32_one))
               la /\
       length d = length la /\
       Forall (fun p => f32_nonneg p = true) d) /\
  (forall noise ids zd hid nl lr b thr snp jt,
     models.vae.__init__ noise ids zd hid nl lr b thr snp [] = Ok self \/
     models.joint_vae.__init__ noise ids zd hid nl lr b thr snp jt []
     = ([], Ok self) ->
     (thr = 0 -> models.dropout self = Raise NotImplementedError) /\
     (thr <> 0 ->
      exists la,
        length la = zd /\
        models.dropout self
        = Ok (map (fun a => f32_div (torch_exp a)
                              (f32_add (torch_exp a) f32_one)) la))).
Proof.
  split; [apply dropout_not_sparse|]. split.
  - intros la Hs Hla. exists (map gate la).
    split; [apply dropout_sparse; done|]. split; [done|].
    split; [apply length_map|].
    apply Forall_map, Forall_forall. intros a _. apply gate_nonneg.
  - intros noise ids zd hid nl lr b thr snp jt E.
    apply init_sparsity in E as (_ & Hs & Hla).
    destruct (Req_dec_T thr 0) as [Hz|Hnz]; split; try done.
    + intros _. apply dropout_not_sparse, Hs.
    + intros _. eexists. split; [|apply dropout_sparse; done].
      apply FloatTensor_normal__length.
Qed.

Lemma dropout_spec_witness :
  models.dropout (example_joint [10; 15]%nat 2 1 0 false)
  = Raise NotImplementedError /\
  exists d,
    models.dropout (example_joint [10; 15]%nat 2 1 (1 / 2) true) = Ok d /\
    length d = 2%nat /\
    Forall (fun p => f32_nonneg p = true) d.
Proof.
  split.
  - exact (proj1 (dropout_spec (example_joint [10; 15]%nat 2 1 0 false))
             eq_refl).
  - destruct (proj1 (proj2 (dropout_spec
                              (example_joint [10; 15]%nat 2 1 (1 / 2) true)))
                [0; 0] eq_refl eq_refl) as (d & E & _ & Hl & Hb).
    exists d. exact (conj E (conj Hl Hb)).
Defined.

(** C6, as the claim has it: every value [dropout()] returns should lie
    strictly between 0 and 1.  On a sparse model whose gate stands at
    [log_alpha = [17, -200, 100]] the rates of the formula do, over the
    real numbers, but [dropout()] returns exactly 1, 0 and [nan]:
    [exp(17) + 1] rounds to [exp(17)], [exp(-200)] underflows to 0, and
    [exp(100)] overflows to [inf], which divided by [inf] is [nan]. *)
Lemma dropout_leaves_the_open_interval :
  Forall (fun a => 0 < dropout_rate a < 1) [17; -200; 100] /\
  models.dropout
    (with_log_alpha [17; -200; 100]
       (example_joint [10; 15]%nat 3 1 (1 / 2) true))
  = Ok [f32_one; SpecFloat.S754_zero false; SpecFloat.S754_nan] /\
  Forall (fun p => in_open_unit p = false)
         [f32_one; SpecFloat.S754_zero false; SpecFloat.S754_nan].
Proof.
  split; [|split].
  - repeat constructor; apply dropout_rate_bounds.
  - rewrite (dropout_sparse _ [17; -200; 100]) by reflexivity.
    cbn [map]. rewrite example_gate_17.
    rewrite (example_gate_underflow (-200)) by lra.
    rewrite (example_gate_overflow 100) by lra. reflexivity.
  - repeat constructor.
Qed.

(** ** Masking a tensor *)

Lemma mask_row_length keep row :
  length row = length keep -> length (mask_row keep row) = length row.
Proof. intros E. unfold mask_row. rewrite length_zip_with. lia. Qed.

Lemma mask_row_lookup keep row j (k : bool) v :
  keep !! j = Some k -> row !! j = Some v ->
  mask_row keep row !! j = Some (if k then v else 0).
Proof.
  intros Hk Hv. unfold mask_row. rewrite lookup_zip_with, Hk. cbn.
  rewrite Hv. done.
Qed.

Lemma mask_row_idemp keep row :
  mask_row keep (mask_row keep row) = mask_row keep row.
Proof.
  unfold mask_row. revert row.
  induction keep as [|k keep IH]; intros [|v row]; cbn; try done.
  rewrite IH. destruct k; done.
Qed.

Lemma width_mask keep t :
  width (length keep) t -> width (length keep) (map (mask_row keep) t).
Proof.
  unfold width. intros Hw. apply Forall_map.
  eapply Forall_impl; [exact Hw|]. cbn. intros row E.
  rewrite mask_row_length; done.
Qed.

Lemma setitem_zero_width keep t :
  width (length keep) t ->
  setitem_zero keep t = Ok (map (mask_row keep) t).
Proof.
  intros Hw. unfold setitem_zero.
  assert (forallb (fun row => Nat.eqb (length row) (length keep)) t = true)
    as Hall.
  { apply forallb_forall. intros row Hin.
    apply Nat.eqb_eq. unfold width in Hw. rewrite Forall_forall in Hw.
    apply Hw, list_elem_of_In, Hin. }
  destruct keep as [|k [|k' keep]].
  - rewrite Hall. done.
  - f_equal. unfold tmap, width in *. clear Hall.
    induction Hw as [|row t Hrow Hw IH]; [by destruct k|].
    destruct row as [|v [|? ?]]; try discriminate.
    destruct k; cbn in *; f_equal; done.
  - rewrite Hall. done.
Qed.

Lemma keep_mask_length `{torch} thr la :
  length (keep_mask thr la) = length la.
Proof. unfold keep_mask. rewrite !length_map. done. Qed.

Lemma keep_mask_lookup `{torch} thr la j a :
  la !! j = Some a ->
  keep_mask thr la !! j = Some (lt_scalar (gate a) thr).
Proof.
  intros Ha. unfold keep_mask. rewrite !lookup_map, Ha. done.
Qed.

Lemma same_shape_mask keep t :
  width (length keep) t -> same_shape t (map (mask_row keep) t).
Proof.
  unfold same_shape, width. intros Hw.
  induction Hw as [|row t Hrow Hw IH]; cbn; constructor; [|done].
  rewrite mask_row_length; done.
Qed.

Lemma thresholded_mask `{torch} thr la t :
  width (length la) t ->
  thresholded thr la t (map (mask_row (keep_mask thr la)) t).
Proof.
  intros Hw. split.
  - apply same_shape_mask. rewrite keep_mask_length. done.
  - intros i j v a Hv Ha. unfold entry in *.
    rewrite lookup_map.
    destruct (t !! i) as [row|]; [|discriminate]. cbn in *.
    rewrite (mask_row_lookup _ _ _ _ _ (keep_mask_lookup thr la j a Ha) Hv).
    done.
Qed.

Lemma setitem_zero_idemp keep t t' :
  setitem_zero keep t = Ok t' -> setitem_zero keep t' = Ok t'.
Proof.
  unfold setitem_zero.
  assert (forall ks,
            (if forallb (fun row => Nat.eqb (length row) (length ks)) t
             then Ok (map (mask_row ks) t) else Raise IndexError) = Ok t' ->
            (if forallb (fun row => Nat.eqb (length row) (length ks)) t'
             then Ok (map (mask_row ks) t') else Raise IndexError) = Ok t')
    as Hgen.
  { intros ks.
    destruct (forallb _ t) eqn:Hall; [|discriminate]. intros [= <-].
    assert (width (length ks) t) as Hw.
    { unfold width. apply Forall_forall. intros row Hin.
      rewrite forallb_forall in Hall.
      apply Nat.eqb_eq, Hall, list_elem_of_In, Hin. }
    assert (forallb (fun row => Nat.eqb (length row) (length ks))
                    (map (mask_row ks) t) = true) as ->.
    { apply forallb_forall. intros row Hin%list_elem_of_In.
      apply Nat.eqb_eq. pose proof (width_mask ks t Hw) as Hw'.
      unfold width in Hw'. rewrite Forall_forall in Hw'. apply Hw', Hin. }
    f_equal. rewrite map_map. apply map_ext. intros row.
    apply mask_row_idemp. }
  destruct keep as [|k [|k' keep]]; [apply Hgen| |apply Hgen].
  destruct k; cbn; intros [= <-]; [done|].
  f_equal. unfold tmap. rewrite map_map. apply map_ext. intros row.
  rewrite map_map. done.
Qed.

(** ** [apply_threshold] on the heap *)

Lemma zero_columns_inv keep l h u h' :
  models.zero_columns keep l h = (Ok u, h') ->
  exists t t', h !! l = Some (OTensor t) /\ setitem_zero keep t = Ok t' /\
               h' = <[l := OTensor t']> h.
Proof.
  unfold models.zero_columns.
  destruct (h !! l) as [[t|items]|] eqn:Hl; try discriminate.
  destruct (setitem_zero keep t) as [t'|e] eqn:Hz; [|discriminate].
  intros [= _ <-]. eauto.
Qed.

Lemma zero_columns_width keep l h t :
  h !! l = Some (OTensor t) -> width (length keep) t ->
  models.zero_columns keep l h
  = (Ok (), <[l := OTensor (map (mask_row keep) t)]> h).
Proof.
  intros Hl Hw. unfold models.zero_columns.
  rewrite Hl, setitem_zero_width; done.
Qed.

Lemma zero_each_inv keep items : forall h u h',
  models.zero_each keep items h = (Ok u, h') ->
  dom h' = dom h /\
  (forall l, l ∉ items -> h' !! l = h !! l) /\
  (forall l, l ∈ items ->
     exists t t', h !! l = Some (OTensor t) /\ setitem_zero keep t = Ok t' /\
                  h' !! l = Some (OTensor t')).
Proof.
  induction items as [|l0 rest IH]; intros h u h'; cbn.
  - intros [= _ <-]. split; [done|]. split; [done|].
    intros l Hl. by apply elem_of_nil in Hl.
  - destruct (models.zero_columns keep l0 h) as [[[]|e] h1] eqn:E0;
      [|discriminate].
    apply zero_columns_inv in E0 as (t0 & t0' & Hl0 & Hz0 & ->).
    intros E. apply IH in E as (Hdom & Hout & Hin).
    split; [|split].
    + rewrite Hdom, dom_insert_L.
      apply elem_of_dom_2 in Hl0.
      apply subseteq_union_1_L, singleton_subseteq_l, Hl0.
    + intros l Hl. apply not_elem_of_cons in Hl as [Hne Hl].
      rewrite (Hout l Hl), lookup_insert_ne; done.
    + intros l Hl. destruct (decide (l ∈ rest)) as [Hr|Hr].
      * destruct (Hin l Hr) as (t & t' & Ht & Hz & Ht').
        destruct (decide (l = l0)) as [->|Hne].
        -- rewrite lookup_insert_eq in Ht. injection Ht as <-.
           rewrite (setitem_zero_idemp _ _ _ Hz0) in Hz. injection Hz as <-.
           eauto.
        -- rewrite lookup_insert_ne in Ht by done. eauto.
      * apply elem_of_cons in Hl as [->|Hl]; [|done].
        exists t0, t0'. rewrite (Hout l0 Hr), lookup_insert_eq. done.
Qed.

Lemma zero_each_width keep items : forall h,
  (forall l, l ∈ items ->
     exists t, h !! l = Some (OTensor t) /\ width (length keep) t) ->
  exists h', models.zero_each keep items h = (Ok (), h').
Proof.
  induction items as [|l0 rest IH]; intros h Hall; cbn; [eauto|].
  destruct (Hall l0) as (t0 & Hl0 & Hw0); [left|].
  rewrite (zero_columns_width _ _ _ _ Hl0 Hw0).
  apply IH. intros l Hl.
  destruct (decide (l = l0)) as [->|Hne].
  - rewrite lookup_insert_eq. eexists. split; [done|].
    apply width_mask, Hw0.
  - rewrite lookup_insert_ne by done. apply Hall. right. done.
Qed.

Lemma apply_threshold_sparse `{torch} self la z h :
  models.sparse self = true -> models.log_alpha self = Some la ->
  models.threshold self <= 1 ->
  models.apply_threshold self z h
  = let keep := keep_mask (models.threshold self) la in
    if models.joint_representation self then
      match models.zero_columns keep z h with
      | (Ok _, h') => (Ok z, h')
      | (Raise e, h') => (Raise e, h')
      end
    else
      match h !! z with
      | Some (OList items) =>
          match models.zero_each keep items h with
          | (Ok _, h') => (Ok z, h')
          | (Raise e, h') => (Raise e, h')
          end
      | Some (OTensor []) => (Ok z, h)
      | Some (OTensor (row :: t)) =>
          match keep with
          | [k] =>
              (Ok z,
               <[z := OTensor (if negb k
                               then tmap (fun _ => 0) (row :: t)
                               else row :: t)]> h)
          | _ => (Raise IndexError, h)
          end
      | None => (Raise TypeError, h)
      end.
Proof.
  intros Hs Hla Hthr. unfold models.apply_threshold.
  destruct (Rle_dec (models.threshold self) 1); [|done].
  rewrite (dropout_sparse self la Hs Hla). reflexivity.
Qed.

(** What a call that passes the assertion does to a latent of the gate's
    width: the single tensor, or every tensor of the list, is replaced by
    its masked version. *)
Lemma apply_threshold_masks `{torch} self la z h :
  models.sparse self = true -> models.log_alpha self = Some la ->
  models.threshold self <= 1 ->
  let mask := map (mask_row (keep_mask (models.threshold self) la)) in
  (forall t,
     models.joint_representation self = true ->
     h !! z = Some (OTensor t) -> width (length la) t ->
     models.apply_threshold self z h = (Ok z, <[z := OTensor (mask t)]> h)) /\
  (forall items,
     models.joint_representation self = false ->
     h !! z = Some (OList items) ->
     (forall l, l ∈ items ->
        exists t, h !! l = Some (OTensor t) /\ width (length la) t) ->
     exists h',
       models.apply_threshold self z h = (Ok z, h') /\
       (forall l t, l ∈ items -> h !! l = Some (OTensor t) ->
                    h' !! l = Some (OTensor (mask t))) /\
       (forall l, l ∉ items -> h' !! l = h !! l)).
Proof.
  intros Hs Hla Hle mask. split.
  - intros t Hj Hz Hw.
    rewrite (apply_threshold_sparse self la z h Hs Hla Hle). cbn zeta.
    rewrite Hj, (zero_columns_width _ _ _ t Hz)
      by (rewrite keep_mask_length; done).
    reflexivity.
  - intros items Hj Hz Hall.
    rewrite (apply_threshold_sparse self la z h Hs Hla Hle). cbn zeta.
    rewrite Hj, Hz.
    destruct (zero_each_width (keep_mask (models.threshold self) la) items h)
      as [h' E].
    { intros l Hl. destruct (Hall l Hl) as (t & Ht & Hw).
      exists t. rewrite keep_mask_length. done. }
    rewrite E. exists h'. split; [done|].
    apply zero_each_inv in E as (_ & Hout & Hin).
    split; [|exact Hout].
    intros l t Hl Ht.
    destruct (Hin l Hl) as (t0 & t' & Ht0 & Hz0 & Ht').
    rewrite Ht in Ht0. injection Ht0 as <-.
    destruct (Hall l Hl) as (t1 & Ht1 & Hw).
    rewrite Ht in Ht1. injection Ht1 as <-.
    rewrite setitem_zero_width in Hz0 by (rewrite keep_mask_length; done).
    injection Hz0 as <-. exact Ht'.
Qed.

(** C2, as the code has it.  On a sparse model whose threshold lies in
    (0, 1], [apply_threshold] succeeds on a latent of the gate's width and
    zeroes exactly the latent dimensions for which the comparison
    [dropout()[j] < threshold] is false, the other entries keeping their
    values; the choice depends on the column only, so every sample of the
    batch is masked alike.  A dimension whose computed rate is [nan] is
    among the zeroed ones.  This holds for the single tensor of a joint
    model and for each tensor of the list of a per-view model, and nothing
    else on the heap changes. *)
Theorem apply_threshold_zeroes `{torch} (self : models.VAE) (la : list R)
        (z : loc) (h : heap) :
  models.sparse self = true -> models.log_alpha self = Some la ->
  0 < models.threshold self <= 1 ->
  (forall t,
     models.joint_representation self = true ->
     h !! z = Some (OTensor t) -> width (length la) t ->
     exists t',
       models.apply_threshold self z h = (Ok z, <[z := OTensor t']> h) /\
       thresholded (models.threshold self) la t t' /\
       (forall i j v a,
          entry t i j = Some v -> la !! j = Some a ->
          gate a = SpecFloat.S754_nan -> entry t' i j = Some 0)) /\
  (forall items,
     models.joint_representation self = false ->
     h !! z = Some (OList items) ->
     (forall l, l ∈ items ->
        exists t, h !! l = Some (OTensor t) /\ width (length la) t) ->
     exists h',
       models.apply_threshold self z h = (Ok z, h') /\
       (forall l t, l ∈ items -> h !! l = Some (OTensor t) ->
          exists t', h' !! l = Some (OTensor t') /\
                     thresholded (models.threshold self) la t t' /\
                     (forall i j v a,
                        entry t i j = Some v -> la !! j = Some a ->
                        gate a = SpecFloat.S754_nan ->
                        entry t' i j = Some 0)) /\
       (forall l, l ∉ items -> h' !! l = h !! l)).
Proof.
  intros Hs Hla [Hpos Hle].
  destruct (apply_threshold_masks self la z h Hs Hla Hle) as [HJ HL].
  assert (forall t t',
            thresholded (models.threshold self) la t t' ->
            forall i j v a,
              entry t i j = Some v -> la !! j = Some a ->
              gate a = SpecFloat.S754_nan -> entry t' i j = Some 0) as Hnan.
  { intros t t' [_ Ht] i j v a Hv Ha Hg.
    rewrite (Ht i j v a Hv Ha), Hg, lt_scalar_nan. done. }
  split.
  - intros t Hj Hz Hw. eexists. split; [apply HJ; done|].
    split; [apply thresholded_mask, Hw|].
    eapply Hnan, thresholded_mask, Hw.
  - intros items Hj Hz Hall.
    destruct (HL items Hj Hz Hall) as (h' & E & Hin & Hout).
    exists h'. split; [done|]. split; [|done].
    intros l t Hl Ht. eexists. split; [apply Hin; done|].
    destruct (Hall l Hl) as (t1 & Ht1 & Hw).
    rewrite Ht in Ht1. injection Ht1 as <-.
    split; [apply thresholded_mask, Hw|].
    eapply Hnan, thresholded_mask, Hw.
Qed.

(** The example models are what the constructors return. *)
Lemma example_joint_init ids zd b thr :
  models.joint_vae.__init__ (fun _ => 0) ids zd [] false 0.002 b thr false
    "Mean" []
  = ([], Ok (example_joint ids zd b thr
               (if Req_dec_T thr 0 then false else true))).
Proof.
  unfold models.joint_vae.__init__.
  cbn [String.eqb Ascii.eqb Bool.eqb models.update foldl].
  match goal with
  | |- context [models.build_optimizers ?s] =>
      rewrite (build_optimizers_Ok s) by (cbn; rewrite length_map; done)
  end.
  destruct (Req_dec_T thr 0); reflexivity.
Qed.

Lemma example_vae_init ids zd b thr :
  models.vae.__init__ (fun _ => 0) ids zd [] false 0.002 b thr false []
  = Ok (example_vae ids zd b thr (if Req_dec_T thr 0 then false else true)).
Proof.
  unfold models.vae.__init__. cbn [models.update foldl].
  match goal with
  | |- context [models.build_optimizers ?s] =>
      rewrite (build_optimizers_Ok s) by (cbn; rewrite length_map; done)
  end.
  destruct (Req_dec_T thr 0); reflexivity.
Qed.

(** Threshold 1/2 and two latent dimensions whose gates both stand at
    1/2: the call returns on a joint latent of two samples and on a
    per-view latent of two tensors. *)
Lemma apply_threshold_zeroes_witness :
  (exists t',
     models.apply_threshold (example_joint [10; 15]%nat 2 1 (1 / 2) true)
       1%positive {[ 1%positive := OTensor [[3; 4]; [5; 6]] ]}
     = (Ok 1%positive,
        <[1%positive := OTensor t']>
          {[ 1%positive := OTensor [[3; 4]; [5; 6]] ]})
     /\ thresholded (1 / 2) [0; 0] [[3; 4]; [5; 6]] t') /\
  (exists h',
     models.apply_threshold (example_vae [10; 15]%nat 2 1 (1 / 2) true)
       1%positive
       {[ 1%positive := OList [2%positive; 3%positive];
          2%positive := OTensor [[3; 4]];
          3%positive := OTensor [[5; 6]] ]}
     = (Ok 1%positive, h') /\
     h' !! 1%positive = Some (OList [2%positive; 3%positive])).
Proof.
  split.
  - destruct (proj1 (apply_threshold_zeroes
                       (example_joint [10; 15]%nat 2 1 (1 / 2) true) [0; 0]
                       1%positive
                       {[ 1%positive := OTensor [[3; 4]; [5; 6]] ]}
                       eq_refl eq_refl ltac:(cbn; lra))
                [[3; 4]; [5; 6]] eq_refl) as (t' & E & Ht & _).
    + apply lookup_singleton_eq.
    + repeat constructor.
    + exists t'. exact (conj E Ht).
  - destruct (proj2 (apply_threshold_zeroes
                       (example_vae [10; 15]%nat 2 1 (1 / 2) true) [0; 0]
                       1%positive
                       {[ 1%positive := OList [2%positive; 3%positive];
                          2%positive := OTensor [[3; 4]];
                          3%positive := OTensor [[5; 6]] ]}
                       eq_refl eq_refl ltac:(cbn; lra))
                [2%positive; 3%positive] eq_refl eq_refl)
      as (h' & E & _ & Hout).
    + intros l Hl.
      apply elem_of_cons in Hl as [->|Hl];
        [exists [[3; 4]]; split; [reflexivity|repeat constructor]|].
      apply elem_of_cons in Hl as [->|Hl];
        [exists [[5; 6]]; split; [reflexivity|repeat constructor]|].
      apply elem_of_nil in Hl. destruct Hl.
    + exists h'. split; [exact E|].
      rewrite Hout; [reflexivity|].
      intros Hl. apply elem_of_cons in Hl as [Hl|Hl]; [discriminate|].
      apply elem_of_cons in Hl as [Hl|Hl]; [discriminate|].
      apply elem_of_nil in Hl. destruct Hl.
Defined.

(** C2, as the claim has it: with threshold 1 no dimension whose rate
    [exp(log_alpha) / (exp(log_alpha) + 1)] is below 1 should be zeroed,
    and a zeroed dimension should have a rate that is at least the
    threshold.  On a model whose gate stands at [log_alpha = [0, 17, 100]]
    all three rates of the formula are below 1, but [dropout()] returns
    1/2, exactly 1 and [nan].  The second and the third dimension are
    zeroed, and the rate of the third, [nan], is not at least the
    threshold. *)
Lemma threshold_one_zeroes_saturated_gates :
  models.sparse example_saturated = true /\
  0 < models.threshold example_saturated <= 1 /\
  Forall (fun a => dropout_rate a < 1) [0; 17; 100] /\
  models.dropout example_saturated
  = Ok [SpecFloat.S754_finite false 8388608 (-24); f32_one;
        SpecFloat.S754_nan] /\
  f32_le f32_one SpecFloat.S754_nan = false /\
  models.apply_threshold example_saturated 1%positive
    {[ 1%positive := OTensor [[3; 4; 5]; [6; 7; 8]] ]}
  = (Ok 1%positive,
     <[1%positive := OTensor [[3; 0; 0]; [6; 0; 0]]]>
       {[ 1%positive := OTensor [[3; 4; 5]; [6; 7; 8]] ]}).
Proof.
  assert (keep_mask (H := example_torch) 1 [0; 17; 100]
          = [true; false; false]) as Hkeep.
  { unfold keep_mask. cbn [map].
    rewrite example_gate_0, example_gate_17.
    rewrite (example_gate_overflow 100) by lra. unfold f32_one.
    cbn [lt_scalar example_torch example_lt_scalar].
    rewrite F2R_half, F2R_one.
    rewrite (proj2 (Rltb_true _ _)) by lra.
    rewrite (proj2 (Rltb_false _ _)) by lra. done. }
  split; [done|]. split; [cbn; lra|]. split.
  { repeat constructor; apply dropout_rate_bounds. }
  split.
  { rewrite (dropout_sparse _ [0; 17; 100]) by reflexivity.
    cbn [map]. rewrite example_gate_0, example_gate_17.
    rewrite (example_gate_overflow 100) by lra. reflexivity. }
  split; [reflexivity|].
  rewrite (proj1 (apply_threshold_masks example_saturated [0; 17; 100]
                    1%positive
                    {[ 1%positive := OTensor [[3; 4; 5]; [6; 7; 8]] ]}
                    eq_refl eq_refl ltac:(cbn; lra))
                 [[3; 4; 5]; [6; 7; 8]] eq_refl (lookup_singleton_eq _ _)
                 ltac:(repeat constructor)).
  change (models.threshold example_saturated) with 1.
  rewrite Hkeep. reflexivity.
Qed.

Lemma keep_mask_nonpos `{torch} thr la :
  thr <= 0 -> Forall (fun k => k = false) (keep_mask thr la).
Proof.
  intros Hthr. unfold keep_mask. apply Forall_map, Forall_map, Forall_forall.
  intros a _. cbn. apply lt_scalar_nonpos; [apply gate_nonneg|done].
Qed.

Lemma mask_row_all_false keep row :
  length row = length keep -> Forall (fun k => k = false) keep ->
  mask_row keep row = map (fun _ => 0) row.
Proof.
  unfold mask_row. revert row.
  induction keep as [|k keep IH]; intros [|v row]; cbn; try done.
  intros [= E] Hall. apply Forall_cons in Hall as [-> Hall].
  rewrite IH; done.
Qed.

Lemma mask_nonpos `{torch} thr la t :
  thr <= 0 -> width (length la) t ->
  map (mask_row (keep_mask thr la)) t = tmap (fun _ => 0) t.
Proof.
  intros Hthr Hw. unfold tmap, width in *.
  induction Hw as [|row t Hrow Hw IH]; [done|]. cbn. rewrite IH.
  rewrite mask_row_all_false; [done| |apply keep_mask_nonpos, Hthr].
  rewrite keep_mask_length. done.
Qed.

(** C5, as the code has it.  [apply_threshold] reads the model's own
    threshold.  A threshold above 1 fails the assertion and leaves the heap
    as it was; a model that is not sparse, as every model built with
    threshold 0 and no overrides is, fails in [dropout()] and leaves the
    heap as it was; a sparse model whose threshold is zero or negative is
    not rejected: the call succeeds and zeroes every entry of the latent. *)
Theorem apply_threshold_guard `{torch} (self : models.VAE) (z : loc)
        (h : heap) :
  (1 < models.threshold self ->
   models.apply_threshold self z h = (Raise AssertionError, h)) /\
  (models.threshold self <= 1 -> models.sparse self = false ->
   models.apply_threshold self z h = (Raise NotImplementedError, h)) /\
  (forall noise ids zd hid nl lr b snp jt,
     (models.vae.__init__ noise ids zd hid nl lr b 0 snp [] = Ok self \/
      models.joint_vae.__init__ noise ids zd hid nl lr b 0 snp jt []
      = ([], Ok self)) ->
     models.apply_threshold self z h = (Raise NotImplementedError, h)) /\
  (forall la,
     models.threshold self <= 0 ->
     models.sparse self = true -> models.log_alpha self = Some la ->
     (forall t,
        models.joint_representation self = true ->
        h !! z = Some (OTensor t) -> width (length la) t ->
        models.apply_threshold self z h
        = (Ok z, <[z := OTensor (tmap (fun _ => 0) t)]> h)) /\
     (forall items,
        models.joint_representation self = false ->
        h !! z = Some (OList items) ->
        (forall l, l ∈ items ->
           exists t, h !! l = Some (OTensor t) /\ width (length la) t) ->
        exists h',
          models.apply_threshold self z h = (Ok z, h') /\
          forall l t, l ∈ items -> h !! l = Some (OTensor t) ->
                      h' !! l = Some (OTensor (tmap (fun _ => 0) t)))).
Proof.
  assert (models.threshold self <= 1 -> models.sparse self = false ->
          models.apply_threshold self z h = (Raise NotImplementedError, h))
    as Hns.
  { intros Hle Hs. unfold models.apply_threshold.
    destruct (Rle_dec (models.threshold self) 1); [|done].
    rewrite (dropout_not_sparse self Hs). done. }
  split; [|split; [exact Hns|split]].
  - intros Hgt. unfold models.apply_threshold.
    destruct (Rle_dec (models.threshold self) 1); [lra|done].
  - intros noise ids zd hid nl lr b snp jt E.
    apply init_sparsity in E as (Hthr & Hs & _).
    destruct (Req_dec_T 0 0); [|done].
    apply Hns; [lra|done].
  - intros la Hthr Hs Hla.
    destruct (apply_threshold_masks self la z h Hs Hla) as [HJ HL]; [lra|].
    split.
    + intros t Hj Hz Hw. rewrite <- (mask_nonpos _ la t Hthr Hw).
      apply HJ; done.
    + intros items Hj Hz Hall.
      destruct (HL items Hj Hz Hall) as (h' & E & Hin & _).
      exists h'. split; [done|]. intros l t Hl Ht.
      destruct (Hall l Hl) as (t1 & Ht1 & Hw).
      rewrite Ht in Ht1. injection Ht1 as <-.
      rewrite <- (mask_nonpos _ la t Hthr Hw). apply Hin; done.
Qed.

Lemma apply_threshold_guard_witness :
  models.apply_threshold (example_joint [10; 15]%nat 2 1 2 true)
    1%positive {[ 1%positive := OTensor [[3; 4]; [5; 6]] ]}
  = (Raise AssertionError, {[ 1%positive := OTensor [[3; 4]; [5; 6]] ]}) /\
  models.apply_threshold (example_joint [10; 15]%nat 2 1 0 false)
    1%positive {[ 1%positive := OTensor [[3; 4]; [5; 6]] ]}
  = (Raise NotImplementedError,
     {[ 1%positive := OTensor [[3; 4]; [5; 6]] ]}) /\
  models.apply_threshold (example_joint [10; 15]%nat 2 1 (-1) true)
    1%positive {[ 1%positive := OTensor [[3; 4]; [5; 6]] ]}
  = (Ok 1%positive,
     <[1%positive := OTensor (tmap (fun _ => 0) [[3; 4]; [5; 6]])]>
       {[ 1%positive := OTensor [[3; 4]; [5; 6]] ]}).
Proof.
  split; [|split].
  - apply (proj1 (apply_threshold_guard
                    (example_joint [10; 15]%nat 2 1 2 true) 1%positive
                    {[ 1%positive := OTensor [[3; 4]; [5; 6]] ]})).
    cbn. lra.
  - apply (proj1 (proj2 (apply_threshold_guard
                           (example_joint [10; 15]%nat 2 1 0 false)
                           1%positive
                           {[ 1%positive := OTensor [[3; 4]; [5; 6]] ]})));
      [cbn; lra|reflexivity].
  - apply (proj1 (proj2 (proj2 (proj2
             (apply_threshold_guard
                (example_joint [10; 15]%nat 2 1 (-1) true) 1%positive
                {[ 1%positive := OTensor [[3; 4]; [5; 6]] ]})))
             [0; 0] ltac:(cbn; lra) eq_refl eq_refl) [[3; 4]; [5; 6]] eq_refl).
    + apply lookup_singleton_eq.
    + repeat constructor.
Defined.

(** C5, as the claim has it: a model built with threshold -1 should fail
    before any masking.  It is built, it is sparse, and the call succeeds
    and zeroes the whole latent. *)
Lemma negative_threshold_is_not_rejected :
  models.joint_vae.__init__ (fun _ => 0) [10; 15]%nat 2 [] false 0.002 1
    (-1) false "Mean" []
  = ([], Ok (example_joint [10; 15]%nat 2 1 (-1) true)) /\
  ~ (0 < models.threshold (example_joint [10; 15]%nat 2 1 (-1) true) <= 1) /\
  models.apply_threshold (example_joint [10; 15]%nat 2 1 (-1) true)
    1%positive {[ 1%positive := OTensor [[3; 4]; [5; 6]] ]}
  = (Ok 1%positive,
     <[1%positive := OTensor [[0; 0]; [0; 0]]]>
       {[ 1%positive := OTensor [[3; 4]; [5; 6]] ]}).
Proof.
  split; [|split].
  - rewrite example_joint_init. destruct (Req_dec_T (-1) 0); [lra|done].
  - cbn. lra.
  - rewrite (proj1 (apply_threshold_masks
                      (example_joint [10; 15]%nat 2 1 (-1) true) [0; 0]
                      1%positive {[ 1%positive := OTensor [[3; 4]; [5; 6]] ]}
                      eq_refl eq_refl ltac:(cbn; lra))
                   [[3; 4]; [5; 6]] eq_refl (lookup_singleton_eq _ _)
                   ltac:(repeat constructor)).
    cbn [models.threshold example_joint].
    rewrite (mask_nonpos (-1) [0; 0] [[3; 4]; [5; 6]])
      by (try lra; repeat constructor).
    reflexivity.
Qed.

(** C10.  A call of [apply_threshold] that returns hands back the very
    reference it was given, allocates nothing, and has written the masked
    values into the caller's own objects: the tensor at [z] for a joint
    model; for a per-view model the list at [z] is the same list of the same
    tensors, each of which now holds its masked values. *)
Theorem apply_threshold_in_place `{torch} (self : models.VAE) (z r : loc)
        (h h' : heap) :
  models.apply_threshold self z h = (Ok r, h') ->
  r = z /\ dom h' = dom h /\
  exists la,
    models.log_alpha self = Some la /\
    let keep := keep_mask (models.threshold self) la in
    (models.joint_representation self = true ->
     exists t t',
       h !! z = Some (OTensor t) /\ setitem_zero keep t = Ok t' /\
       h' = <[z := OTensor t']> h) /\
    (models.joint_representation self = false ->
     forall items,
       h !! z = Some (OList items) ->
       h' !! z = Some (OList items) /\
       (forall l, l ∈ items ->
          exists t t',
            h !! l = Some (OTensor t) /\ setitem_zero keep t = Ok t' /\
            h' !! l = Some (OTensor t')) /\
       (forall l, l ∉ items -> h' !! l = h !! l)).
Proof.
  unfold models.apply_threshold.
  destruct (Rle_dec (models.threshold self) 1) as [Hle|]; [|discriminate].
  destruct (models.dropout self) as [d|e] eqn:Hd; [|discriminate].
  apply dropout_Ok_inv in Hd as (la & Hs & Hla & ->).
  fold (keep_mask (models.threshold self) la).
  destruct (models.joint_representation self) eqn:Hj.
  - destruct (models.zero_columns _ z h) as [[[]|e] h1] eqn:E;
      [|discriminate].
    intros [= <- <-].
    apply zero_columns_inv in E as (t & t' & Hz & Hset & ->).
    split; [done|]. split.
    { rewrite dom_insert_L. apply elem_of_dom_2 in Hz.
      apply subseteq_union_1_L, singleton_subseteq_l, Hz. }
    exists la. split; [done|]. cbn zeta. split; [eauto|discriminate].
  - destruct (h !! z) as [[[|row t]|items]|] eqn:Hz; try discriminate.
    + intros [= <- <-]. split; [done|]. split; [done|].
      exists la. split; [done|]. cbn zeta. split; [discriminate|].
      intros _ items [=].
    + destruct (keep_mask (models.threshold self) la) as [|k [|k' ks]];
        try discriminate.
      intros [= <- <-]. split; [done|]. split.
      { rewrite dom_insert_L. apply elem_of_dom_2 in Hz.
        apply subseteq_union_1_L, singleton_subseteq_l, Hz. }
      exists la. split; [done|]. cbn zeta. split; [discriminate|].
      intros _ items [=].
    + destruct (models.zero_each _ items h) as [[[]|e] h1] eqn:E;
        [|discriminate].
      intros [= <- <-].
      apply zero_each_inv in E as (Hdom & Hout & Hin).
      split; [done|]. split; [done|].
      exists la. split; [done|]. cbn zeta. split; [discriminate|].
      intros _ items' [= <-].
      split; [|split; [exact Hin|exact Hout]].
      rewrite Hout; [done|].
      intros Hzin. destruct (Hin z Hzin) as (t & _ & Ht & _). congruence.
Qed.

(** A per-view latent whose two entries are one and the same tensor: the
    call returns the list it was given and the shared tensor is zeroed. *)
Lemma apply_threshold_in_place_witness :
  models.apply_threshold (example_vae [10; 15]%nat 2 1 (1 / 2) true)
    1%positive
    {[ 1%positive := OList [2%positive; 2%positive];
       2%positive := OTensor [[3; 4]] ]}
  = (Ok 1%positive,
     {[ 1%positive := OList [2%positive; 2%positive];
        2%positive := OTensor [[0; 0]] ]}) /\
  1%positive = 1%positive /\
  dom ({[ 1%positive := OList [2%positive; 2%positive];
          2%positive := OTensor [[0; 0]] ]} : heap)
  = dom ({[ 1%positive := OList [2%positive; 2%positive];
            2%positive := OTensor [[3; 4]] ]} : heap).
Proof.
  assert (models.apply_threshold (example_vae [10; 15]%nat 2 1 (1 / 2) true)
            1%positive
            {[ 1%positive := OList [2%positive; 2%positive];
               2%positive := OTensor [[3; 4]] ]}
          = (Ok 1%positive,
             {[ 1%positive := OList [2%positive; 2%positive];
                2%positive := OTensor [[0; 0]] ]})) as E.
  { rewrite (apply_threshold_sparse _ [0; 0]) by (cbn; done || lra).
    cbn [models.threshold example_vae]. rewrite example_keep_mask_half.
    cbn. rewrite lookup_insert_eq. cbn.
    unfold models.zero_columns.
    rewrite lookup_insert_ne, lookup_singleton_eq by done. cbn.
    rewrite lookup_insert_eq. cbn.
    reflexivity. }
  split; [exact E|].
  pose proof (apply_threshold_in_place _ _ _ _ _ E) as T.
  exact (conj (proj1 T) (proj1 (proj2 T))).
Defined.

(** ** Sampling *)

Lemma bzip_same_length {A B C} (f : A -> B -> result C) (g : A -> B -> C)
      (a : list A) (b : list B) :
  Forall2 (fun x y => f x y = Ok (g x y)) a b ->
  bzip f a b = Ok (zip_with g a b).
Proof.
  intros HF. unfold bzip.
  rewrite (proj2 (Nat.eqb_eq _ _) (Forall2_length _ _ _ HF)).
  induction HF as [|x y a b Hxy HF IH]; cbn; [done|].
  rewrite Hxy. cbn. rewrite IH. done.
Qed.

Lemma tensor_op_same_shape f a b :
  same_shape a b -> tensor_op f a b = Ok (zip_with (zip_with f) a b).
Proof.
  intros Hs. unfold tensor_op. apply bzip_same_length.
  unfold same_shape in Hs.
  induction Hs as [|r1 r2 a b Hr Hs IH]; constructor; [|done].
  apply bzip_same_length. clear -Hr.
  revert r2 Hr. induction r1 as [|x r1 IH]; intros [|y r2] [=]; constructor;
    [done|]. apply IH. done.
Qed.

Lemma same_shape_randn_like noise t : forall pos,
  same_shape t (randn_like noise pos t).
Proof.
  unfold same_shape. induction t as [|row t IH]; intros pos; cbn;
    constructor; [|apply IH].
  unfold draw. rewrite length_map, length_seq. done.
Qed.

Lemma same_shape_tmap (f : R -> R) t : same_shape t (tmap f t).
Proof.
  unfold same_shape, tmap. induction t as [|row t IH]; cbn; constructor;
    [|done]. rewrite length_map. done.
Qed.

Lemma same_shape_trans a b c :
  same_shape a b -> same_shape b c -> same_shape a c.
Proof.
  unfold same_shape. intros Hab. revert c.
  induction Hab as [|r1 r2 a b Hr Hab IH]; intros c Hbc;
    inversion Hbc; subst; constructor; [congruence|]. apply IH. done.
Qed.

Lemma same_shape_sym a b : same_shape a b -> same_shape b a.
Proof.
  unfold same_shape. induction 1; constructor; done.
Qed.

Lemma same_shape_zip_with f a b :
  same_shape a b -> same_shape a (zip_with (zip_with f) a b).
Proof.
  unfold same_shape. induction 1 as [|r1 r2 a b Hr Hab IH]; cbn;
    constructor; [|done].
  rewrite length_zip_with. lia.
Qed.

Lemma entry_zip_with f a b i j x y :
  entry a i j = Some x -> entry b i j = Some y ->
  entry (zip_with (zip_with f) a b) i j = Some (f x y).
Proof.
  unfold entry. intros Ha Hb. rewrite lookup_zip_with.
  destruct (a !! i) as [ra|]; [|discriminate].
  destruct (b !! i) as [rb|]; [|discriminate]. cbn in *.
  rewrite lookup_zip_with, Ha. cbn. rewrite Hb. done.
Qed.

Lemma entry_tmap (f : R -> R) t i j x :
  entry t i j = Some x -> entry (tmap f t) i j = Some (f x).
Proof.
  unfold entry, tmap. intros Ht. rewrite lookup_map.
  destruct (t !! i) as [row|]; [|discriminate]. cbn in *.
  rewrite lookup_map, Ht. done.
Qed.

(** C9.  For [mu] and [logvar] of one shape, [reparameterise] returns the
    tensor whose every entry is [mu + eps * exp(0.5 * logvar)], [eps]
    being the tensor [randn_like(mu)] draws from the random source; and
    [sample_from_normal] returns the location of the distribution it is
    given, unchanged. *)
Theorem reparameterise_spec (noise : nat -> R) (pos : nat)
        (self : models.VAE) (mu logvar : tensor) :
  same_shape mu logvar ->
  (exists z,
     models.joint_vae.reparameterise noise pos self mu logvar = Ok z /\
     same_shape mu z /\
     forall i j m l e,
       entry mu i j = Some m -> entry logvar i j = Some l ->
       entry (randn_like noise pos mu) i j = Some e ->
       entry z i j = Some (m + e * exp (0.5 * l))) /\
  (forall normal, models.sample_from_normal self normal = loc_ normal).
Proof.
  intros Hs. split; [|done].
  unfold models.joint_vae.reparameterise.
  set (eps := randn_like noise pos mu).
  set (std := tmap (fun v => exp (0.5 * v)) logvar).
  assert (same_shape mu eps) as Hme by apply same_shape_randn_like.
  assert (same_shape mu std) as Hmstd.
  { eapply same_shape_trans; [exact Hs|apply same_shape_tmap]. }
  assert (same_shape eps std) as Hes.
  { eapply same_shape_trans; [apply same_shape_sym, Hme|exact Hmstd]. }
  rewrite (tensor_op_same_shape Rmult eps std Hes). cbn.
  assert (same_shape mu (zip_with (zip_with Rmult) eps std)) as Hmz.
  { eapply same_shape_trans; [exact Hme|apply same_shape_zip_with, Hes]. }
  rewrite (tensor_op_same_shape Rplus mu _ Hmz).
  eexists. split; [reflexivity|]. split.
  - apply same_shape_zip_with, Hmz.
  - intros i j m l e Hm Hl He.
    apply entry_zip_with; [done|].
    apply entry_zip_with; [done|].
    apply (entry_tmap (fun v => exp (0.5 * v))), Hl.
Qed.

Lemma reparameterise_spec_witness :
  exists z,
    models.joint_vae.reparameterise (fun k => INR k) 0
      (example_joint [10; 15]%nat 2 1 0 false) [[1; 2]] [[0; 0]] = Ok z /\
    same_shape [[1; 2]] z.
Proof.
  destruct (proj1 (reparameterise_spec (fun k => INR k) 0
                     (example_joint [10; 15]%nat 2 1 0 false)
                     [[1; 2]] [[0; 0]] ltac:(repeat constructor)))
    as (z & E & Hs & _).
  exists z. split; [exact E|exact Hs].
Defined.

(** ** [DVCCA._setencoders] *)

(** C3.  With private composition on, [_setencoders] leaves [z_dim] at
    twice the configured value, every encoder having been built for the
    configured value; when the model is sparse with a threshold other than
    0, the gate [log_alpha] it leaves has [2 * z_dim] columns (shape
    [[1, 2 * z_dim]]); and it succeeds whenever there is a first view. *)
Theorem setencoders_private_doubles_z_dim {Prior : Type} (noise : nat -> R)
        (self : dvcca.DVCCA Prior) :
  dvcca.private self = true ->
  dvcca.input_dim self <> [] ->
  exists self',
    dvcca._setencoders noise self = Ok self' /\
    dvcca.z_dim self' = (2 * dvcca.z_dim self)%nat /\
    Forall (fun e => dvcca.enc_z_dim e = dvcca.z_dim self)
           (dvcca.encoders self' ++ dvcca.private_encoders self') /\
    length (dvcca.private_encoders self') = length (dvcca.input_dim self) /\
    (dvcca.sparse self = true -> dvcca.threshold self <> 0 ->
     dvcca.sparse self' = true /\
     exists la, dvcca.log_alpha self' = Some la /\
                length la = (2 * dvcca.z_dim self)%nat) /\
    (dvcca.sparse self = false \/ dvcca.threshold self = 0 ->
     dvcca.sparse self' = false /\ dvcca.log_alpha self' = None).
Proof.
  intros Hp Hne. unfold dvcca._setencoders.
  destruct (dvcca.input_dim self) as [|d0 ds] eqn:Hids; [done|].
  cbn [getitem lookup list_lookup mbind result_bind]. rewrite Hp.
  eexists. split; [reflexivity|]. cbn.
  split; [lia|]. split; [|split; [|split]].
  - constructor; [done|]. constructor; [done|].
    apply Forall_map, Forall_forall. done.
  - rewrite length_map. done.
  - intros Hs Hthr. rewrite Hs.
    destruct (Req_dec_T (dvcca.threshold self) 0); [done|]. cbn.
    split; [done|]. eexists. split; [reflexivity|].
    rewrite FloatTensor_normal__length. lia.
  - intros [Hs|Hthr].
    + rewrite Hs. cbn. done.
    + destruct (Req_dec_T (dvcca.threshold self) 0); [|done].
      rewrite andb_false_r. cbn. done.
Qed.

(** The scenario of the spec: two views of 10 and 15 features, [z_dim = 2],
    sparse with threshold 0.2. *)
Lemma setencoders_private_doubles_z_dim_witness :
  exists self',
    dvcca._setencoders (fun _ => 0)
      {| dvcca.input_dim := [10; 15]%nat; dvcca.z_dim := 2;
         dvcca.n_views := 2; dvcca.private := true; dvcca.sparse := true;
         dvcca.threshold := 0.2; dvcca.beta := 1;
         dvcca.learning_rate := 0.001; dvcca.prior := tt;
         dvcca.log_alpha := None; dvcca.encoders := [];
         dvcca.private_encoders := [] |} = Ok self' /\
    dvcca.z_dim self' = 4%nat /\
    exists la, dvcca.log_alpha self' = Some la /\ length la = 4%nat.
Proof.
  destruct (setencoders_private_doubles_z_dim (fun _ => 0)
              {| dvcca.input_dim := [10; 15]%nat; dvcca.z_dim := 2;
                 dvcca.n_views := 2; dvcca.private := true;
                 dvcca.sparse := true;
                 dvcca.threshold := 0.2; dvcca.beta := 1;
                 dvcca.learning_rate := 0.001; dvcca.prior := tt;
                 dvcca.log_alpha := None; dvcca.encoders := [];
                 dvcca.private_encoders := [] |} eq_refl ltac:(discriminate))
    as (self' & E & Hz & _ & _ & Hla & _).
  exists self'. split; [exact E|]. split; [exact Hz|].
  exact (proj2 (Hla eq_refl ltac:(cbn; lra))).
Defined.

(** ** The losses *)

Lemma for_range_total {S} (idx : list nat) (body : nat -> S -> result S) :
  (forall i s, i ∈ idx -> exists s', body i s = Ok s') ->
  forall s, exists s', for_range idx body s = Ok s'.
Proof.
  induction idx as [|i idx IH]; intros Hb s; cbn; [eauto|].
  destruct (Hb i s) as [s1 ->]; [left|]. cbn.
  apply IH. intros; apply Hb; right; done.
Qed.

Section losses.
Context `{kl_utils}.

Lemma joint_calc_ll_with_beta b self x recon :
  models.joint_vae.calc_ll (with_beta b self) x recon
  = models.joint_vae.calc_ll self x recon.
Proof. destruct self. reflexivity. Qed.

Lemma joint_calc_kl_with_beta self m lv :
  models.joint_vae.calc_kl self m lv
  = models.beta self * models.joint_vae.calc_kl (with_beta 1 self) m lv.
Proof.
  destruct self. unfold models.joint_vae.calc_kl. cbn.
  destruct sparse; lra.
Qed.

Lemma joint_loss_function_Ok self x fwd :
  fits_joint self x fwd ->
  exists ll,
    models.joint_vae.calc_ll self x (models.joint_vae.x_recon fwd) = Ok ll /\
    models.joint_vae.loss_function self x fwd
    = Ok {[ "total" :=
              models.joint_vae.calc_kl self (models.joint_vae.mu fwd)
                (models.joint_vae.logvar fwd) - ll;
            "kl" :=
              models.joint_vae.calc_kl self (models.joint_vae.mu fwd)
                (models.joint_vae.logvar fwd);
            "ll" := ll ]}.
Proof.
  intros [Hx Hr]. unfold models.joint_vae.loss_function.
  destruct (for_range_total (range (models.n_views self))
              (fun i ll =>
                 d ← getitem (models.joint_vae.x_recon fwd) i;
                 xi ← getitem x i;
                 Ok (ll + mean0 (sum1 (log_prob d xi)))))
    with (s := 0) as [ll Hll].
  { intros i s Hi%elem_of_range.
    destruct (getitem_lt (models.joint_vae.x_recon fwd) i) as (d & -> & _);
      [lia|].
    destruct (getitem_lt x i) as (xi & -> & _); [lia|].
    cbn. eauto. }
  exists ll. unfold models.joint_vae.calc_ll at 1 2.
  rewrite Hll. done.
Qed.

Lemma vae_calc_ll_with_beta b self x recon :
  models.vae.calc_ll (with_beta b self) x recon
  = models.vae.calc_ll self x recon.
Proof. destruct self. reflexivity. Qed.

Lemma vae_calc_kl_with_beta self m lv kl :
  models.vae.calc_kl self m lv = Ok kl ->
  exists kl1,
    models.vae.calc_kl (with_beta 1 self) m lv = Ok kl1 /\
    kl = models.beta self * kl1.
Proof.
  destruct self. unfold models.vae.calc_kl. cbn.
  intros E. apply bind_Ok_inv in E as (s & -> & E). injection E as <-.
  cbn. eexists. split; [reflexivity|]. lra.
Qed.

Lemma vae_loss_function_Ok self x fwd :
  fits_vae self x fwd ->
  exists kl ll,
    models.vae.calc_kl self (models.vae.mu fwd) (models.vae.logvar fwd)
    = Ok kl /\
    models.vae.calc_ll self x (models.vae.x_recon fwd) = Ok ll /\
    models.vae.loss_function self x fwd
    = Ok {[ "total" := kl - ll; "kl" := kl; "ll" := ll ]}.
Proof.
  intros (Hx & Hm & Hlv & Hr). unfold models.vae.loss_function.
  destruct (for_range_total (range (models.n_views self))
              (fun i kl =>
                 m ← getitem (models.vae.mu fwd) i;
                 lv ← getitem (models.vae.logvar fwd) i;
                 if models.sparse self
                 then Ok (kl + compute_kl_sparse m lv)
                 else Ok (kl + compute_kl m lv)))
    with (s := 0) as [s Hs].
  { intros i s Hi%elem_of_range.
    destruct (getitem_lt (models.vae.mu fwd) i) as (m & -> & _); [lia|].
    destruct (getitem_lt (models.vae.logvar fwd) i) as (lv & -> & _);
      [lia|].
    cbn. destruct (models.sparse self); eauto. }
  destruct (for_range_total (range (models.n_views self))
              (fun i ll =>
                 for_range (range (models.n_views self))
                   (fun j ll =>
                      row ← getitem (models.vae.x_recon fwd) i;
                      d ← getitem row j;
                      xi ← getitem x i;
                      Ok (ll + sum1_mean0 (log_prob d xi)))
                   ll))
    with (s := 0) as [ll Hll].
  { intros i s0 Hi%elem_of_range. apply for_range_total.
    intros j s1 Hj%elem_of_range.
    destruct (Hr i Hi) as (row & Hrow & Hlen).
    rewrite (proj2 (getitem_Ok _ _ _) Hrow). cbn.
    destruct (getitem_lt row j) as (d & -> & _); [lia|].
    destruct (getitem_lt x i) as (xi & -> & _); [lia|].
    cbn. eauto. }
  exists (models.beta self * s), ll.
  unfold models.vae.calc_kl, models.vae.calc_ll.
  rewrite Hs, Hll. done.
Qed.
End losses.

Section dvcca_losses.
Context {Prior : Type}.

Lemma dvcca_calc_ll_with_beta b (self : dvcca.DVCCA Prior) x px :
  dvcca.calc_ll (dvcca_with_beta b self) x px = dvcca.calc_ll self x px.
Proof. reflexivity. Qed.

Lemma dvcca_calc_kl_with_beta (self : dvcca.DVCCA Prior) qz kl :
  dvcca.calc_kl self qz = Ok kl ->
  exists kl1,
    dvcca.calc_kl (dvcca_with_beta 1 self) qz = Ok kl1 /\
    kl = dvcca.beta self * kl1.
Proof.
  unfold dvcca.calc_kl.
  intros E. apply bind_Ok_inv in E as (s & Es & E). injection E as <-.
  exists (1 * s). split; [|cbn; lra].
  change (dvcca.private (dvcca_with_beta 1 self)) with (dvcca.private self).
  change (dvcca.n_views (dvcca_with_beta 1 self)) with (dvcca.n_views self).
  change (dvcca.sparse (dvcca_with_beta 1 self)) with (dvcca.sparse self).
  change (dvcca.prior (dvcca_with_beta 1 self)) with (dvcca.prior self).
  cbn zeta in Es |- *. rewrite Es. reflexivity.
Qed.

Lemma dvcca_loss_function_Ok (self : dvcca.DVCCA Prior) x fwd :
  fits_dvcca self x fwd ->
  exists kl ll,
    dvcca.calc_kl self (dvcca.qz_x fwd) = Ok kl /\
    dvcca.calc_ll self x (dvcca.px_zs fwd) = Ok ll /\
    dvcca.loss_function self x fwd
    = Ok {[ "loss" := kl - ll; "kl" := kl; "ll" := ll ]}.
Proof.
  intros (Hx & Hq & Hp). unfold dvcca.loss_function.
  destruct (for_range_total
              (range (if dvcca.private self then dvcca.n_views self
                      else 1%nat))
              (fun i kl =>
                 q ← getitem (dvcca.qz_x fwd) i;
                 if dvcca.sparse self
                 then Ok (kl + sum1_mean0 (dvcca.sparse_kl_divergence q))
                 else Ok (kl + sum1_mean0
                                 (dvcca.kl_divergence q (dvcca.prior self)))))
    with (s := 0) as [s Hs].
  { intros i s Hi%elem_of_range.
    destruct (getitem_lt (dvcca.qz_x fwd) i) as (q & -> & _); [lia|].
    cbn. destruct (dvcca.sparse self); eauto. }
  destruct (for_range_total (range (dvcca.n_views self))
              (fun i ll =>
                 row ← getitem (dvcca.px_zs fwd) i;
                 p ← getitem row 0;
                 xi ← getitem x i;
                 Ok (ll + sum1_mean0 (dvcca.log_likelihood p xi))))
    with (s := 0) as [ll Hll].
  { intros i s0 Hi%elem_of_range.
    destruct (Hp i Hi) as (row & p & Hrow).
    rewrite (proj2 (getitem_Ok _ _ _) Hrow). cbn.
    destruct (getitem_lt x i) as (xi & -> & _); [lia|].
    cbn. eauto. }
  exists (dvcca.beta self * s), ll.
  unfold dvcca.calc_kl, dvcca.calc_ll.
  rewrite Hs, Hll. done.
Qed.
End dvcca_losses.

Lemma dom_losses (k1 k2 k3 : string) (a b c : R) :
  dom ({[ k1 := a; k2 := b; k3 := c ]} : gmap string R)
  = ({[ k1; k2; k3 ]} : gset string).
Proof.
  rewrite !dom_insert_L, dom_singleton_L.
  rewrite (assoc_L (∪)). done.
Qed.

(** C1, as the code has it.  On a batch that fits the model every variant
    returns [total = kl - ll] (under the key ['loss'] in DVCCA), where the
    returned [kl] is already [beta] times the KL sum, the KL sum being what
    [calc_kl] returns for [beta = 1]; the returned [ll] is the same for
    every [beta].  So [total] is [beta] times the KL sum minus the
    log-likelihood, and it is not [beta] times the returned [kl] minus
    [ll]. *)
Theorem total_is_returned_kl_minus_ll `{kl_utils} {Prior : Type} :
  (forall self x fwd,
     fits_vae self x fwd ->
     exists kl1 ll,
       models.vae.calc_kl (with_beta 1 self) (models.vae.mu fwd)
         (models.vae.logvar fwd) = Ok kl1 /\
       (forall b, models.vae.calc_ll (with_beta b self) x
                    (models.vae.x_recon fwd) = Ok ll) /\
       models.vae.loss_function self x fwd
       = Ok {[ "total" := models.beta self * kl1 - ll;
               "kl" := models.beta self * kl1;
               "ll" := ll ]}) /\
  (forall self x fwd,
     fits_joint self x fwd ->
     exists kl1 ll,
       models.joint_vae.calc_kl (with_beta 1 self) (models.joint_vae.mu fwd)
         (models.joint_vae.logvar fwd) = kl1 /\
       (forall b, models.joint_vae.calc_ll (with_beta b self) x
                    (models.joint_vae.x_recon fwd) = Ok ll) /\
       models.joint_vae.loss_function self x fwd
       = Ok {[ "total" := models.beta self * kl1 - ll;
               "kl" := models.beta self * kl1;
               "ll" := ll ]}) /\
  (forall (self : dvcca.DVCCA Prior) x fwd,
     fits_dvcca self x fwd ->
     exists kl1 ll,
       dvcca.calc_kl (dvcca_with_beta 1 self) (dvcca.qz_x fwd) = Ok kl1 /\
       (forall b, dvcca.calc_ll (dvcca_with_beta b self) x (dvcca.px_zs fwd)
                  = Ok ll) /\
       dvcca.loss_function self x fwd
       = Ok {[ "loss" := dvcca.beta self * kl1 - ll;
               "kl" := dvcca.beta self * kl1;
               "ll" := ll ]}).
Proof.
  split; [|split].
  - intros self x fwd Hfit.
    destruct (vae_loss_function_Ok self x fwd Hfit)
      as (kl & ll & Hkl & Hll & E).
    destruct (vae_calc_kl_with_beta _ _ _ _ Hkl) as (kl1 & Hkl1 & ->).
    exists kl1, ll. split; [done|]. split; [|done].
    intros b. rewrite vae_calc_ll_with_beta. done.
  - intros self x fwd Hfit.
    destruct (joint_loss_function_Ok self x fwd Hfit) as (ll & Hll & E).
    eexists _, ll. split; [reflexivity|]. split.
    + intros b. rewrite joint_calc_ll_with_beta. done.
    + rewrite <- joint_calc_kl_with_beta. done.
  - intros self x fwd Hfit.
    destruct (dvcca_loss_function_Ok self x fwd Hfit)
      as (kl & ll & Hkl & Hll & E).
    destruct (dvcca_calc_kl_with_beta _ _ _ Hkl) as (kl1 & Hkl1 & ->).
    exists kl1, ll. split; [done|]. split; [|done].
    intros b. rewrite dvcca_calc_ll_with_beta. done.
Qed.

Lemma gaussian_kl_example : gaussian_kl [[1]] [[0]] = 1 / 2.
Proof. unfold gaussian_kl, mean0. cbn. rewrite exp_0. lra. Qed.

(** One view of one feature, [beta = 2], posterior mean 1 and
    log-variance 0. *)
Lemma total_is_returned_kl_minus_ll_witness :
  exists kl1 ll,
    models.joint_vae.calc_kl (H := example_kl_utils)
      (with_beta 1 (example_joint [1%nat] 1 2 0 false)) [[1]] [[0]] = kl1 /\
    models.joint_vae.loss_function (H := example_kl_utils)
      (example_joint [1%nat] 1 2 0 false) [[[0]]]
      (models.joint_vae.mk_fwd_rtn [unit_normal [[0]]] [[1]] [[0]])
    = Ok {[ "total" := 2 * kl1 - ll; "kl" := 2 * kl1; "ll" := ll ]}.
Proof.
  destruct (proj1 (proj2 (total_is_returned_kl_minus_ll
                            (H := example_kl_utils) (Prior := unit)))
              (example_joint [1%nat] 1 2 0 false) [[[0]]]
              (models.joint_vae.mk_fwd_rtn [unit_normal [[0]]] [[1]] [[0]])
              (conj (le_n 1) (le_n 1)))
    as (kl1 & ll & Hkl & _ & E).
  exists kl1, ll. split; [exact Hkl|exact E].
Defined.

(** C1, as the claim has it: with [beta = 2] the returned [total] would be
    twice the returned [kl] minus the returned [ll].  The model below is what
    the joint constructor returns; its loss returns [kl = 1] and
    [total = kl - ll]. *)
Lemma total_is_not_beta_times_returned_kl :
  models.joint_vae.__init__ (fun _ => 0) [1%nat] 1 [] false 0.002 2 0 false
    "Mean" []
  = ([], Ok (example_joint [1%nat] 1 2 0 false)) /\
  exists total kl ll,
    models.joint_vae.loss_function (H := example_kl_utils)
      (example_joint [1%nat] 1 2 0 false) [[[0]]]
      (models.joint_vae.mk_fwd_rtn [unit_normal [[0]]] [[1]] [[0]])
    = Ok {[ "total" := total; "kl" := kl; "ll" := ll ]} /\
    models.beta (example_joint [1%nat] 1 2 0 false) = 2 /\
    kl = 1 /\
    total <> models.beta (example_joint [1%nat] 1 2 0 false) * kl - ll.
Proof.
  split.
  - rewrite example_joint_init. destruct (Req_dec_T 0 0); [done|lra].
  - assert (models.joint_vae.calc_kl (H := example_kl_utils)
              (example_joint [1%nat] 1 2 0 false) [[1]] [[0]] = 1) as Hkl.
    { unfold models.joint_vae.calc_kl. cbn.
      rewrite gaussian_kl_example. lra. }
    destruct (joint_loss_function_Ok (H := example_kl_utils)
                (example_joint [1%nat] 1 2 0 false) [[[0]]]
                (models.joint_vae.mk_fwd_rtn [unit_normal [[0]]] [[1]] [[0]])
                (conj (le_n 1) (le_n 1))) as (ll & _ & E).
    cbn [models.joint_vae.mu models.joint_vae.logvar] in E.
    rewrite Hkl in E.
    exists (1 - ll), 1, ll. split; [exact E|]. split; [done|].
    split; [done|]. cbn [models.beta example_joint]. lra.
Qed.

(** C7, as the code has it.  On a batch that fits the model every variant
    returns a mapping, and whenever a mapping is returned its values are
    scalars and its keys are fixed by the model class: [total], [kl] and
    [ll] for the two VAE classes, [loss], [kl] and [ll] for DVCCA, which
    has no [total]. *)
Theorem loss_function_keys `{kl_utils} {Prior : Type} :
  (forall self x fwd,
     fits_vae self x fwd ->
     exists d, models.vae.loss_function self x fwd = Ok d) /\
  (forall self x fwd d,
     models.vae.loss_function self x fwd = Ok d ->
     dom d = ({[ "total"; "kl"; "ll" ]} : gset string)) /\
  (forall self x fwd,
     fits_joint self x fwd ->
     exists d, models.joint_vae.loss_function self x fwd = Ok d) /\
  (forall self x fwd d,
     models.joint_vae.loss_function self x fwd = Ok d ->
     dom d = ({[ "total"; "kl"; "ll" ]} : gset string)) /\
  (forall (self : dvcca.DVCCA Prior) x fwd,
     fits_dvcca self x fwd ->
     exists d, dvcca.loss_function self x fwd = Ok d) /\
  (forall (self : dvcca.DVCCA Prior) x fwd d,
     dvcca.loss_function self x fwd = Ok d ->
     dom d = ({[ "loss"; "kl"; "ll" ]} : gset string) /\ d !! "total" = None).
Proof.
  split; [|split; [|split; [|split; [|split]]]].
  - intros self x fwd Hfit.
    destruct (vae_loss_function_Ok self x fwd Hfit) as (? & ? & _ & _ & ->).
    eauto.
  - intros self x fwd d E. unfold models.vae.loss_function in E.
    apply bind_Ok_inv in E as (kl & _ & E).
    apply bind_Ok_inv in E as (ll & _ & E).
    injection E as <-. apply dom_losses.
  - intros self x fwd Hfit.
    destruct (joint_loss_function_Ok self x fwd Hfit) as (? & _ & ->).
    eauto.
  - intros self x fwd d E. unfold models.joint_vae.loss_function in E.
    apply bind_Ok_inv in E as (ll & _ & E).
    injection E as <-. apply dom_losses.
  - intros self x fwd Hfit.
    destruct (dvcca_loss_function_Ok self x fwd Hfit) as (? & ? & _ & _ & ->).
    eauto.
  - intros self x fwd d E. unfold dvcca.loss_function in E.
    apply bind_Ok_inv in E as (kl & _ & E).
    apply bind_Ok_inv in E as (ll & _ & E).
    injection E as <-. split; [apply dom_losses|].
    rewrite !lookup_insert_ne by done. apply lookup_singleton_ne. done.
Qed.

Lemma loss_function_keys_witness :
  exists d,
    models.joint_vae.loss_function (H := example_kl_utils)
      (example_joint [1%nat] 1 2 0 false) [[[0]]]
      (models.joint_vae.mk_fwd_rtn [unit_normal [[0]]] [[1]] [[0]]) = Ok d /\
    dom d = ({[ "total"; "kl"; "ll" ]} : gset string).
Proof.
  destruct (proj1 (proj2 (proj2 (loss_function_keys
                                   (H := example_kl_utils) (Prior := unit))))
              (example_joint [1%nat] 1 2 0 false) [[[0]]]
              (models.joint_vae.mk_fwd_rtn [unit_normal [[0]]] [[1]] [[0]])
              (conj (le_n 1) (le_n 1))) as (d & E).
  exists d. split; [exact E|].
  exact (proj1 (proj2 (proj2 (proj2 (loss_function_keys
                                       (H := example_kl_utils)
                                       (Prior := unit)))))
           _ _ _ _ E).
Defined.

(** C7, as the claim has it: the mapping DVCCA returns would have a key
    [total].  Its keys are [loss], [kl] and [ll]. *)
Lemma dvcca_losses_have_no_total :
  exists d,
    dvcca.loss_function example_dvcca [[[0]]; [[0]]]
      (dvcca.mk_fwd_rtn [[unit_likelihood [[0]]]; [unit_likelihood [[0]]]]
                        [posterior_with_kl [[1 / 2; 1 / 2]]]) = Ok d /\
    d !! "total" = None /\
    d !! "loss" <> None /\
    dom d <> ({[ "total"; "kl"; "ll" ]} : gset string).
Proof.
  destruct (dvcca_loss_function_Ok example_dvcca [[[0]]; [[0]]]
              (dvcca.mk_fwd_rtn
                 [[unit_likelihood [[0]]]; [unit_likelihood [[0]]]]
                 [posterior_with_kl [[1 / 2; 1 / 2]]]))
    as (kl & ll & _ & _ & E).
  { split; [cbn; lia|]. split; [cbn; lia|].
    intros [|[|i]] Hi; cbn in *; [eauto|eauto|lia]. }
  eexists. split; [exact E|].
  assert (({[ "loss" := kl - ll; "kl" := kl; "ll" := ll ]} : gmap string R)
            !! "total" = None) as Hnone.
  { rewrite !lookup_insert_ne by done. apply lookup_singleton_ne. done. }
  split; [exact Hnone|]. split.
  - rewrite lookup_insert_eq. done.
  - intros Heq. apply not_elem_of_dom in Hnone. apply Hnone.
    rewrite Heq. apply elem_of_union_l, elem_of_union_l, elem_of_singleton.
    done.
Qed.

(** * Further properties of the code *)

(** ** [apply_threshold]: repetition and failure *)

Lemma zero_each_fixed keep items h :
  (forall l, l ∈ items ->
     exists t, h !! l = Some (OTensor t) /\ setitem_zero keep t = Ok t) ->
  models.zero_each keep items h = (Ok (), h).
Proof.
  induction items as [|l0 rest IH]; intros Hall; cbn; [done|].
  destruct (Hall l0) as (t & Hl0 & Hz); [left|].
  unfold models.zero_columns. rewrite Hl0, Hz.
  rewrite (insert_id h l0 (OTensor t) Hl0).
  apply IH. intros l Hl. apply Hall. right. done.
Qed.

Lemma tmap_zero_idemp (t : tensor) :
  tmap (fun _ => 0) (tmap (fun _ : R => 0) t) = tmap (fun _ => 0) t.
Proof.
  unfold tmap. rewrite map_map. apply map_ext. intros row.
  rewrite map_map. done.
Qed.

(** X1.  Masking twice is masking once: after a call of
    [apply_threshold] that returned, a second call on the same latent
    returns as well and leaves every object as the first call left it. *)
Theorem apply_threshold_idempotent `{torch} (self : models.VAE) (z r : loc)
        (h h' : heap) :
  models.apply_threshold self z h = (Ok r, h') ->
  models.apply_threshold self z h' = (Ok z, h').
Proof.
  unfold models.apply_threshold.
  destruct (Rle_dec (models.threshold self) 1) as [Hle|]; [|discriminate].
  destruct (models.dropout self) as [d|e] eqn:Hd; [|discriminate].
  set (keep := map (fun d0 => lt_scalar d0 (models.threshold self)) d).
  destruct (models.joint_representation self) eqn:Hj.
  - destruct (models.zero_columns keep z h) as [[[]|e] h1] eqn:E;
      [|discriminate].
    intros [= <- <-].
    apply zero_columns_inv in E as (t & t' & Hz & Hset & ->).
    unfold models.zero_columns.
    rewrite lookup_insert_eq, (setitem_zero_idemp _ _ _ Hset).
    rewrite insert_insert_eq. done.
  - destruct (h !! z) as [[[|row t]|items]|] eqn:Hz; try discriminate.
    + intros [= <- <-]. rewrite Hz. done.
    + destruct keep as [|k [|k' ks]]; try discriminate.
      intros [= <- <-]. rewrite lookup_insert_eq.
      destruct k; cbn [negb].
      * rewrite insert_insert_eq. done.
      * change (tmap (fun _ : R => 0) (row :: t))
          with (map (fun _ : R => 0) row :: tmap (fun _ : R => 0) t).
        rewrite insert_insert_eq. do 2 f_equal.
        change (map (fun _ : R => 0) row :: tmap (fun _ : R => 0) t)
          with (tmap (fun _ : R => 0) (row :: t)).
        f_equal. apply tmap_zero_idemp.
    + destruct (models.zero_each keep items h) as [[[]|e] h1] eqn:E;
        [|discriminate].
      intros [= <- <-].
      apply zero_each_inv in E as (_ & Hout & Hin).
      assert (z ∉ items) as Hzin.
      { intros Hzin. destruct (Hin z Hzin) as (t & _ & Ht & _). congruence. }
      rewrite (Hout z Hzin), Hz.
      rewrite zero_each_fixed; [done|].
      intros l Hl. destruct (Hin l Hl) as (t & t' & _ & Hset & Ht').
      exists t'. split; [done|]. eapply setitem_zero_idemp, Hset.
Qed.

Lemma apply_threshold_idempotent_witness :
  models.apply_threshold (example_joint [10; 15]%nat 2 1 (-1) true)
    1%positive
    (<[1%positive := OTensor [[0; 0]; [0; 0]]]>
       {[ 1%positive := OTensor [[3; 4]; [5; 6]] ]})
  = (Ok 1%positive,
     <[1%positive := OTensor [[0; 0]; [0; 0]]]>
       {[ 1%positive := OTensor [[3; 4]; [5; 6]] ]}).
Proof.
  apply (apply_threshold_idempotent
           (example_joint [10; 15]%nat 2 1 (-1) true) 1%positive 1%positive
           {[ 1%positive := OTensor [[3; 4]; [5; 6]] ]}).
  rewrite (proj1 (apply_threshold_masks
                    (example_joint [10; 15]%nat 2 1 (-1) true) [0; 0]
                    1%positive {[ 1%positive := OTensor [[3; 4]; [5; 6]] ]}
                    eq_refl eq_refl ltac:(cbn; lra))
                 [[3; 4]; [5; 6]] eq_refl (lookup_singleton_eq _ _)
                 ltac:(repeat constructor)).
  cbn [models.threshold example_joint].
  rewrite (mask_nonpos (-1) [0; 0] [[3; 4]; [5; 6]])
    by (try lra; repeat constructor).
  reflexivity.
Defined.

Lemma setitem_zero_bad_width keep t :
  length keep <> 1%nat -> ~ width (length keep) t ->
  setitem_zero keep t = Raise IndexError.
Proof.
  intros Hlen Hw. unfold setitem_zero.
  assert (forallb (fun row => Nat.eqb (length row) (length keep)) t = false)
    as Hall.
  { destruct (forallb _ t) eqn:E; [|done]. exfalso. apply Hw.
    unfold width. apply Forall_forall. intros row Hin.
    rewrite forallb_forall in E.
    apply Nat.eqb_eq, E, list_elem_of_In, Hin. }
  destruct keep as [|k [|k' keep]]; [|done|]; rewrite Hall; done.
Qed.

(** X2.  A failing call of [apply_threshold] changes nothing when the
    latent is the single tensor of a joint model.  On the list of a
    per-view model it is not all-or-nothing: when the first tensor has the
    gate's width and the second has not, the call raises [IndexError] and
    the first tensor stays masked. *)
Theorem apply_threshold_failure `{torch} (self : models.VAE) (z : loc)
        (h : heap) :
  (forall e h',
     models.joint_representation self = true ->
     models.apply_threshold self z h = (Raise e, h') -> h' = h) /\
  (forall la l1 l2 rest t1 t2,
     models.joint_representation self = false ->
     models.sparse self = true -> models.log_alpha self = Some la ->
     models.threshold self <= 1 -> length la <> 1%nat ->
     h !! z = Some (OList (l1 :: l2 :: rest)) -> l1 <> l2 ->
     h !! l1 = Some (OTensor t1) -> width (length la) t1 ->
     h !! l2 = Some (OTensor t2) -> ~ width (length la) t2 ->
     models.apply_threshold self z h
     = (Raise IndexError,
        <[l1 := OTensor (map (mask_row (keep_mask (models.threshold self) la))
                             t1)]> h)).
Proof.
  split.
  - intros e h' Hj. unfold models.apply_threshold.
    destruct (Rle_dec (models.threshold self) 1); [|congruence].
    destruct (models.dropout self) as [d|e']; [|congruence].
    rewrite Hj. unfold models.zero_columns.
    destruct (h !! z) as [[t|items]|]; try congruence.
    destruct (setitem_zero _ t); [discriminate|congruence].
  - intros la l1 l2 rest t1 t2 Hj Hs Hla Hle Hlen Hz Hne H1 Hw1 H2 Hw2.
    rewrite (apply_threshold_sparse self la z h Hs Hla Hle). cbn zeta.
    rewrite Hj, Hz. cbn [models.zero_each].
    rewrite (zero_columns_width _ _ _ t1 H1)
      by (rewrite keep_mask_length; done).
    unfold models.zero_columns.
    rewrite lookup_insert_ne, H2 by done.
    rewrite setitem_zero_bad_width; [done| |];
      rewrite keep_mask_length; done.
Qed.

Lemma apply_threshold_failure_witness :
  models.apply_threshold (example_vae [10; 15]%nat 2 1 (1 / 2) true)
    1%positive
    {[ 1%positive := OList [2%positive; 3%positive];
       2%positive := OTensor [[3; 4]];
       3%positive := OTensor [[5; 6; 7]] ]}
  = (Raise IndexError,
     <[2%positive :=
         OTensor (map (mask_row (keep_mask (1 / 2) [0; 0])) [[3; 4]])]>
       {[ 1%positive := OList [2%positive; 3%positive];
          2%positive := OTensor [[3; 4]];
          3%positive := OTensor [[5; 6; 7]] ]}).
Proof.
  apply (proj2 (apply_threshold_failure
                  (example_vae [10; 15]%nat 2 1 (1 / 2) true) 1%positive
                  {[ 1%positive := OList [2%positive; 3%positive];
                     2%positive := OTensor [[3; 4]];
                     3%positive := OTensor [[5; 6; 7]] ]})
               [0; 0] 2%positive 3%positive [] [[3; 4]] [[5; 6; 7]]
               eq_refl eq_refl eq_refl ltac:(cbn; lra)
               ltac:(cbn; lia) eq_refl ltac:(discriminate) eq_refl
               ltac:(repeat constructor) eq_refl).
  intros Hw. apply Forall_cons in Hw as [Hw _]. cbn in Hw. lia.
Defined.

(** ** The constructors under keyword overrides *)

Lemma mapM_only_raises {A B} (f : A -> result B) (e : exn) (l : list A) :
  (forall a, a ∈ l -> f a = Raise e \/ exists b, f a = Ok b) ->
  (exists a, a ∈ l /\ f a = Raise e) ->
  mapM f l = Raise e.
Proof.
  induction l as [|a l IH]; intros Hall (a0 & Hin & Ha0).
  - by apply elem_of_nil in Hin.
  - cbn. destruct (Hall a) as [->|[b Hb]]; [left|done|].
    rewrite Hb. cbn.
    apply elem_of_cons in Hin as [->|Hin]; [congruence|].
    rewrite IH; [done| |eauto].
    intros a' Ha'. apply Hall. right. done.
Qed.

Lemma build_optimizers_IndexError self :
  (length (models.encoders self) < models.n_views self)%nat \/
  (length (models.decoders self) < models.n_views self)%nat ->
  models.build_optimizers self = Raise IndexError.
Proof.
  intros Hshort. apply mapM_only_raises.
  - intros i _. unfold getitem.
    destruct (models.encoders self !! i); [|left; done].
    destruct (models.decoders self !! i); [right; eauto|left; done].
  - assert (exists i, (i < models.n_views self)%nat /\
                      (models.encoders self !! i = None \/
                       models.decoders self !! i = None)) as (i & Hi & Hnone).
    { destruct Hshort as [Hs|Hs].
      - exists (length (models.encoders self)). split; [done|].
        left. apply lookup_ge_None. lia.
      - exists (length (models.decoders self)). split; [done|].
        right. apply lookup_ge_None. lia. }
    exists i. split; [apply elem_of_range, Hi|].
    unfold getitem. destruct Hnone as [->| Hd]; [done|].
    destruct (models.encoders self !! i); [|done]. rewrite Hd. done.
Qed.

Lemma set_optimizers_keeps self os :
  models.encoders (models.set_optimizers self os) = models.encoders self /\
  models.decoders (models.set_optimizers self os) = models.decoders self /\
  models.input_dims (models.set_optimizers self os)
  = models.input_dims self /\
  models.non_linear (models.set_optimizers self os)
  = models.non_linear self /\
  models.sparse (models.set_optimizers self os) = models.sparse self /\
  models.log_alpha (models.set_optimizers self os)
  = models.log_alpha self /\
  models.n_views (models.set_optimizers self os) = models.n_views self.
Proof. destruct self. cbn. repeat split. Qed.

Lemma set_modules_keeps self es ds :
  models.encoders (models.set_modules self es ds) = es /\
  models.decoders (models.set_modules self es ds) = ds /\
  models.input_dims (models.set_modules self es ds)
  = models.input_dims self /\
  models.non_linear (models.set_modules self es ds)
  = models.non_linear self /\
  models.sparse (models.set_modules self es ds) = models.sparse self /\
  models.log_alpha (models.set_modules self es ds)
  = models.log_alpha self /\
  models.n_views (models.set_modules self es ds) = models.n_views self.
Proof. destruct self. cbn. repeat split. Qed.

(** What [__dict__.update(kwargs)] leaves alone when no keyword has the
    name of a declared parameter. *)
Lemma update_in_kwargs joint kwargs : forall self,
  in_kwargs joint kwargs ->
  models.input_dims (models.update self kwargs) = models.input_dims self /\
  models.z_dim (models.update self kwargs) = models.z_dim self /\
  models.non_linear (models.update self kwargs) = models.non_linear self /\
  models.learning_rate (models.update self kwargs)
  = models.learning_rate self /\
  models.threshold (models.update self kwargs) = models.threshold self.
Proof.
  unfold models.update.
  induction kwargs as [|kw kwargs IH]; intros self Hin; [done|].
  apply Forall_cons in Hin as [Hkw Hin]. cbn [foldl].
  destruct (IH (models.set_attr self kw) Hin) as (-> & -> & -> & -> & ->).
  destruct self, kw; cbn; try done; exfalso; apply Hkw;
    unfold declared_parameters; destruct joint; cbn; repeat constructor.
Qed.

Lemma init_modules :
  forall noise ids zd hid nl rate b thr snp jt kwargs self,
    models.vae.__init__ noise ids zd hid nl rate b thr snp kwargs = Ok self \/
    (models.joint_vae.__init__ noise ids zd hid nl rate b thr snp jt
       kwargs).2 = Ok self ->
    models.encoders self
    = map (fun d => layers.mkEncoder d (hid ++ [zd]) true
                      (models.non_linear self) (models.sparse self)
                      (models.log_alpha self))
          (models.input_dims self) /\
    models.decoders self
    = map (fun d => layers.mkDecoder d (hid ++ [zd]) true
                      (models.non_linear self))
          (models.input_dims self) /\
    (models.n_views self <= length (models.input_dims self))%nat.
Proof.
  intros noise ids zd hid nl rate b thr snp jt kwargs self [E|E].
  - unfold models.vae.__init__ in E.
    apply bind_Ok_inv in E as (os & Eos & E). injection E as <-.
    match type of Eos with
    | models.build_optimizers (models.set_modules ?s ?es ?ds) = _ =>
        destruct (set_optimizers_keeps (models.set_modules s es ds) os)
          as (-> & -> & -> & -> & -> & -> & ->);
        destruct (set_modules_keeps s es ds)
          as (He & Hd & Hi & Hnl & Hsp & Hla & Hnv);
        rewrite He, Hd, Hi, Hnl, Hsp, Hla, Hnv;
        assert (models.n_views s <= length (models.input_dims s))%nat
      end.
    { match goal with |- (?n <= ?m)%nat =>
        destruct (Nat.le_gt_cases n m) as [Hle|Hgt]; [done|] end.
      rewrite build_optimizers_IndexError in Eos; [done|].
      rewrite He, Hnv. unfold models.build_encoders. rewrite length_map.
      left. lia. }
    done.
  - unfold models.joint_vae.__init__ in E.
    destruct (if String.eqb jt "PoE" then _ else _) as [jz|]; [|done].
    cbn [snd] in E.
    apply bind_Ok_inv in E as (os & Eos & E). injection E as <-.
    match type of Eos with
    | models.build_optimizers (models.set_modules ?s ?es ?ds) = _ =>
        destruct (set_optimizers_keeps (models.set_modules s es ds) os)
          as (-> & -> & -> & -> & -> & -> & ->);
        destruct (set_modules_keeps s es ds)
          as (He & Hd & Hi & Hnl & Hsp & Hla & Hnv);
        rewrite He, Hd, Hi, Hnl, Hsp, Hla, Hnv;
        assert (models.n_views s <= length (models.input_dims s))%nat
      end.
    { match goal with |- (?n <= ?m)%nat =>
        destruct (Nat.le_gt_cases n m) as [Hle|Hgt]; [done|] end.
      rewrite build_optimizers_IndexError in Eos; [done|].
      rewrite He, Hnv. unfold models.build_encoders. rewrite length_map.
      left. lia. }
    done.
Qed.

(** X4.  For the keyword arguments that can arrive in [**kwargs], a model
    that either constructor returns has one encoder and one decoder per
    entry of the [input_dims] argument, built with the [non_linear]
    argument and with hidden widths that end in the [z_dim] argument.
    Every encoder was handed the model's own [sparse] flag and its one gate
    [log_alpha], so all views share the gate, also when [sparse] or
    [log_alpha] was overridden by keyword; and [n_views] does not exceed
    the number of views. *)
Theorem constructed_modules :
  forall noise ids zd hid nl rate b thr snp jt kwargs self,
    (in_kwargs false kwargs /\
     models.vae.__init__ noise ids zd hid nl rate b thr snp kwargs = Ok self)
    \/
    (in_kwargs true kwargs /\
     (models.joint_vae.__init__ noise ids zd hid nl rate b thr snp jt
        kwargs).2 = Ok self) ->
    models.input_dims self = ids /\
    models.encoders self
    = map (fun d => layers.mkEncoder d (hid ++ [zd]) true nl
                      (models.sparse self) (models.log_alpha self)) ids /\
    models.decoders self
    = map (fun d => layers.mkDecoder d (hid ++ [zd]) true nl) ids /\
    (models.n_views self <= length ids)%nat.
Proof.
  intros noise ids zd hid nl rate b thr snp jt kwargs self Hinit.
  assert (models.input_dims self = ids /\ models.non_linear self = nl)
    as [Hids Hnl].
  { destruct Hinit as [[Hin E]|[Hin E]].
    - unfold models.vae.__init__ in E.
      apply bind_Ok_inv in E as (os & _ & E). injection E as <-.
      match goal with
      | |- context [models.set_modules (models.update ?s _) ?es ?ds] =>
          destruct (set_optimizers_keeps
                      (models.set_modules (models.update s kwargs) es ds) os)
            as (_ & _ & -> & -> & _);
          destruct (set_modules_keeps (models.update s kwargs) es ds)
            as (_ & _ & -> & -> & _);
          destruct (update_in_kwargs false kwargs s Hin)
            as (-> & _ & -> & _)
      end.
      done.
    - unfold models.joint_vae.__init__ in E.
      destruct (if String.eqb jt "PoE" then _ else _) as [jz|]; [|done].
      cbn [snd] in E.
      apply bind_Ok_inv in E as (os & _ & E). injection E as <-.
      match goal with
      | |- context [models.set_modules
                      (models.set_attr (models.update ?s _) ?kw) ?es ?ds] =>
          destruct (set_optimizers_keeps
                      (models.set_modules
                         (models.set_attr (models.update s kwargs) kw) es ds)
                      os) as (_ & _ & -> & -> & _);
          destruct (set_modules_keeps
                      (models.set_attr (models.update s kwargs) kw) es ds)
            as (_ & _ & -> & -> & _);
          destruct (update_in_kwargs true kwargs s Hin)
            as (Hi & _ & Hn & _);
          destruct (models.update s kwargs)
      end.
      cbn in *. done. }
  destruct (init_modules noise ids zd hid nl rate b thr snp jt kwargs self)
    as (He & Hd & Hv).
  { destruct Hinit as [[_ E]|[_ E]]; [left|right]; done. }
  rewrite Hids, Hnl in *. done.
Qed.

(** The per-view constructor called with [sparse=True, n_views=1] on two
    views and threshold 0. *)
Lemma constructed_modules_witness :
  exists self,
    models.vae.__init__ (fun _ => 0) [10; 15]%nat 2 [] false 0.002 1 0 false
      [models.kw_sparse true; models.kw_n_views 1] = Ok self /\
    models.encoders self
    = map (fun d => layers.mkEncoder d ([] ++ [2%nat]) true false
                      (models.sparse self) (models.log_alpha self))
          [10; 15]%nat /\
    (models.n_views self <= 2)%nat.
Proof.
  assert (exists self,
            models.vae.__init__ (fun _ => 0) [10; 15]%nat 2 [] false 0.002 1
              0 false [models.kw_sparse true; models.kw_n_views 1] = Ok self)
    as [self E].
  { unfold models.vae.__init__. cbn [models.update foldl].
    match goal with
    | |- context [models.build_optimizers ?s] =>
        rewrite (build_optimizers_Ok s) by (cbn; lia)
    end.
    eauto. }
  exists self. split; [exact E|].
  destruct (constructed_modules (fun _ => 0) [10; 15]%nat 2 [] false 0.002 1
              0 false "Mean" [models.kw_sparse true; models.kw_n_views 1]
              self) as (_ & He & _ & Hv).
  - left. split; [|exact E].
    repeat constructor; unfold declared_parameters; cbn;
      intros Hn; repeat (apply elem_of_cons in Hn as [Hn|Hn]; [done|]);
      by apply elem_of_nil in Hn.
  - exact (conj He Hv).
Defined.

Lemma update_snoc self kwargs kw :
  models.update self (kwargs ++ [kw])
  = models.set_attr (models.update self kwargs) kw.
Proof. unfold models.update. rewrite foldl_app. done. Qed.

Lemma length_range n : length (range n) = n.
Proof. unfold range. apply length_seq. Qed.

(** X5.  The joint constructor sets [n_views] after the keyword overrides:
    whatever they are, a returned model has [n_views = len(input_dims)] of
    the argument and as many optimisers.  An override [n_views=k] is
    therefore discarded: the constructor does what it does without it. *)
Theorem joint_init_n_views :
  (forall noise ids zd hid nl rate b thr snp jt kwargs self,
     (models.joint_vae.__init__ noise ids zd hid nl rate b thr snp jt
        kwargs).2 = Ok self ->
     models.n_views self = length ids /\
     length (models.optimizers self) = length ids) /\
  (forall noise ids zd hid nl rate b thr snp jt kwargs k,
     models.joint_vae.__init__ noise ids zd hid nl rate b thr snp jt
       (kwargs ++ [models.kw_n_views k])
     = models.joint_vae.__init__ noise ids zd hid nl rate b thr snp jt
         kwargs).
Proof.
  split.
  - intros noise ids zd hid nl rate b thr snp jt kwargs self E.
    pose proof (joint_init_optimizers _ _ _ _ _ _ _ _ _ _ _ _ E) as Hos.
    assert (models.n_views self = length ids) as Hn.
    { unfold models.joint_vae.__init__ in E.
      destruct (if String.eqb jt "PoE" then _ else _) as [jz|]; [|done].
      cbn [snd] in E.
      apply bind_Ok_inv in E as (os & Eos & E). injection E as <-.
      match goal with
      | |- context [models.set_modules (models.set_attr ?s _) ?es ?ds] =>
          destruct (set_optimizers_keeps
                      (models.set_modules
                         (models.set_attr s (models.kw_n_views (length ids)))
                         es ds) os) as (_ & _ & _ & _ & _ & _ & ->);
          destruct (set_modules_keeps
                      (models.set_attr s (models.kw_n_views (length ids)))
                      es ds) as (_ & _ & _ & _ & _ & _ & ->);
          destruct s
      end.
      reflexivity. }
    split; [done|]. rewrite Hos, length_map, length_range. done.
  - intros noise ids zd hid nl rate b thr snp jt kwargs k.
    unfold models.joint_vae.__init__.
    destruct (if String.eqb jt "PoE" then _ else _) as [jz|]; [|done].
    rewrite update_snoc.
    match goal with
    | |- context [models.set_attr (models.set_attr ?s _) _] =>
        assert (models.set_attr (models.set_attr s (models.kw_n_views k))
                  (models.kw_n_views (length ids))
                = models.set_attr s (models.kw_n_views (length ids))) as ->
          by (destruct s; reflexivity)
    end.
    reflexivity.
Qed.

(** Two views and the override [n_views=7]. *)
Lemma joint_init_n_views_witness :
  exists self,
    models.joint_vae.__init__ (fun _ => 0) [10; 15]%nat 3 [] false 0.002 1 0
      false "Mean" ([] ++ [models.kw_n_views 7]) = ([], Ok self) /\
    models.n_views self = 2%nat /\
    length (models.optimizers self) = 2%nat.
Proof.
  exists (example_joint [10; 15]%nat 3 1 0
            (if Req_dec_T 0 0 then false else true)).
  assert (models.joint_vae.__init__ (fun _ => 0) [10; 15]%nat 3 [] false
            0.002 1 0 false "Mean" ([] ++ [models.kw_n_views 7])
          = ([], Ok (example_joint [10; 15]%nat 3 1 0
                       (if Req_dec_T 0 0 then false else true)))) as E.
  { rewrite (proj2 joint_init_n_views). apply example_joint_init. }
  split; [exact E|].
  apply (proj1 joint_init_n_views (fun _ => 0) [10; 15]%nat 3%nat [] false
           0.002 1 0 false "Mean" ([] ++ [models.kw_n_views 7])).
  rewrite E. reflexivity.
Defined.

(** X6.  The per-view constructor sets [n_views] before the keyword
    overrides, so an override of it stands: with [n_views=k] it builds an
    encoder and a decoder for every entry of [input_dims] but only [k]
    optimisers when [k <= len(input_dims)], and raises [IndexError] when
    [k] is larger. *)
Theorem vae_init_n_views_override noise ids zd hid nl rate b thr snp k :
  ((k <= length ids)%nat ->
   exists self,
     models.vae.__init__ noise ids zd hid nl rate b thr snp
       [models.kw_n_views k] = Ok self /\
     models.n_views self = k /\
     length (models.optimizers self) = k /\
     length (models.encoders self) = length ids /\
     length (models.decoders self) = length ids) /\
  ((length ids < k)%nat ->
   models.vae.__init__ noise ids zd hid nl rate b thr snp
     [models.kw_n_views k] = Raise IndexError).
Proof.
  split.
  - intros Hk. unfold models.vae.__init__. cbn [models.update foldl].
    match goal with
    | |- context [models.build_optimizers ?s] =>
        rewrite (build_optimizers_Ok s)
    end.
    + eexists. split; [reflexivity|]. cbn.
      rewrite !length_map, length_range. done.
    + cbn. rewrite length_map. done.
    + cbn. rewrite length_map. done.
  - intros Hk. unfold models.vae.__init__. cbn [models.update foldl].
    rewrite build_optimizers_IndexError; [done|].
    left. cbn. rewrite length_map. done.
Qed.

Lemma vae_init_n_views_override_witness :
  (exists self,
     models.vae.__init__ (fun _ => 0) [10; 15]%nat 3 [] false 0.002 1 0 false
       [models.kw_n_views 1] = Ok self /\
     models.n_views self = 1%nat /\
     length (models.optimizers self) = 1%nat /\
     length (models.encoders self) = 2%nat /\
     length (models.decoders self) = 2%nat) /\
  models.vae.__init__ (fun _ => 0) [10; 15]%nat 3 [] false 0.002 1 0 false
    [models.kw_n_views 3] = Raise IndexError.
Proof.
  split.
  - apply (proj1 (vae_init_n_views_override (fun _ => 0) [10; 15]%nat 3 []
                    false 0.002 1 0 false 1)).
    cbn. lia.
  - apply (proj2 (vae_init_n_views_override (fun _ => 0) [10; 15]%nat 3 []
                    false 0.002 1 0 false 3)).
    cbn. lia.
Defined.

(** X7.  An override [sparse=True] on a model built with threshold 0 gives
    a model that claims to be sparse and has no gate: both constructors
    return it, its [dropout()] raises [AttributeError] and its
    [apply_threshold] raises the same before touching the latent. *)
Theorem sparse_override_without_gate `{torch} noise ids zd hid nl rate b snp
        jt :
  (exists self,
     models.vae.__init__ noise ids zd hid nl rate b 0 snp
       [models.kw_sparse true] = Ok self /\
     models.dropout self = Raise AttributeError /\
     forall z h,
       models.apply_threshold self z h = (Raise AttributeError, h)) /\
  (jt = "PoE" \/ jt = "Mean" ->
   exists self,
     models.joint_vae.__init__ noise ids zd hid nl rate b 0 snp jt
       [models.kw_sparse true] = ([], Ok self) /\
     models.dropout self = Raise AttributeError /\
     forall z h,
       models.apply_threshold self z h = (Raise AttributeError, h)).
Proof.
  assert (forall self,
            models.sparse self = true -> models.log_alpha self = None ->
            models.threshold self = 0 ->
            models.dropout self = Raise AttributeError /\
            forall z h,
              models.apply_threshold self z h = (Raise AttributeError, h))
    as Hcore.
  { intros self Hs Hla Hthr.
    assert (models.dropout self = Raise AttributeError) as Hd.
    { unfold models.dropout. rewrite Hs, Hla. done. }
    split; [done|]. intros z h. unfold models.apply_threshold.
    rewrite Hd, Hthr. destruct (Rle_dec 0 1); [done|lra]. }
  split.
  - unfold models.vae.__init__. cbn [models.update foldl].
    match goal with
    | |- context [models.build_optimizers ?s] =>
        rewrite (build_optimizers_Ok s)
          by (cbn; rewrite length_map; done)
    end.
    eexists. split; [reflexivity|].
    apply Hcore; cbn; destruct (Req_dec_T 0 0); done.
  - intros Hjt. unfold models.joint_vae.__init__.
    assert (exists jz, (if String.eqb jt "PoE" then Some ProductOfExperts
                        else if String.eqb jt "Mean"
                             then Some MeanRepresentation else None)
                       = Some jz) as [jz ->].
    { destruct Hjt as [-> | ->]; cbn; eauto. }
    cbn [models.update foldl].
    match goal with
    | |- context [models.build_optimizers ?s] =>
        rewrite (build_optimizers_Ok s)
          by (cbn; rewrite length_map; done)
    end.
    eexists. split; [reflexivity|].
    apply Hcore; cbn; destruct (Req_dec_T 0 0); done.
Qed.

Lemma sparse_override_without_gate_witness :
  exists self,
    models.joint_vae.__init__ (fun _ => 0) [10; 15]%nat 3 [] false 0.002 1 0
      false "Mean" [models.kw_sparse true] = ([], Ok self) /\
    models.dropout self = Raise AttributeError.
Proof.
  destruct (proj2 (sparse_override_without_gate (fun _ => 0) [10; 15]%nat 3
                     [] false 0.002 1 false "Mean") (or_intror eq_refl))
    as (self & E & Hd & _).
  exists self. split; [exact E|exact Hd].
Defined.

(** ** The losses return only on batches that fit *)

Lemma for_range_Ok_inv {S} (idx : list nat) (body : nat -> S -> result S) :
  forall s s',
    for_range idx body s = Ok s' ->
    forall i, i ∈ idx -> exists s1 s2, body i s1 = Ok s2.
Proof.
  induction idx as [|i0 idx IH]; intros s s' E i Hi.
  - by apply elem_of_nil in Hi.
  - cbn in E. apply bind_Ok_inv in E as (s1 & E1 & E).
    apply elem_of_cons in Hi as [->|Hi]; [eauto|].
    eapply IH; done.
Qed.

Lemma all_below_le {A} (l : list A) n :
  (forall i, (i < n)%nat -> is_Some (l !! i)) -> (n <= length l)%nat.
Proof.
  intros Hall. destruct n as [|n]; [lia|].
  destruct (Hall n) as [a Ha]; [lia|].
  apply lookup_lt_Some in Ha. lia.
Qed.

Section loss_failures.
Context `{kl_utils}.

Lemma joint_calc_ll_Ok_fits self x fwd ll :
  models.joint_vae.calc_ll self x (models.joint_vae.x_recon fwd) = Ok ll ->
  fits_joint self x fwd.
Proof.
  intros E. split; apply all_below_le; intros i Hi;
    destruct (for_range_Ok_inv _ _ _ _ E i) as (s1 & s2 & Eb);
    try (apply elem_of_range, Hi);
    apply bind_Ok_inv in Eb as (d & Ed & Eb);
    apply bind_Ok_inv in Eb as (xi & Exi & _);
    apply getitem_Ok in Ed, Exi; eauto.
Qed.

(** X8.  The joint loss returns a mapping only on batches that fit the
    model: whenever it returns, [x] and [x_recon] both have an entry for
    each of the [n_views] views.  With fewer entries in either of them it
    never returns. *)
Theorem joint_loss_function_returns_only_if_fits (self : models.VAE)
        (x : list tensor) (fwd : models.joint_vae.fwd_rtn) d :
  models.joint_vae.loss_function self x fwd = Ok d ->
  (models.n_views self <= length x)%nat /\
  (models.n_views self <= length (models.joint_vae.x_recon fwd))%nat.
Proof.
  intros E. unfold models.joint_vae.loss_function in E.
  apply bind_Ok_inv in E as (ll & Ell & _).
  eapply joint_calc_ll_Ok_fits, Ell.
Qed.
End loss_failures.

(** Two views configured and two given. *)
Lemma joint_loss_function_returns_only_if_fits_witness :
  exists d,
    models.joint_vae.loss_function (H := example_kl_utils)
      (example_joint [10; 15]%nat 2 1 0 false) [[[0]]; [[0]]]
      (models.joint_vae.mk_fwd_rtn [unit_normal [[0]]; unit_normal [[0]]]
         [[1]] [[0]])
    = Ok d /\
    (2 <= length ([[[0%R]]; [[0%R]]] : list tensor))%nat.
Proof.
  destruct (joint_loss_function_Ok (H := example_kl_utils)
              (example_joint [10; 15]%nat 2 1 0 false) [[[0]]; [[0]]]
              (models.joint_vae.mk_fwd_rtn
                 [unit_normal [[0]]; unit_normal [[0]]] [[1]] [[0]]))
    as (ll & _ & E); [split; cbn; lia|].
  eexists. split; [exact E|].
  exact (proj1 (joint_loss_function_returns_only_if_fits
                  (H := example_kl_utils) _ _ _ _ E)).
Defined.

Section vae_loss_failures.
Context `{kl_utils}.

Lemma vae_loss_function_Ok_fits self x fwd d :
  models.vae.loss_function self x fwd = Ok d -> fits_vae self x fwd.
Proof.
  unfold models.vae.loss_function. intros E.
  apply bind_Ok_inv in E as (kl & Ekl & E).
  apply bind_Ok_inv in E as (ll & Ell & _).
  unfold models.vae.calc_kl in Ekl.
  apply bind_Ok_inv in Ekl as (s & Es & _).
  assert (forall i, (i < models.n_views self)%nat ->
            is_Some (models.vae.mu fwd !! i) /\
            is_Some (models.vae.logvar fwd !! i)) as Hkl.
  { intros i Hi.
    destruct (for_range_Ok_inv _ _ _ _ Es i) as (s1 & s2 & Eb);
      [apply elem_of_range, Hi|].
    apply bind_Ok_inv in Eb as (m & Em & Eb).
    apply bind_Ok_inv in Eb as (lv & Elv & _).
    apply getitem_Ok in Em, Elv. eauto. }
  assert (forall i j, (i < models.n_views self)%nat ->
            (j < models.n_views self)%nat ->
            exists row, models.vae.x_recon fwd !! i = Some row /\
                        is_Some (row !! j) /\ is_Some (x !! i)) as Hll.
  { intros i j Hi Hj.
    destruct (for_range_Ok_inv _ _ _ _ Ell i) as (s1 & s2 & Eb);
      [apply elem_of_range, Hi|].
    destruct (for_range_Ok_inv _ _ _ _ Eb j) as (s3 & s4 & Ebj);
      [apply elem_of_range, Hj|].
    apply bind_Ok_inv in Ebj as (row & Erow & Ebj).
    apply bind_Ok_inv in Ebj as (dj & Edj & Ebj).
    apply bind_Ok_inv in Ebj as (xi & Exi & _).
    apply getitem_Ok in Erow, Edj, Exi. eauto. }
  split; [|split; [|split]].
  - apply all_below_le. intros i Hi.
    destruct (Hll i i Hi Hi) as (_ & _ & _ & Hx). done.
  - apply all_below_le. intros i Hi. apply Hkl, Hi.
  - apply all_below_le. intros i Hi. apply Hkl, Hi.
  - intros i Hi. destruct (Hll i i Hi Hi) as (row & Hrow & _).
    exists row. split; [done|].
    apply all_below_le. intros j Hj.
    destruct (Hll i j Hi Hj) as (row' & Hrow' & Hj' & _). congruence.
Qed.

(** X9.  The per-view loss returns a mapping only on batches that fit the
    model: whenever it returns, [x], [mu] and [logvar] have an entry for
    each of the [n_views] views and [x_recon] is at least an [n_views] by
    [n_views] matrix. *)
Theorem vae_loss_function_returns_only_if_fits (self : models.VAE)
        (x : list tensor) (fwd : models.vae.fwd_rtn) d :
  models.vae.loss_function self x fwd = Ok d ->
  (models.n_views self <= length x)%nat /\
  (models.n_views self <= length (models.vae.mu fwd))%nat /\
  (models.n_views self <= length (models.vae.logvar fwd))%nat /\
  forall i, (i < models.n_views self)%nat ->
    exists row, models.vae.x_recon fwd !! i = Some row /\
                (models.n_views self <= length row)%nat.
Proof. apply vae_loss_function_Ok_fits. Qed.
End vae_loss_failures.

(** One view configured and given. *)
Lemma vae_loss_function_returns_only_if_fits_witness :
  exists d,
    models.vae.loss_function (H := example_kl_utils)
      (example_vae [10%nat] 2 1 0 false) [[[0]]]
      (models.vae.mk_fwd_rtn [[unit_normal [[0]]]] [[[1]]] [[[0]]])
    = Ok d /\
    (1 <= length ([[[0%R]]] : list tensor))%nat.
Proof.
  destruct (vae_loss_function_Ok (H := example_kl_utils)
              (example_vae [10%nat] 2 1 0 false) [[[0]]]
              (models.vae.mk_fwd_rtn [[unit_normal [[0]]]] [[[1]]] [[[0]]]))
    as (kl & ll & _ & _ & E).
  { split; [cbn; lia|]. split; [cbn; lia|]. split; [cbn; lia|].
    intros [|i] Hi; [|cbn in Hi; lia].
    eexists. split; [reflexivity|cbn; lia]. }
  eexists. split; [exact E|].
  exact (proj1 (vae_loss_function_returns_only_if_fits
                  (H := example_kl_utils) _ _ _ _ E)).
Defined.

Section dvcca_loss_failures.
Context {Prior : Type}.

Lemma dvcca_loss_function_Ok_fits (self : dvcca.DVCCA Prior) x fwd d :
  dvcca.loss_function self x fwd = Ok d -> fits_dvcca self x fwd.
Proof.
  unfold dvcca.loss_function. intros E.
  apply bind_Ok_inv in E as (kl & Ekl & E).
  apply bind_Ok_inv in E as (ll & Ell & _).
  unfold dvcca.calc_kl in Ekl.
  apply bind_Ok_inv in Ekl as (s & Es & _).
  assert (forall i, (i < dvcca.n_views self)%nat ->
            exists row p, dvcca.px_zs fwd !! i = Some (p :: row) /\
                          is_Some (x !! i)) as Hll.
  { intros i Hi.
    destruct (for_range_Ok_inv _ _ _ _ Ell i) as (s1 & s2 & Eb);
      [apply elem_of_range, Hi|].
    apply bind_Ok_inv in Eb as (row & Erow & Eb).
    apply bind_Ok_inv in Eb as (p & Ep & Eb).
    apply bind_Ok_inv in Eb as (xi & Exi & _).
    apply getitem_Ok in Erow, Ep, Exi.
    destruct row as [|p' row]; [discriminate|].
    injection Ep as ->. eauto. }
  split; [|split].
  - apply all_below_le. intros i Hi.
    destruct (Hll i Hi) as (_ & _ & _ & Hx). done.
  - apply all_below_le. intros i Hi.
    destruct (for_range_Ok_inv _ _ _ _ Es i) as (s1 & s2 & Eb);
      [apply elem_of_range, Hi|].
    apply bind_Ok_inv in Eb as (q & Eq & _).
    apply getitem_Ok in Eq. eauto.
  - intros i Hi. destruct (Hll i Hi) as (row & p & Hrow & _). eauto.
Qed.

(** X10.  The DVCCA loss returns a mapping only when [x] has an entry for
    each of the [n_views] views, [px_zs] has a non-empty row for each of
    them, and [qz_x] has [n_views] posteriors with private encoders and at
    least one without. *)
Theorem dvcca_loss_function_returns_only_if_fits (self : dvcca.DVCCA Prior)
        (x : list tensor) (fwd : dvcca.fwd_rtn Prior) d :
  dvcca.loss_function self x fwd = Ok d ->
  (dvcca.n_views self <= length x)%nat /\
  ((if dvcca.private self then dvcca.n_views self else 1)
   <= length (dvcca.qz_x fwd))%nat /\
  forall i, (i < dvcca.n_views self)%nat ->
    exists row p, dvcca.px_zs fwd !! i = Some (p :: row).
Proof. apply dvcca_loss_function_Ok_fits. Qed.
End dvcca_loss_failures.

(** Two views configured and given. *)
Lemma dvcca_loss_function_returns_only_if_fits_witness :
  exists d,
    dvcca.loss_function example_dvcca [[[0]]; [[0]]]
      (dvcca.mk_fwd_rtn [[unit_likelihood [[0]]]; [unit_likelihood [[0]]]]
                        [posterior_with_kl [[1 / 2; 1 / 2]]])
    = Ok d /\
    (2 <= length ([[[0%R]]; [[0%R]]] : list tensor))%nat.
Proof.
  destruct (dvcca_loss_function_Ok example_dvcca [[[0]]; [[0]]]
              (dvcca.mk_fwd_rtn
                 [[unit_likelihood [[0]]]; [unit_likelihood [[0]]]]
                 [posterior_with_kl [[1 / 2; 1 / 2]]]))
    as (kl & ll & _ & _ & E).
  { split; [cbn; lia|]. split; [cbn; lia|].
    intros [|[|i]] Hi; [eauto|eauto|cbn in Hi; lia]. }
  eexists. split; [exact E|].
  exact (proj1 (dvcca_loss_function_returns_only_if_fits _ _ _ _ E)).
Defined.

(** ** Loops that build a list *)

Lemma for_range_snoc {A} (P : nat -> A -> Prop) (idx : list nat)
      (body : nat -> list A -> result (list A)) :
  (forall i acc acc', body i acc = Ok acc' ->
                      exists a, acc' = acc ++ [a] /\ P i a) ->
  forall acc out,
    for_range idx body acc = Ok out ->
    exists l, out = acc ++ l /\ Forall2 P idx l.
Proof.
  intros Hb. induction idx as [|i idx IH]; intros acc out E; cbn in E.
  - injection E as <-. exists []. rewrite app_nil_r. split; [done|constructor].
  - apply bind_Ok_inv in E as (acc1 & E1 & E).
    apply Hb in E1 as (a & -> & Ha).
    apply IH in E as (l & -> & Hl).
    exists (a :: l). rewrite <- app_assoc. split; [done|].
    constructor; done.
Qed.

Lemma for_range_snoc2 {A B} (P : nat -> A -> B -> Prop) (idx : list nat)
      (body : nat -> list A * list B -> result (list A * list B)) :
  (forall i acc acc', body i acc = Ok acc' ->
     exists a b, acc' = (acc.1 ++ [a], acc.2 ++ [b]) /\ P i a b) ->
  forall acc out,
    for_range idx body acc = Ok out ->
    exists l, out = (acc.1 ++ map fst l, acc.2 ++ map snd l) /\
              Forall2 (fun i ab => P i ab.1 ab.2) idx l.
Proof.
  intros Hb. induction idx as [|i idx IH]; intros acc out E; cbn in E.
  - injection E as <-. exists []. cbn. rewrite !app_nil_r.
    split; [by destruct acc|constructor].
  - apply bind_Ok_inv in E as (acc1 & E1 & E).
    apply Hb in E1 as (a & b & -> & Hab).
    apply IH in E as (l & -> & Hl).
    exists ((a, b) :: l). cbn. rewrite <- !app_assoc. split; [done|].
    constructor; done.
Qed.

Lemma Forall2_range {A} (P : nat -> A -> Prop) n (l : list A) :
  Forall2 P (range n) l ->
  length l = n /\
  forall i, (i < n)%nat -> exists a, l !! i = Some a /\ P i a.
Proof.
  intros HF. pose proof (Forall2_length _ _ _ HF) as Hlen.
  rewrite length_range in Hlen. split; [done|].
  intros i Hi.
  assert (range n !! i = Some i) as Hri.
  { unfold range. apply lookup_seq. lia. }
  destruct (Forall2_lookup_l _ _ _ _ _ HF Hri) as (a & Ha & HP). eauto.
Qed.

Lemma mapM_Ok_Forall2 {A B} (f : A -> result B) (l : list A) l' :
  mapM f l = Ok l' -> Forall2 (fun a b => f a = Ok b) l l'.
Proof.
  revert l'. induction l as [|a l IH]; intros l'; cbn.
  - intros [= <-]. constructor.
  - intros E. apply bind_Ok_inv in E as (b & Eb & E).
    apply bind_Ok_inv in E as (bs & Ebs & E).
    injection E as <-. constructor; [done|]. apply IH, Ebs.
Qed.

Lemma for_range_ext {S} (idx : list nat) (body1 body2 : nat -> S -> result S) :
  (forall i s, i ∈ idx -> body1 i s = body2 i s) ->
  forall s, for_range idx body1 s = for_range idx body2 s.
Proof.
  induction idx as [|i idx IH]; intros Hb s; cbn; [done|].
  rewrite (Hb i s) by left. destruct (body2 i s) as [s'|e]; [|done].
  cbn. apply IH. intros; apply Hb; right; done.
Qed.

Lemma getitem_take {A} (l : list A) n i :
  (i < n)%nat -> getitem (take n l) i = getitem l i.
Proof. intros Hi. unfold getitem. rewrite lookup_take_lt; done. Qed.

(** ** The forward pass of the joint model *)

Section joint_forward_facts.
Context `{networks}.

Lemma joint_decode_inv self z recon :
  joint_forward.decode self z = Ok recon ->
  length recon = models.n_views self /\
  forall i, (i < models.n_views self)%nat ->
    exists dec d,
      models.decoders self !! i = Some dec /\ recon !! i = Some d /\
      decoder_forward i dec z = Ok d.
Proof.
  unfold joint_forward.decode. intros E.
  apply (for_range_snoc
           (fun i d => exists dec, models.decoders self !! i = Some dec /\
                                   decoder_forward i dec z = Ok d)) in E.
  - destruct E as (l & -> & HF). cbn.
    apply Forall2_range in HF as [Hlen Hall]. split; [done|].
    intros i Hi. destruct (Hall i Hi) as (d & Hd & dec & Hdec & Hfw). eauto.
  - intros i acc acc' Eb.
    apply bind_Ok_inv in Eb as (dec & Edec & Eb).
    apply bind_Ok_inv in Eb as (d & Ed & Eb). injection Eb as <-.
    apply getitem_Ok in Edec. eauto.
Qed.

Lemma joint_encode_inv self x mu logvar :
  joint_forward.encode self x = Ok (mu, logvar) ->
  (0 < models.n_views self <= length x)%nat.
Proof.
  unfold joint_forward.encode. intros E.
  apply bind_Ok_inv in E as ([mus lvs] & El & E).
  apply (for_range_snoc2
           (fun i (m lv : tensor) => is_Some (x !! i))) in El.
  - destruct El as (l & [= -> ->] & HF).
    apply Forall2_range in HF as [Hlen Hall]. split.
    + destruct l as [|ab l]; [discriminate|]. cbn in Hlen. lia.
    + apply all_below_le. intros i Hi.
      destruct (Hall i Hi) as (_ & _ & Hx). done.
  - intros i [a1 a2] acc' Eb.
    apply bind_Ok_inv in Eb as (e & _ & Eb).
    apply bind_Ok_inv in Eb as (xi & Exi & Eb).
    apply bind_Ok_inv in Eb as ([m lv] & _ & Eb). injection Eb as <-.
    apply getitem_Ok in Exi. eauto.
Qed.

Lemma joint_forward_inv noise pos self x fwd :
  joint_forward.forward noise pos self x = Ok fwd ->
  joint_forward.encode self x
  = Ok (models.joint_vae.mu fwd, models.joint_vae.logvar fwd) /\
  exists z,
    models.joint_vae.reparameterise noise pos self (models.joint_vae.mu fwd)
      (models.joint_vae.logvar fwd) = Ok z /\
    joint_forward.decode self z = Ok (models.joint_vae.x_recon fwd).
Proof.
  unfold joint_forward.forward. intros E.
  apply bind_Ok_inv in E as ([mu logvar] & Eenc & E).
  apply bind_Ok_inv in E as (z & Ez & E).
  apply bind_Ok_inv in E as (recon & Edec & E). injection E as <-.
  cbn. eauto.
Qed.

(** X12.  What the joint [forward] returns has every entry
    [loss_function] reads: whenever [forward(x)] returns, the model has at
    least one view, [x] holds a tensor for each view and there is exactly
    one reconstruction per view. *)
Theorem joint_forward_fits_loss (noise : nat -> R) (pos : nat)
        (self : models.VAE) (x : list tensor)
        (fwd : models.joint_vae.fwd_rtn) :
  joint_forward.forward noise pos self x = Ok fwd ->
  (0 < models.n_views self <= length x)%nat /\
  length (models.joint_vae.x_recon fwd) = models.n_views self /\
  fits_joint self x fwd.
Proof.
  intros E. apply joint_forward_inv in E as (Eenc & z & _ & Edec).
  apply joint_encode_inv in Eenc.
  apply joint_decode_inv in Edec as [Hlen _].
  split; [done|]. split; [done|]. split; lia.
Qed.

(** X13.  In the joint model every view is decoded from one and the same
    latent: the latent is the reparameterised sample of the fused [mu] and
    [logvar] that [forward] reports, and the [i]-th reconstruction is what
    decoder [i] returns on it. *)
Theorem joint_forward_shared_latent (noise : nat -> R) (pos : nat)
        (self : models.VAE) (x : list tensor)
        (fwd : models.joint_vae.fwd_rtn) :
  joint_forward.forward noise pos self x = Ok fwd ->
  exists z,
    models.joint_vae.reparameterise noise pos self (models.joint_vae.mu fwd)
      (models.joint_vae.logvar fwd) = Ok z /\
    forall i, (i < models.n_views self)%nat ->
      exists dec d,
        models.decoders self !! i = Some dec /\
        models.joint_vae.x_recon fwd !! i = Some d /\
        decoder_forward i dec z = Ok d.
Proof.
  intros E. apply joint_forward_inv in E as (_ & z & Ez & Edec).
  exists z. split; [done|]. apply joint_decode_inv, Edec.
Qed.

(** X14.  The joint [forward] reads one tensor per view and no more:
    the views of [x] beyond the first [n_views] do not change its
    result. *)
Theorem joint_forward_ignores_extra_views (noise : nat -> R) (pos : nat)
        (self : models.VAE) (x : list tensor) :
  joint_forward.forward noise pos self (take (models.n_views self) x)
  = joint_forward.forward noise pos self x.
Proof.
  unfold joint_forward.forward, joint_forward.encode.
  rewrite (for_range_ext _ _
             (fun i '(mu, logvar) =>
                e ← getitem (models.encoders self) i;
                xi ← getitem x i;
                '(mu_, logvar_) ← encoder_forward i e xi;
                Ok (mu ++ [mu_], logvar ++ [logvar_]))); [done|].
  intros i [mu logvar] Hi%elem_of_range.
  rewrite getitem_take; done.
Qed.

(** X15.  A joint model without views cannot run: [encode] stacks an empty
    list, so [forward] raises [RuntimeError] whatever [x] is. *)
Theorem joint_forward_no_views (noise : nat -> R) (pos : nat)
        (self : models.VAE) (x : list tensor) :
  models.n_views self = 0%nat ->
  joint_forward.forward noise pos self x = Raise RuntimeError.
Proof.
  intros Hn. unfold joint_forward.forward, joint_forward.encode.
  rewrite Hn. reflexivity.
Qed.
End joint_forward_facts.

(** Two views of one feature, fused by their mean. *)
Lemma example_joint_forward :
  exists fwd,
    joint_forward.forward (H := example_networks) (fun _ => 0) 0
      (example_joint [1; 1]%nat 1 1 0 false) [[[1]]; [[3]]] = Ok fwd.
Proof. eexists. cbn. reflexivity. Qed.

Lemma joint_forward_fits_loss_witness :
  exists fwd,
    joint_forward.forward (H := example_networks) (fun _ => 0) 0
      (example_joint [1; 1]%nat 1 1 0 false) [[[1]]; [[3]]] = Ok fwd /\
    length (models.joint_vae.x_recon fwd) = 2%nat /\
    fits_joint (example_joint [1; 1]%nat 1 1 0 false) [[[1]]; [[3]]] fwd.
Proof.
  destruct example_joint_forward as [fwd E].
  exists fwd. split; [exact E|].
  exact (proj2 (joint_forward_fits_loss (H := example_networks) _ _ _ _ _ E)).
Defined.

Lemma joint_forward_shared_latent_witness :
  exists fwd z,
    joint_forward.forward (H := example_networks) (fun _ => 0) 0
      (example_joint [1; 1]%nat 1 1 0 false) [[[1]]; [[3]]] = Ok fwd /\
    models.joint_vae.reparameterise (fun _ => 0) 0
      (example_joint [1; 1]%nat 1 1 0 false) (models.joint_vae.mu fwd)
      (models.joint_vae.logvar fwd) = Ok z.
Proof.
  destruct example_joint_forward as [fwd E].
  destruct (joint_forward_shared_latent (H := example_networks) _ _ _ _ _ E)
    as (z & Ez & _).
  exists fwd, z. split; [exact E|exact Ez].
Defined.

Lemma joint_forward_no_views_witness :
  joint_forward.forward (H := example_networks) (fun _ => 0) 0
    (example_joint [] 1 1 0 false) [[[1]]] = Raise RuntimeError.
Proof.
  apply (joint_forward_no_views (H := example_networks)). reflexivity.
Defined.

(** ** The forward pass of the per-view model *)

Lemma for_range_snoc_state {A T} (P : nat -> A -> Prop) (idx : list nat)
      (body : nat -> list A * T -> result (list A * T)) :
  (forall i acc acc', body i acc = Ok acc' ->
     exists a, acc'.1 = acc.1 ++ [a] /\ P i a) ->
  forall acc out,
    for_range idx body acc = Ok out ->
    exists l, out.1 = acc.1 ++ l /\ Forall2 P idx l.
Proof.
  intros Hb. induction idx as [|i idx IH]; intros acc out E; cbn in E.
  - injection E as <-. exists []. rewrite app_nil_r. split; [done|constructor].
  - apply bind_Ok_inv in E as (acc1 & E1 & E).
    apply Hb in E1 as (a & Ha1 & Ha).
    apply IH in E as (l & -> & Hl).
    exists (a :: l). rewrite Ha1, <- app_assoc. split; [done|].
    constructor; done.
Qed.

Section vae_forward_facts.
Context `{networks}.

Lemma vae_encode_inv self x mu logvar :
  vae_forward.encode self x = Ok (mu, logvar) ->
  (models.n_views self <= length x)%nat /\
  length mu = models.n_views self /\ length logvar = models.n_views self.
Proof.
  unfold vae_forward.encode. intros El.
  apply (for_range_snoc2
           (fun i (m lv : tensor) => is_Some (x !! i))) in El.
  - destruct El as (l & [= -> ->] & HF).
    apply Forall2_range in HF as [Hlen Hall]. cbn.
    rewrite !length_map. split; [|done].
    apply all_below_le. intros i Hi.
    destruct (Hall i Hi) as (_ & _ & Hx). done.
  - intros i [a1 a2] acc' Eb.
    apply bind_Ok_inv in Eb as (e & _ & Eb).
    apply bind_Ok_inv in Eb as (xi & Exi & Eb).
    apply bind_Ok_inv in Eb as ([m lv] & _ & Eb). injection Eb as <-.
    apply getitem_Ok in Exi. eauto.
Qed.

Lemma vae_decode_inv self z recon :
  vae_forward.decode self z = Ok recon ->
  length recon = models.n_views self /\
  forall i j, (i < models.n_views self)%nat ->
    (j < models.n_views self)%nat ->
    exists dec zj row d,
      models.decoders self !! i = Some dec /\ z !! j = Some zj /\
      recon !! i = Some row /\ length row = models.n_views self /\
      row !! j = Some d /\ decoder_forward i dec zj = Ok d.
Proof.
  unfold vae_forward.decode. intros E.
  apply (for_range_snoc
           (fun i row =>
              mapM (fun j =>
                      d ← getitem (models.decoders self) i;
                      zj ← getitem z j;
                      decoder_forward i d zj)
                   (range (models.n_views self)) = Ok row)) in E.
  - destruct E as (l & -> & HF). cbn.
    apply Forall2_range in HF as [Hlen Hall]. split; [done|].
    intros i j Hi Hj. destruct (Hall i Hi) as (row & Hrow & Em).
    apply mapM_Ok_Forall2, Forall2_range in Em as [Hrl Hr].
    destruct (Hr j Hj) as (d & Hd & Eb).
    apply bind_Ok_inv in Eb as (dec & Edec & Eb).
    apply bind_Ok_inv in Eb as (zj & Ezj & Eb).
    apply getitem_Ok in Edec, Ezj.
    exists dec, zj, row, d. done.
  - intros i acc acc' Eb.
    apply bind_Ok_inv in Eb as (row & Er & Eb). injection Eb as <-. eauto.
Qed.

Lemma vae_forward_inv noise pos self x fwd :
  vae_forward.forward noise pos self x = Ok fwd ->
  vae_forward.encode self x
  = Ok (models.vae.mu fwd, models.vae.logvar fwd) /\
  exists z,
    vae_forward.reparameterise noise pos self (models.vae.mu fwd)
      (models.vae.logvar fwd) = Ok z /\
    vae_forward.decode self z = Ok (models.vae.x_recon fwd).
Proof.
  unfold vae_forward.forward. intros E.
  apply bind_Ok_inv in E as ([mu logvar] & Eenc & E).
  apply bind_Ok_inv in E as (z & Ez & E).
  apply bind_Ok_inv in E as (recon & Edec & E). injection E as <-.
  cbn. eauto.
Qed.

(** X16.  What the per-view [forward] returns has every entry
    [loss_function] reads: whenever [forward(x)] returns, [x] holds a
    tensor for each view, [mu], [logvar] and [x_recon] have exactly one
    entry per view, and every row of [x_recon] has one entry per view. *)
Theorem vae_forward_fits_loss (noise : nat -> R) (pos : nat)
        (self : models.VAE) (x : list tensor) (fwd : models.vae.fwd_rtn) :
  vae_forward.forward noise pos self x = Ok fwd ->
  (models.n_views self <= length x)%nat /\
  length (models.vae.mu fwd) = models.n_views self /\
  length (models.vae.logvar fwd) = models.n_views self /\
  length (models.vae.x_recon fwd) = models.n_views self /\
  Forall (fun row => length row = models.n_views self)
         (models.vae.x_recon fwd) /\
  fits_vae self x fwd.
Proof.
  intros E. apply vae_forward_inv in E as (Eenc & z & _ & Edec).
  apply vae_encode_inv in Eenc as (Hx & Hmu & Hlv).
  apply vae_decode_inv in Edec as [Hlen Hall].
  split; [done|]. split; [done|]. split; [done|]. split; [done|]. split.
  - apply Forall_lookup. intros i row Hrow.
    assert (i < models.n_views self)%nat as Hi
      by (rewrite <- Hlen; eapply lookup_lt_Some, Hrow).
    destruct (Hall i i Hi Hi) as (_ & _ & row' & _ & _ & _ & Hrow' & Hrl & _).
    congruence.
  - split; [done|]. split; [lia|]. split; [lia|].
    intros i Hi.
    destruct (Hall i i Hi Hi) as (_ & _ & row & _ & _ & _ & Hrow & Hrl & _).
    exists row. split; [done|lia].
Qed.

(** X17.  The per-view [forward] reconstructs every view from every
    latent: [x_recon] is an [n_views] by [n_views] matrix whose entry
    [(i, j)] is what decoder [i] returns on the latent of view [j]. *)
Theorem vae_forward_cross_reconstruction (noise : nat -> R) (pos : nat)
        (self : models.VAE) (x : list tensor) (fwd : models.vae.fwd_rtn) :
  vae_forward.forward noise pos self x = Ok fwd ->
  exists z,
    vae_forward.reparameterise noise pos self (models.vae.mu fwd)
      (models.vae.logvar fwd) = Ok z /\
    forall i j, (i < models.n_views self)%nat ->
      (j < models.n_views self)%nat ->
      exists dec zj row d,
        models.decoders self !! i = Some dec /\ z !! j = Some zj /\
        models.vae.x_recon fwd !! i = Some row /\
        length row = models.n_views self /\
        row !! j = Some d /\ decoder_forward i dec zj = Ok d.
Proof.
  intros E. apply vae_forward_inv in E as (_ & z & Ez & Edec).
  exists z. split; [done|]. apply vae_decode_inv, Edec.
Qed.
End vae_forward_facts.

Lemma example_vae_forward :
  exists fwd,
    vae_forward.forward (H := example_networks) (fun _ => 0) 0
      (example_vae [1; 1]%nat 1 1 0 false) [[[1]]; [[3]]] = Ok fwd.
Proof. eexists. cbn. reflexivity. Qed.

Lemma vae_forward_fits_loss_witness :
  exists fwd,
    vae_forward.forward (H := example_networks) (fun _ => 0) 0
      (example_vae [1; 1]%nat 1 1 0 false) [[[1]]; [[3]]] = Ok fwd /\
    length (models.vae.x_recon fwd) = 2%nat /\
    Forall (fun row => length row = 2%nat) (models.vae.x_recon fwd).
Proof.
  destruct example_vae_forward as [fwd E].
  exists fwd. split; [exact E|].
  destruct (vae_forward_fits_loss (H := example_networks) _ _ _ _ _ E)
    as (_ & _ & _ & Hlen & Hrows & _).
  exact (conj Hlen Hrows).
Defined.

Lemma vae_forward_cross_reconstruction_witness :
  exists fwd z,
    vae_forward.forward (H := example_networks) (fun _ => 0) 0
      (example_vae [1; 1]%nat 1 1 0 false) [[[1]]; [[3]]] = Ok fwd /\
    vae_forward.reparameterise (fun _ => 0) 0
      (example_vae [1; 1]%nat 1 1 0 false) (models.vae.mu fwd)
      (models.vae.logvar fwd) = Ok z.
Proof.
  destruct example_vae_forward as [fwd E].
  destruct (vae_forward_cross_reconstruction (H := example_networks)
              _ _ _ _ _ E) as (z & Ez & _).
  exists fwd, z. split; [exact E|exact Ez].
Defined.

(** ** [reparameterise] of the per-view model *)

Lemma size_take_S (mu : list tensor) (k j : nat) (m : tensor) :
  mu !! k = Some m ->
  length (concat (concat (take (S j) (drop k mu))))
  = (length (concat m)
     + length (concat (concat (take j (drop (S k) mu)))))%nat.
Proof.
  intros Hk. rewrite (drop_S mu m k Hk). cbn [take concat].
  rewrite concat_app, length_app. done.
Qed.

Lemma vae_reparameterise_loop (noise : nat -> R) (self : models.VAE)
      (mu logvar : list tensor) (len : nat) :
  forall k acc p out,
    for_range (seq k len)
      (fun i '(z, pos) =>
         lv ← getitem logvar i;
         let std := tmap (fun v => exp (0.5 * v)) lv in
         m ← getitem mu i;
         let eps := randn_like noise pos m in
         es ← tensor_op Rmult eps std;
         zi ← tensor_op Rplus m es;
         Ok (z ++ [zi], (pos + length (concat m))%nat))
      (acc, p) = Ok out ->
    exists l,
      out.1 = acc ++ l /\ length l = len /\
      forall j, (j < len)%nat ->
        exists m lv zi,
          mu !! (k + j)%nat = Some m /\ logvar !! (k + j)%nat = Some lv /\
          l !! j = Some zi /\
          models.joint_vae.reparameterise noise
            (p + length (concat (concat (take j (drop k mu)))))%nat
            self m lv = Ok zi.
Proof.
  induction len as [|len IH]; intros k acc p out E.
  - cbn in E. injection E as <-. exists []. cbn. rewrite app_nil_r.
    split; [done|]. split; [done|]. intros j Hj. lia.
  - cbn [seq for_range] in E.
    apply bind_Ok_inv in E as ([acc1 p1] & E1 & E).
    apply bind_Ok_inv in E1 as (lv & Elv & E1). cbn zeta in E1.
    apply bind_Ok_inv in E1 as (m & Em & E1).
    apply bind_Ok_inv in E1 as (es & Ees & E1).
    apply bind_Ok_inv in E1 as (zk & Ezk & E1).
    injection E1 as <- <-.
    apply getitem_Ok in Elv, Em.
    apply IH in E as (l & Hout & Hlen & Hall).
    exists (zk :: l). rewrite Hout, <- app_assoc.
    split; [done|]. split; [cbn; lia|].
    intros [|j] Hj.
    + exists m, lv, zk. rewrite Nat.add_0_r. cbn [take concat length].
      rewrite Nat.add_0_r. split; [done|]. split; [done|]. split; [done|].
      unfold models.joint_vae.reparameterise. rewrite Ees. exact Ezk.
    + destruct (Hall j) as (m' & lv' & zi & Hm' & Hlv' & Hzi & Er); [lia|].
      exists m', lv', zi.
      replace (k + S j)%nat with (S k + j)%nat by lia.
      split; [done|]. split; [done|]. split; [done|].
      rewrite (size_take_S mu k j m Em), Nat.add_assoc. exact Er.
Qed.

(** X18.  The per-view [reparameterise] is the joint one applied view by
    view, each view reading the random source where the views before it
    stopped: it returns as many latents as [mu] has entries, it needs a
    [logvar] for each of them, and latent [i] is what the joint
    [reparameterise] returns on [mu[i]] and [logvar[i]] after as many
    draws as the earlier means have entries. *)
Theorem vae_reparameterise_per_view (noise : nat -> R) (pos : nat)
        (self : models.VAE) (mu logvar z : list tensor) :
  vae_forward.reparameterise noise pos self mu logvar = Ok z ->
  length z = length mu /\
  (length mu <= length logvar)%nat /\
  forall i m, mu !! i = Some m ->
    exists lv zi,
      logvar !! i = Some lv /\ z !! i = Some zi /\
      models.joint_vae.reparameterise noise
        (pos + length (concat (concat (take i mu))))%nat self m lv = Ok zi.
Proof.
  unfold vae_forward.reparameterise, range. intros E.
  apply bind_Ok_inv in E as (out & El & E). injection E as <-.
  apply (vae_reparameterise_loop noise self) in El
    as (l & Hout & Hlen & Hall).
  cbn in Hout. rewrite Hout. split; [done|].
  assert (forall i m, mu !! i = Some m ->
            exists lv zi,
              logvar !! i = Some lv /\ l !! i = Some zi /\
              models.joint_vae.reparameterise noise
                (pos + length (concat (concat (take i mu))))%nat self m lv
              = Ok zi) as Hper.
  { intros i m Hm.
    destruct (Hall i) as (m' & lv & zi & Hm' & Hlv & Hzi & Er);
      [eapply lookup_lt_Some, Hm|].
    cbn in Hm', Hlv. rewrite Hm in Hm'. injection Hm' as <-.
    rewrite drop_0 in Er. eauto. }
  split; [|exact Hper].
  apply all_below_le. intros i Hi.
  destruct (lookup_lt_is_Some_2 mu i Hi) as [m Hm].
  destruct (Hper i m Hm) as (lv & _ & Hlv & _). eauto.
Qed.

Lemma vae_reparameterise_per_view_witness :
  exists z,
    vae_forward.reparameterise (fun k => INR k) 0
      (example_vae [1; 1]%nat 1 1 0 false) [[[1; 2]]; [[3]]]
      [[[0; 0]]; [[0]]] = Ok z /\
    length z = 2%nat.
Proof.
  assert (exists z,
            vae_forward.reparameterise (fun k => INR k) 0
              (example_vae [1; 1]%nat 1 1 0 false) [[[1; 2]]; [[3]]]
              [[[0; 0]]; [[0]]] = Ok z) as [z E]
    by (eexists; cbn; reflexivity).
  exists z. split; [exact E|].
  exact (proj1 (vae_reparameterise_per_view _ _ _ _ _ _ E)).
Defined.

(** ** Models without views *)

Section no_views.
Context `{networks} `{kl_utils}.

(** X19.  A per-view model without views runs: whatever [x] is, its
    [forward] returns three empty lists and its [loss_function] returns
    [total], [kl] and [ll] all equal to 0. *)
Theorem vae_no_views (noise : nat -> R) (pos : nat) (self : models.VAE)
        (x : list tensor) :
  models.n_views self = 0%nat ->
  vae_forward.forward noise pos self x = Ok (models.vae.mk_fwd_rtn [] [] []) /\
  forall fwd,
    exists d,
      models.vae.loss_function self x fwd = Ok d /\
      d !! "total" = Some 0 /\ d !! "kl" = Some 0 /\ d !! "ll" = Some 0.
Proof.
  intros Hn. split.
  - unfold vae_forward.forward, vae_forward.encode,
      vae_forward.reparameterise, vae_forward.decode.
    rewrite Hn. reflexivity.
  - intros fwd. unfold models.vae.loss_function, models.vae.calc_kl,
      models.vae.calc_ll.
    rewrite Hn. cbn. eexists. split; [reflexivity|].
    split; [|split].
    + rewrite lookup_insert_eq. f_equal. lra.
    + rewrite lookup_insert_ne, lookup_insert_eq by done. f_equal. lra.
    + rewrite !lookup_insert_ne by done. apply lookup_singleton_eq.
Qed.
End no_views.

Lemma vae_no_views_witness :
  vae_forward.forward (H := example_networks) (fun _ => 0) 0
    (example_vae [] 1 1 0 false) [[[1]]]
  = Ok (models.vae.mk_fwd_rtn [] [] []).
Proof.
  exact (proj1 (vae_no_views (H := example_networks)
                  (H0 := example_kl_utils) (fun _ => 0) 0
                  (example_vae [] 1 1 0 false) [[[1]]] eq_refl)).
Defined.

(** ** DVCCA: encoders and optimisers *)

Section dvcca_setencoders_facts.
Context {Prior : Type}.

(** X20.  [_setencoders] needs a first view: on an empty [input_dim] it
    raises [IndexError].  Without private composition it succeeds
    otherwise, builds the one shared encoder for view 0 and leaves [z_dim]
    as configured; the gate it leaves has [z_dim] columns when the model
    is sparse with a threshold other than 0. *)
Theorem setencoders_shared_only (noise : nat -> R)
        (self : dvcca.DVCCA Prior) :
  (dvcca.input_dim self = [] ->
   dvcca._setencoders noise self = Raise IndexError) /\
  (forall d0 ds,
     dvcca.input_dim self = d0 :: ds -> dvcca.private self = false ->
     exists self',
       dvcca._setencoders noise self = Ok self' /\
       dvcca.z_dim self' = dvcca.z_dim self /\
       dvcca.private_encoders self' = dvcca.private_encoders self /\
       dvcca.encoders self'
       = [dvcca.mkEncoder d0 (dvcca.z_dim self) (dvcca.sparse self')
            (dvcca.log_alpha self')] /\
       (dvcca.sparse self' = true <->
        dvcca.sparse self = true /\ dvcca.threshold self <> 0) /\
       (dvcca.sparse self' = true ->
        exists la, dvcca.log_alpha self' = Some la /\
                   length la = dvcca.z_dim self) /\
       (dvcca.sparse self' = false -> dvcca.log_alpha self' = None)).
Proof.
  split.
  - intros Hids. unfold dvcca._setencoders. rewrite Hids. reflexivity.
  - intros d0 ds Hids Hp. unfold dvcca._setencoders.
    rewrite Hids, Hp. cbn [getitem lookup list_lookup mbind result_bind].
    eexists. split; [reflexivity|]. cbn.
    split; [done|]. split; [done|].
    destruct (dvcca.sparse self), (Req_dec_T (dvcca.threshold self) 0);
      cbn; (split; [done|]); (split; [|split]);
      try done; try tauto; try (intros _; eexists; split; [done|];
                                apply FloatTensor_normal__length);
      split; intros Hx; try done; destruct Hx; done.
Qed.

(** X21.  With private composition on a sparse model, the gate that
    [_setencoders] hands to the shared and to every private encoder is not
    the gate it leaves on the model: the encoders hold the first draw, of
    [z_dim] columns, while [self.log_alpha] is a second draw of
    [2 * z_dim] columns, taken from the numbers that follow the first. *)
Theorem setencoders_private_gate_mismatch (noise : nat -> R)
        (self self' : dvcca.DVCCA Prior) :
  dvcca.private self = true -> dvcca.sparse self = true ->
  dvcca.threshold self <> 0 ->
  dvcca._setencoders noise self = Ok self' ->
  dvcca.log_alpha self'
  = Some (draw noise (dvcca.z_dim self) (2 * dvcca.z_dim self)) /\
  Forall (fun e => dvcca.enc_log_alpha e
                   = Some (draw noise 0 (dvcca.z_dim self)))
         (dvcca.encoders self' ++ dvcca.private_encoders self') /\
  ((0 < dvcca.z_dim self)%nat ->
   Forall (fun e => dvcca.enc_log_alpha e <> dvcca.log_alpha self')
          (dvcca.encoders self' ++ dvcca.private_encoders self')).
Proof.
  replace (2 * dvcca.z_dim self)%nat
    with (dvcca.z_dim self + dvcca.z_dim self)%nat by lia.
  intros Hp Hs Hthr. unfold dvcca._setencoders.
  destruct (dvcca.input_dim self) as [|d0 ds]; [discriminate|].
  cbn [getitem lookup list_lookup mbind result_bind].
  rewrite Hp, Hs. destruct (Req_dec_T (dvcca.threshold self) 0); [done|].
  cbn. intros [= <-]. cbn.
  assert (Forall (fun e => dvcca.enc_log_alpha e
                           = Some (draw noise 0 (dvcca.z_dim self)))
            (dvcca.mkEncoder d0 (dvcca.z_dim self) true
               (Some (FloatTensor_normal_ noise 0 (dvcca.z_dim self)))
             :: dvcca.mkEncoder d0 (dvcca.z_dim self) true
                  (Some (FloatTensor_normal_ noise 0 (dvcca.z_dim self)))
             :: map (fun d => dvcca.mkEncoder d (dvcca.z_dim self) true
                       (Some (FloatTensor_normal_ noise 0 (dvcca.z_dim self))))
                    ds)) as Henc.
  { constructor; [done|]. constructor; [done|].
    apply Forall_map, Forall_forall. done. }
  split; [|split; [exact Henc|]].
  - reflexivity.
  - intros Hz. eapply Forall_impl; [exact Henc|]. cbn.
    intros e -> [= E].
    apply (f_equal length) in E. unfold FloatTensor_normal_, draw in E.
    rewrite !length_map, !length_seq in E. lia.
Qed.
End dvcca_setencoders_facts.

Lemma setencoders_shared_only_witness :
  exists self',
    dvcca._setencoders (fun _ => 0) example_dvcca = Ok self' /\
    dvcca.z_dim self' = 2%nat.
Proof.
  destruct (proj2 (setencoders_shared_only (fun _ => 0) example_dvcca)
              10%nat [15%nat] eq_refl eq_refl) as (self' & E & Hz & _).
  exists self'. split; [exact E|exact Hz].
Defined.

Lemma setencoders_private_gate_mismatch_witness :
  exists self',
    dvcca._setencoders (fun k => INR k) example_dvcca_private = Ok self' /\
    dvcca.log_alpha self' = Some (draw (fun k => INR k) 2 4).
Proof.
  assert (exists self',
            dvcca._setencoders (fun k => INR k) example_dvcca_private
            = Ok self') as [self' E]
    by (eexists; reflexivity).
  exists self'. split; [exact E|].
  refine (proj1 (setencoders_private_gate_mismatch (fun k => INR k)
                   example_dvcca_private self' eq_refl eq_refl _ E)).
  cbn. lra.
Defined.

Section dvcca_optimizers.
Context {Prior : Type}.

Lemma elem_of_map_inv {A B} (f : A -> B) (l : list A) (b : B) :
  b ∈ map f l -> exists a, b = f a /\ a ∈ l.
Proof. intros Hin. exact (proj1 (list_elem_of_fmap f l b) Hin). Qed.

Lemma NoDup_map_inj {A B} (f : A -> B) (l : list A) :
  (forall a1 a2, f a1 = f a2 -> a1 = a2) -> NoDup l -> NoDup (map f l).
Proof.
  intros Hinj. induction 1 as [|a l Hnin Hnd IH]; cbn; constructor; [|done].
  intros Hin. apply elem_of_map_inv in Hin as (a' & Heq & Hin).
  apply Hinj in Heq as ->. done.
Qed.

Lemma bind_Ok {A B} (a : A) (k : A -> result B) : (Ok a ≫= k) = k a.
Proof. reflexivity. Qed.

Lemma decoders_getitem_Ok (self : dvcca_forward.Model Prior) i :
  (i < dvcca_forward.n_decoders self)%nat ->
  dvcca_forward.decoders_getitem self i = Ok ().
Proof.
  intros Hi. unfold dvcca_forward.decoders_getitem.
  destruct (Nat.ltb_spec i (dvcca_forward.n_decoders self)); [done|lia].
Qed.

Lemma decoders_getitem_inv (self : dvcca_forward.Model Prior) i u :
  dvcca_forward.decoders_getitem self i = Ok u ->
  (i < dvcca_forward.n_decoders self)%nat.
Proof.
  unfold dvcca_forward.decoders_getitem.
  destruct (Nat.ltb_spec i (dvcca_forward.n_decoders self)); [done|].
  discriminate.
Qed.

Lemma concat_singletons (f : nat -> dvcca_forward.params) (rate : R)
      (l : list nat) :
  concat (map dvcca_forward.param_groups
              (map (fun i => dvcca_forward.mkAdam [f i] rate) l))
  = map f l.
Proof. induction l as [|a l IH]; [done|]. cbn. rewrite IH. done. Qed.

Lemma all_below_range n m : (forall i, (i < n)%nat -> (i < m)%nat) ->
                            (n <= m)%nat.
Proof.
  intros Hall. destruct n as [|n]; [lia|]. specialize (Hall n). lia.
Qed.

Lemma configure_optimizers_Ok (self : dvcca_forward.Model Prior) :
  let a := dvcca_forward.attrs self in
  let n := dvcca.n_views a in
  let rate := dvcca.learning_rate a in
  dvcca.encoders a <> [] ->
  (n <= dvcca_forward.n_decoders self)%nat ->
  (dvcca.private a = true -> (n <= length (dvcca.private_encoders a))%nat) ->
  dvcca_forward.configure_optimizers self
  = Ok ([dvcca_forward.mkAdam [dvcca_forward.Encoders 0] rate]
        ++ (if dvcca.private a
            then map (fun i => dvcca_forward.mkAdam
                                 [dvcca_forward.PrivateEncoders i] rate)
                     (range n)
            else [])
        ++ map (fun i => dvcca_forward.mkAdam [dvcca_forward.Decoders i] rate)
               (range n)).
Proof.
  intros a n rate.
  intros Hne Hd Hp. unfold dvcca_forward.configure_optimizers.
  cbn zeta. fold a. fold n. fold rate.
  assert (exists e0, getitem (dvcca.encoders a) 0 = Ok e0) as [e0 He0].
  { destruct (dvcca.encoders a); [done|]. cbn. eauto. }
  assert (mapM (fun i =>
                  _ ← dvcca_forward.decoders_getitem self i;
                  Ok (dvcca_forward.mkAdam [dvcca_forward.Decoders i] rate))
               (range n)
          = Ok (map (fun i => dvcca_forward.mkAdam
                                [dvcca_forward.Decoders i] rate)
                    (range n))) as Hdec.
  { apply mapM_Ok. intros i Hi%elem_of_range.
    rewrite decoders_getitem_Ok by lia. done. }
  destruct (dvcca.private a) eqn:Hpr.
  - assert (mapM (fun i =>
                    _ ← getitem (dvcca.private_encoders a) i;
                    Ok (dvcca_forward.mkAdam
                          [dvcca_forward.PrivateEncoders i] rate))
                 (range n)
            = Ok (map (fun i => dvcca_forward.mkAdam
                                  [dvcca_forward.PrivateEncoders i] rate)
                      (range n))) as Hpriv.
    { apply mapM_Ok. intros i Hi%elem_of_range.
      destruct (getitem_lt (dvcca.private_encoders a) i) as (? & -> & _);
        [specialize (Hp eq_refl); lia|done]. }
    rewrite He0, bind_Ok, Hpriv, bind_Ok, Hdec, bind_Ok. done.
  - rewrite He0, bind_Ok, Hdec, bind_Ok. done.
Qed.

(** X22.  [configure_optimizers] of DVCCA returns, in this order, one
    optimiser for the shared encoder, then with private composition one
    for each private encoder, then one for each decoder; every optimiser
    holds the parameters of a single module and no module is held twice.
    It returns exactly when there is a shared encoder, a decoder for each
    view and, with private composition, a private encoder for each
    view. *)
Theorem dvcca_configure_optimizers (self : dvcca_forward.Model Prior) :
  let a := dvcca_forward.attrs self in
  let n := dvcca.n_views a in
  let rate := dvcca.learning_rate a in
  let expected :=
    [dvcca_forward.mkAdam [dvcca_forward.Encoders 0] rate]
    ++ (if dvcca.private a
        then map (fun i => dvcca_forward.mkAdam
                             [dvcca_forward.PrivateEncoders i] rate)
                 (range n)
        else [])
    ++ map (fun i => dvcca_forward.mkAdam [dvcca_forward.Decoders i] rate)
           (range n) in
  (dvcca.encoders a <> [] ->
   (n <= dvcca_forward.n_decoders self)%nat ->
   (dvcca.private a = true -> (n <= length (dvcca.private_encoders a))%nat) ->
   dvcca_forward.configure_optimizers self = Ok expected) /\
  (forall os,
     dvcca_forward.configure_optimizers self = Ok os ->
     os = expected /\
     length os = (if dvcca.private a then 1 + 2 * n else 1 + n)%nat /\
     NoDup (concat (map dvcca_forward.param_groups os)) /\
     dvcca.encoders a <> [] /\
     (n <= dvcca_forward.n_decoders self)%nat /\
     (dvcca.private a = true ->
      (n <= length (dvcca.private_encoders a))%nat)).
Proof.
  intros a n rate expected.
  pose proof (configure_optimizers_Ok self) as Hok.
  cbn zeta in Hok. fold a in Hok. fold n in Hok. fold rate in Hok.
  fold expected in Hok.
  split; [exact Hok|].
  intros os E.
  assert (dvcca.encoders a <> [] /\
          (n <= dvcca_forward.n_decoders self)%nat /\
          (dvcca.private a = true ->
           (n <= length (dvcca.private_encoders a))%nat)) as (Hne & Hd & Hp).
  { unfold dvcca_forward.configure_optimizers in E.
    cbn zeta in E. fold a in E. fold n in E. fold rate in E.
    destruct (dvcca.private a) eqn:Hpr.
    - apply bind_Ok_inv in E as (e0 & He0 & E).
      apply bind_Ok_inv in E as (priv & Hpriv & E).
      apply bind_Ok_inv in E as (dec & Hdec & _).
      split; [|split].
      + intros Hnil. rewrite Hnil in He0. discriminate.
      + apply all_below_range. intros i Hi.
        apply mapM_Ok_Forall2, Forall2_range in Hdec as [_ Hall].
        destruct (Hall i Hi) as (o & _ & Eb).
        apply bind_Ok_inv in Eb as (u & Eu & _).
        eapply decoders_getitem_inv, Eu.
      + intros _. apply all_below_le. intros i Hi.
        apply mapM_Ok_Forall2, Forall2_range in Hpriv as [_ Hall].
        destruct (Hall i Hi) as (o & _ & Eb).
        apply bind_Ok_inv in Eb as (e & Ee & _).
        apply getitem_Ok in Ee. eauto.
    - apply bind_Ok_inv in E as (e0 & He0 & E).
      apply bind_Ok_inv in E as (dec & Hdec & _).
      split; [|split; [|discriminate]].
      + intros Hnil. rewrite Hnil in He0. discriminate.
      + apply all_below_range. intros i Hi.
        apply mapM_Ok_Forall2, Forall2_range in Hdec as [_ Hall].
        destruct (Hall i Hi) as (o & _ & Eb).
        apply bind_Ok_inv in Eb as (u & Eu & _).
        eapply decoders_getitem_inv, Eu. }
  rewrite (Hok Hne Hd Hp) in E. injection E as <-.
  split; [done|]. split; [|split; [|done]].
  - unfold expected. destruct (dvcca.private a);
      cbn; rewrite ?length_app, !length_map, !length_range; lia.
  - unfold expected. rewrite !map_app, !concat_app. cbn [map concat app].
    rewrite (concat_singletons dvcca_forward.Decoders rate).
    assert (NoDup (map dvcca_forward.Decoders (range n))) as Hnd.
    { apply NoDup_map_inj; [intros i j [=]; done|apply NoDup_seq]. }
    destruct (dvcca.private a).
    + rewrite (concat_singletons dvcca_forward.PrivateEncoders rate).
      apply NoDup_cons. split.
      * intros Hin. apply elem_of_app in Hin as [Hin|Hin];
          apply elem_of_map_inv in Hin as (i & Hi & _); discriminate.
      * apply NoDup_app. split; [|split; [|exact Hnd]].
        -- apply NoDup_map_inj; [intros i j [=]; done|apply NoDup_seq].
        -- intros p Hp1 Hp2.
           apply elem_of_map_inv in Hp1 as (i & -> & _).
           apply elem_of_map_inv in Hp2 as (j & Hj & _). discriminate.
    + cbn. apply NoDup_cons. split; [|exact Hnd].
      intros Hin. apply elem_of_map_inv in Hin as (i & Hi & _).
      discriminate.
Qed.
End dvcca_optimizers.

Lemma dvcca_configure_optimizers_witness :
  dvcca_forward.configure_optimizers
    (dvcca_forward.mkModel example_dvcca 2 false)
  = Ok [dvcca_forward.mkAdam [dvcca_forward.Encoders 0] 0.001;
        dvcca_forward.mkAdam [dvcca_forward.Decoders 0] 0.001;
        dvcca_forward.mkAdam [dvcca_forward.Decoders 1] 0.001].
Proof.
  apply (proj1 (dvcca_configure_optimizers
                  (dvcca_forward.mkModel example_dvcca 2 false))).
  - discriminate.
  - cbn. lia.
  - discriminate.
Defined.

Section dvcca_setencoders_then_optimizers.
Context {Prior : Type}.

Lemma setencoders_Ok_attrs (noise : nat -> R) (a a' : dvcca.DVCCA Prior) :
  dvcca._setencoders noise a = Ok a' ->
  dvcca.encoders a' <> [] /\
  dvcca.private a' = dvcca.private a /\
  dvcca.n_views a' = dvcca.n_views a /\
  dvcca.learning_rate a' = dvcca.learning_rate a /\
  (dvcca.private a = true ->
   length (dvcca.private_encoders a') = length (dvcca.input_dim a)).
Proof.
  unfold dvcca._setencoders. intros E.
  apply bind_Ok_inv in E as (d0 & _ & E).
  destruct (dvcca.private a) eqn:Hp; injection E as <-; cbn;
    rewrite ?length_map; done.
Qed.

(** X23.  [_setencoders] leaves what [configure_optimizers] needs: after
    a [_setencoders] that returned, on a model with no more views than
    entries of [input_dim] and with a decoder for each view,
    [configure_optimizers] returns [1 + n_views] optimisers, or
    [1 + 2 * n_views] with private composition. *)
Theorem setencoders_then_configure_optimizers (noise : nat -> R)
        (a a' : dvcca.DVCCA Prior) (n_dec : nat) (training : bool) :
  dvcca._setencoders noise a = Ok a' ->
  (dvcca.n_views a <= length (dvcca.input_dim a))%nat ->
  (dvcca.n_views a <= n_dec)%nat ->
  exists os,
    dvcca_forward.configure_optimizers
      (dvcca_forward.mkModel a' n_dec training) = Ok os /\
    length os = (if dvcca.private a then 1 + 2 * dvcca.n_views a
                 else 1 + dvcca.n_views a)%nat.
Proof.
  intros E Hin Hdec.
  apply setencoders_Ok_attrs in E as (Hne & Hp & Hn & _ & Hpe).
  pose proof (configure_optimizers_Ok
                (dvcca_forward.mkModel a' n_dec training)) as Hok.
  cbn in Hok. rewrite Hp, Hn in Hok.
  eexists. split.
  - apply Hok; [done|lia|]. intros Hpr. rewrite (Hpe Hpr). lia.
  - destruct (dvcca.private a);
      cbn; rewrite ?length_app, !length_map, !length_range; lia.
Qed.
End dvcca_setencoders_then_optimizers.

Lemma setencoders_then_configure_optimizers_witness :
  exists a' os,
    dvcca._setencoders (fun k => INR k) example_dvcca_private = Ok a' /\
    dvcca_forward.configure_optimizers
      (dvcca_forward.mkModel a' 2 false) = Ok os /\
    length os = 5%nat.
Proof.
  assert (exists a',
            dvcca._setencoders (fun k => INR k) example_dvcca_private
            = Ok a') as [a' E]
    by (eexists; reflexivity).
  destruct (setencoders_then_configure_optimizers (fun k => INR k)
              example_dvcca_private a' 2 false E)
    as (os & Eos & Hlen); [cbn; lia|cbn; lia|].
  exists a', os. split; [exact E|]. split; [exact Eos|exact Hlen].
Defined.

(** ** DVCCA: the forward pass *)

Lemma cat1_inv a b c :
  cat1 a b = Ok c -> length a = length b /\ c = zip_with app a b.
Proof.
  unfold cat1. destruct (Nat.eqb_spec (length a) (length b)); [|done].
  intros [= <-]. done.
Qed.

Section dvcca_forward_facts.
Context {Prior : Type} `{dvcca_forward.networks Prior}.

Lemma dvcca_encode_shared (self : dvcca_forward.Model Prior) x qz :
  dvcca_forward.encode self x = Ok qz ->
  exists e0 x0 mu logvar,
    dvcca.encoders (dvcca_forward.attrs self) !! 0%nat = Some e0 /\
    x !! 0%nat = Some x0 /\
    dvcca_forward.encoder_forward 0 e0 x0 = Ok (mu, logvar) /\
    (if dvcca.private (dvcca_forward.attrs self) then
       for_range (range (dvcca.n_views (dvcca_forward.attrs self)))
         (fun i qz_xs =>
            e ← getitem (dvcca.private_encoders (dvcca_forward.attrs self)) i;
            xi ← getitem x i;
            '(mu_p, logvar_p) ← dvcca_forward.private_encoder_forward i e xi;
            mu_ ← cat1 mu mu_p;
            logvar_ ← cat1 logvar logvar_p;
            let qz_x :=
              dvcca_forward.enc_dist mu_ (dvcca_forward.scale_of logvar_) in
            Ok (qz_xs ++ [qz_x]))
         [] = Ok qz
     else qz = [dvcca_forward.enc_dist mu (dvcca_forward.scale_of logvar)]).
Proof.
  unfold dvcca_forward.encode. cbn zeta. intros E.
  apply bind_Ok_inv in E as (e0 & He0 & E).
  apply bind_Ok_inv in E as (x0 & Hx0 & E).
  apply bind_Ok_inv in E as ([mu logvar] & Hfw & E).
  apply getitem_Ok in He0, Hx0.
  exists e0, x0, mu, logvar. split; [done|]. split; [done|]. split; [done|].
  destruct (dvcca.private (dvcca_forward.attrs self)); [exact E|].
  injection E as <-. done.
Qed.

Lemma dvcca_encode_inv (self : dvcca_forward.Model Prior)
        (x : list tensor) (qz : list (dvcca.Posterior Prior)) :
  dvcca_forward.encode self x = Ok qz ->
  let a := dvcca_forward.attrs self in
  exists e0 x0 mu logvar,
    dvcca.encoders a !! 0%nat = Some e0 /\ x !! 0%nat = Some x0 /\
    dvcca_forward.encoder_forward 0 e0 x0 = Ok (mu, logvar) /\
    (dvcca.private a = false ->
     qz = [dvcca_forward.enc_dist mu (dvcca_forward.scale_of logvar)]) /\
    (dvcca.private a = true ->
     length qz = dvcca.n_views a /\
     (dvcca.n_views a <= length x)%nat /\
     forall i, (i < dvcca.n_views a)%nat ->
       exists e xi mu_p logvar_p,
         dvcca.private_encoders a !! i = Some e /\ x !! i = Some xi /\
         dvcca_forward.private_encoder_forward i e xi
         = Ok (mu_p, logvar_p) /\
         length mu_p = length mu /\ length logvar_p = length logvar /\
         qz !! i
         = Some (dvcca_forward.enc_dist (zip_with app mu mu_p)
                   (dvcca_forward.scale_of (zip_with app logvar logvar_p)))).
Proof.
  intros E a.
  apply dvcca_encode_shared in E as (e0 & x0 & mu & logvar & He0 & Hx0 & Hfw
                                     & E).
  fold a in E. exists e0, x0, mu, logvar.
  split; [done|]. split; [done|]. split; [done|]. split.
  - intros Hp. rewrite Hp in E. done.
  - intros Hp. rewrite Hp in E.
    apply (for_range_snoc
             (fun i q =>
                exists e xi mu_p logvar_p,
                  dvcca.private_encoders a !! i = Some e /\
                  x !! i = Some xi /\
                  dvcca_forward.private_encoder_forward i e xi
                  = Ok (mu_p, logvar_p) /\
                  length mu_p = length mu /\
                  length logvar_p = length logvar /\
                  q = dvcca_forward.enc_dist (zip_with app mu mu_p)
                        (dvcca_forward.scale_of
                           (zip_with app logvar logvar_p)))) in E.
    + destruct E as (l & -> & HF). cbn.
      apply Forall2_range in HF as [Hlen Hall]. split; [done|]. split.
      * apply all_below_le. intros i Hi.
        destruct (Hall i Hi) as (q & _ & e & xi & _ & _ & _ & Hxi & _).
        eauto.
      * intros i Hi.
        destruct (Hall i Hi)
          as (q & Hq & e & xi & mu_p & lv_p & He & Hxi & Hpf & Hl1 & Hl2 & ->).
        exists e, xi, mu_p, lv_p. done.
    + intros i acc acc' Eb.
      apply bind_Ok_inv in Eb as (e & He & Eb).
      apply bind_Ok_inv in Eb as (xi & Hxi & Eb).
      apply bind_Ok_inv in Eb as ([mu_p lv_p] & Hpf & Eb).
      apply bind_Ok_inv in Eb as (mu_ & Hmu & Eb).
      apply bind_Ok_inv in Eb as (lv_ & Hlv & Eb).
      injection Eb as <-.
      apply getitem_Ok in He, Hxi.
      apply cat1_inv in Hmu as [Hl1 ->]. apply cat1_inv in Hlv as [Hl2 ->].
      eexists. split; [reflexivity|].
      exists e, xi, mu_p, lv_p. done.
Qed.

(** X24.  [encode] of DVCCA runs the shared encoder on view 0 only.
    Without private composition it returns the one posterior built from
    that output.  With private composition it returns one posterior per
    view and has read a tensor of [x] for each of them; the location of the
    [i]-th posterior is the shared mean extended, row by row, by the
    private mean of view [i], so that all views agree on the leading
    columns, and its scale is [logvar.exp().pow(0.5)] of the log-variances
    extended in the same way. *)
Theorem dvcca_encode_structure (self : dvcca_forward.Model Prior)
        (x : list tensor) (qz : list (dvcca.Posterior Prior)) :
  dvcca_forward.encode self x = Ok qz ->
  let a := dvcca_forward.attrs self in
  exists e0 x0 mu logvar,
    dvcca.encoders a !! 0%nat = Some e0 /\ x !! 0%nat = Some x0 /\
    dvcca_forward.encoder_forward 0 e0 x0 = Ok (mu, logvar) /\
    (dvcca.private a = false ->
     qz = [dvcca_forward.enc_dist mu (dvcca_forward.scale_of logvar)]) /\
    (dvcca.private a = true ->
     length qz = dvcca.n_views a /\
     (dvcca.n_views a <= length x)%nat /\
     forall i, (i < dvcca.n_views a)%nat ->
       exists e xi mu_p logvar_p,
         dvcca.private_encoders a !! i = Some e /\ x !! i = Some xi /\
         dvcca_forward.private_encoder_forward i e xi
         = Ok (mu_p, logvar_p) /\
         length mu_p = length mu /\ length logvar_p = length logvar /\
         qz !! i
         = Some (dvcca_forward.enc_dist (zip_with app mu mu_p)
                   (dvcca_forward.scale_of (zip_with app logvar logvar_p)))).
Proof. exact (dvcca_encode_inv self x qz). Qed.

Lemma dvcca_decode_inv pos (self : dvcca_forward.Model Prior) qz px :
  dvcca_forward.decode pos self qz = Ok px ->
  length px = dvcca.n_views (dvcca_forward.attrs self) /\
  forall i, (i < dvcca.n_views (dvcca_forward.attrs self))%nat ->
    exists p, px !! i = Some [p] /\
              is_Some (qz !! (if dvcca.private (dvcca_forward.attrs self)
                              then i else 0%nat)).
Proof.
  unfold dvcca_forward.decode. cbn zeta. intros E.
  apply bind_Ok_inv in E as (out & El & E). injection E as <-.
  apply (for_range_snoc_state
           (fun i row =>
              exists p, row = [p] /\
                is_Some (qz !! (if dvcca.private (dvcca_forward.attrs self)
                                then i else 0%nat)))) in El.
  - destruct El as (l & -> & HF). cbn.
    apply Forall2_range in HF as [Hlen Hall]. split; [done|].
    intros i Hi. destruct (Hall i Hi) as (row & Hrow & p & -> & Hq). eauto.
  - intros i [acc p0] acc' Eb.
    apply bind_Ok_inv in Eb as (u & _ & Eb).
    apply bind_Ok_inv in Eb as (q & Hq & Eb).
    destruct (dvcca_forward._sample q (dvcca_forward._training self) p0)
      as [z p1].
    apply bind_Ok_inv in Eb as (x_out & _ & Eb). injection Eb as <-.
    apply getitem_Ok in Hq. cbn. eauto.
Qed.

Lemma dvcca_forward_inv pos (self : dvcca_forward.Model Prior) x fwd :
  dvcca_forward.forward pos self x = Ok fwd ->
  dvcca_forward.encode self x = Ok (dvcca.qz_x fwd) /\
  dvcca_forward.decode pos self (dvcca.qz_x fwd) = Ok (dvcca.px_zs fwd).
Proof.
  unfold dvcca_forward.forward. intros E.
  apply bind_Ok_inv in E as (qz & Eenc & E).
  apply bind_Ok_inv in E as (px & Edec & E). injection E as <-. done.
Qed.

(** X25.  What [forward] of DVCCA returns has every entry
    [loss_function] reads, as soon as [x] holds a tensor for each view,
    which a [forward] with private composition has already required:
    [forward(x)] returned one single-entry row of likelihoods per view,
    and one posterior per view with private composition and a single one
    without. *)
Theorem dvcca_forward_fits_loss (pos : nat)
        (self : dvcca_forward.Model Prior) (x : list tensor)
        (fwd : dvcca.fwd_rtn Prior) :
  dvcca_forward.forward pos self x = Ok fwd ->
  let a := dvcca_forward.attrs self in
  length (dvcca.px_zs fwd) = dvcca.n_views a /\
  (forall i, (i < dvcca.n_views a)%nat ->
     exists p, dvcca.px_zs fwd !! i = Some [p]) /\
  length (dvcca.qz_x fwd)
  = (if dvcca.private a then dvcca.n_views a else 1%nat) /\
  (dvcca.private a = true -> (dvcca.n_views a <= length x)%nat) /\
  ((dvcca.n_views a <= length x)%nat -> fits_dvcca a x fwd).
Proof.
  intros E a. apply dvcca_forward_inv in E as [Eenc Edec].
  pose proof (dvcca_encode_inv self x _ Eenc) as Hstruct.
  cbn zeta in Hstruct. fold a in Hstruct.
  destruct Hstruct as (e0 & x0 & mu & logvar & _ & _ & _ & Hnp & Hp).
  apply dvcca_decode_inv in Edec as [Hlen Hall]. fold a in Hlen, Hall.
  assert (length (dvcca.qz_x fwd)
          = (if dvcca.private a then dvcca.n_views a else 1%nat)) as Hq.
  { destruct (dvcca.private a) eqn:Hpr.
    - destruct (Hp eq_refl) as (-> & _). done.
    - rewrite (Hnp eq_refl). done. }
  split; [done|]. split.
  { intros i Hi. destruct (Hall i Hi) as (p & Hpx & _). eauto. }
  split; [done|]. split; [intros Hpr; apply (Hp Hpr)|].
  intros Hx. split; [done|]. split; [rewrite Hq; done|].
  intros i Hi. destruct (Hall i Hi) as (p & Hpx & _). eauto.
Qed.

(** X26.  Without private composition [forward] of DVCCA reads view 0
    only: the other entries of [x] do not change its result.  So it also
    returns when [x] has fewer views than the model, and on such a result
    [loss_function] never returns a mapping. *)
Theorem dvcca_forward_shared_reads_first_view (pos : nat)
        (self : dvcca_forward.Model Prior) (x : list tensor) :
  dvcca.private (dvcca_forward.attrs self) = false ->
  dvcca_forward.forward pos self (take 1 x)
  = dvcca_forward.forward pos self x /\
  (forall fwd d,
     dvcca_forward.forward pos self x = Ok fwd ->
     (length x < dvcca.n_views (dvcca_forward.attrs self))%nat ->
     dvcca.loss_function (dvcca_forward.attrs self) x fwd <> Ok d).
Proof.
  intros Hp. split.
  - unfold dvcca_forward.forward, dvcca_forward.encode. cbn zeta.
    rewrite Hp, getitem_take by lia. done.
  - intros fwd d _ Hlen E.
    apply dvcca_loss_function_Ok_fits in E as [Hx _]. lia.
Qed.
End dvcca_forward_facts.

Lemma example_dvcca_forward :
  exists fwd,
    dvcca_forward.forward (H := example_dvcca_networks) 0
      (dvcca_forward.mkModel example_dvcca 2 false) [[[1]]] = Ok fwd.
Proof. eexists. cbn. reflexivity. Qed.

Lemma dvcca_encode_structure_witness :
  exists qz,
    dvcca_forward.encode (H := example_dvcca_networks)
      (dvcca_forward.mkModel example_dvcca 2 false) [[[1]]] = Ok qz /\
    length qz = 1%nat.
Proof.
  assert (exists qz,
            dvcca_forward.encode (H := example_dvcca_networks)
              (dvcca_forward.mkModel example_dvcca 2 false) [[[1]]] = Ok qz)
    as [qz E] by (eexists; cbn; reflexivity).
  exists qz. split; [exact E|].
  destruct (dvcca_encode_structure (H := example_dvcca_networks) _ _ _ E)
    as (e0 & x0 & mu & logvar & _ & _ & _ & Hnp & _).
  rewrite (Hnp eq_refl). reflexivity.
Defined.

Lemma dvcca_forward_fits_loss_witness :
  exists fwd,
    dvcca_forward.forward (H := example_dvcca_networks) 0
      (dvcca_forward.mkModel example_dvcca 2 false) [[[1]]; [[2]]] = Ok fwd /\
    fits_dvcca example_dvcca [[[1]]; [[2]]] fwd.
Proof.
  assert (exists fwd,
            dvcca_forward.forward (H := example_dvcca_networks) 0
              (dvcca_forward.mkModel example_dvcca 2 false) [[[1]]; [[2]]]
            = Ok fwd) as [fwd E] by (eexists; cbn; reflexivity).
  exists fwd. split; [exact E|].
  apply (proj2 (proj2 (proj2 (proj2
           (dvcca_forward_fits_loss (H := example_dvcca_networks) _ _ _ _ E))))).
  cbn. lia.
Defined.

(** Two views configured, one view given: [forward] returns and the loss
    on its result does not. *)
Lemma dvcca_forward_shared_reads_first_view_witness :
  exists fwd,
    dvcca_forward.forward (H := example_dvcca_networks) 0
      (dvcca_forward.mkModel example_dvcca 2 false) [[[1]]] = Ok fwd /\
    forall d, dvcca.loss_function example_dvcca [[[1]]] fwd <> Ok d.
Proof.
  destruct example_dvcca_forward as [fwd E].
  exists fwd. split; [exact E|].
  intros d.
  apply (proj2 (dvcca_forward_shared_reads_first_view
                  (H := example_dvcca_networks) 0
                  (dvcca_forward.mkModel example_dvcca 2 false) [[[1]]]
                  eq_refl) fwd d E).
  cbn. lia.
Defined.
